(** * AsyncAPI discovery: event detection and specification generation

    A shallow embedding of the event detector ([event_detector.py]), the
    AsyncAPI 3.0 generator ([asynapi_generator.py]), the simple 2.6 generator
    ([generator.py]) and the catalog manager's document builder
    ([catalog_manager.py]), with the properties of their specification
    proved or refuted on the embedding; and of the code around them: the
    local scanner ([scanner.py]) and its driver ([discovery.py]), the
    repository loop of [main.py] with the catalog index, and the catalog
    manager of the 3.0 specifications with its index and its report.

    Python values are modelled by the JSON-shaped type [value]; dictionaries
    are association lists in insertion order (the order the generated
    documents are dumped in), with any value as a key since the generators
    key dictionaries by fields of the events; exceptions are explicit
    results.  Strings hold ASCII text and JSON numbers are integers. *)

From Stdlib Require Import String Ascii List ZArith Bool Arith Lia Permutation.
From Stdlib Require Import DecimalString DecimalNat.
Import ListNotations.
Set Warnings "-register-all".
Open Scope string_scope.
Open Scope nat_scope.

(** ** The Python fragment the program lives in *)

Module Py.

Inductive value : Type :=
| VNone
| VBool (b : bool)
| VInt (z : Z)
| VStr (s : string)
| VList (l : list value)
| VDict (d : list (value * value)).

Inductive exn : Type :=
  AttributeError | TypeError | KeyError | ValueError | IndexError.

Inductive result (A : Type) : Type :=
| Ok (a : A)
| Raise (e : exn).
Arguments Ok {A} a.
Arguments Raise {A} e.

Definition bind {A B : Type} (r : result A) (k : A -> result B) : result B :=
  match r with
  | Ok a => k a
  | Raise e => Raise e
  end.

Notation "x <- c ;; k" := (bind c (fun x => k))
  (at level 61, c at next level, right associativity).

Fixpoint mapM {A B : Type} (f : A -> result B) (l : list A) : result (list B) :=
  match l with
  | [] => Ok []
  | x :: xs => y <- f x ;; ys <- mapM f xs ;; Ok (y :: ys)
  end.

(** *** Characters and strings *)

Definition dquote : ascii := ascii_of_nat 34.
Definition squote : ascii := ascii_of_nat 39.

Definition chr (c : ascii) : string := String c EmptyString.

Definition in_range (lo hi : nat) (c : ascii) : bool :=
  let n := nat_of_ascii c in (lo <=? n) && (n <=? hi).

Definition is_lower (c : ascii) : bool := in_range 97 122 c.
Definition is_upper (c : ascii) : bool := in_range 65 90 c.
Definition is_digit (c : ascii) : bool := in_range 48 57 c.

Definition upper_char (c : ascii) : ascii :=
  if is_lower c then ascii_of_nat (nat_of_ascii c - 32) else c.
Definition lower_char (c : ascii) : ascii :=
  if is_upper c then ascii_of_nat (nat_of_ascii c + 32) else c.

Fixpoint map_string (f : ascii -> ascii) (s : string) : string :=
  match s with
  | EmptyString => EmptyString
  | String c r => String (f c) (map_string f r)
  end.

(** [str.upper()] and [str.capitalize()] on ASCII text. *)
Definition upper (s : string) : string := map_string upper_char s.
Definition capitalize (s : string) : string :=
  match s with
  | EmptyString => EmptyString
  | String c r => String (upper_char c) (map_string lower_char r)
  end.

(** [s.replace(a, b)] for one-character [a] and [b]. *)
Definition replace (a b : ascii) (s : string) : string :=
  map_string (fun c => if Ascii.eqb c a then b else c) s.

Definition startswith (p s : string) : bool := String.prefix p s.

(** [s.split(sep)] for a one-character separator: never the empty list. *)
Fixpoint split (sep : ascii) (s : string) : list string :=
  match s with
  | EmptyString => [EmptyString]
  | String c r =>
      if Ascii.eqb c sep then EmptyString :: split sep r
      else match split sep r with
           | [] => [chr c]
           | p :: ps => String c p :: ps
           end
  end.

Fixpoint join (sep : string) (l : list string) : string :=
  match l with
  | [] => EmptyString
  | [x] => x
  | x :: xs => x ++ sep ++ join sep xs
  end.

Definition str_of_nat (n : nat) : string := NilZero.string_of_uint (Nat.to_uint n).
Definition str_of_Z (z : Z) : string := NilZero.string_of_int (Z.to_int z).

Definition hex_digit (n : nat) : ascii :=
  if n <? 10 then ascii_of_nat (48 + n) else ascii_of_nat (87 + n).

Fixpoint contains_char (a : ascii) (s : string) : bool :=
  match s with
  | EmptyString => false
  | String c r => Ascii.eqb c a || contains_char a r
  end.

(** [repr] of a string: single quotes unless the text holds a single quote
    and no double quote; backslash, the chosen quote and control characters
    are escaped. *)
Definition repr_char (q c : ascii) : string :=
  let n := nat_of_ascii c in
  if Ascii.eqb c q || (n =? 92) then String (ascii_of_nat 92) (chr c)
  else if n =? 9 then String (ascii_of_nat 92) "t"
  else if n =? 10 then String (ascii_of_nat 92) "n"
  else if n =? 13 then String (ascii_of_nat 92) "r"
  else if (n <? 32) || (126 <? n) then
    String (ascii_of_nat 92) (String "x" (String (hex_digit (n / 16)) (chr (hex_digit (n mod 16)))))
  else chr c.

Fixpoint repr_body (q : ascii) (s : string) : string :=
  match s with
  | EmptyString => EmptyString
  | String c r => repr_char q c ++ repr_body q r
  end.

Definition repr_str (s : string) : string :=
  let q := if contains_char squote s && negb (contains_char dquote s)
           then dquote else squote in
  String q (repr_body q s ++ chr q).

(** *** Values *)

(** [a == b]: booleans compare as the integers 0 and 1, dictionaries
    regardless of the order of their keys. *)
Fixpoint py_eqb (a b : value) {struct a} : bool :=
  match a, b with
  | VNone, VNone => true
  | VBool x, VBool y => Bool.eqb x y
  | VBool x, VInt y => Z.eqb (Z.b2z x) y
  | VInt x, VBool y => Z.eqb x (Z.b2z y)
  | VInt x, VInt y => Z.eqb x y
  | VStr x, VStr y => String.eqb x y
  | VList xs, VList ys =>
      (fix go (xs ys : list value) {struct xs} : bool :=
         match xs, ys with
         | [], [] => true
         | x :: xs', y :: ys' => py_eqb x y && go xs' ys'
         | _, _ => false
         end) xs ys
  | VDict d1, VDict d2 =>
      Nat.eqb (length d1) (length d2)
      && forallb (fun kv =>
                    existsb (fun kv' => py_eqb (fst kv) (fst kv')
                                        && py_eqb (snd kv) (snd kv')) d2) d1
  | _, _ => false
  end.

(** The value stored under key [k]. *)
Fixpoint lookup (k : value) (d : list (value * value)) : option value :=
  match d with
  | [] => None
  | (k', v) :: r => if py_eqb k' k then Some v else lookup k r
  end.

(** [d[k] = v] on an insertion-ordered dictionary: an existing key keeps its
    place, a new one goes last. *)
Fixpoint dict_set (k v : value) (d : list (value * value)) : list (value * value) :=
  match d with
  | [] => [(k, v)]
  | (k', v') :: r => if py_eqb k' k then (k', v) :: r else (k', v') :: dict_set k v r
  end.

Definition keys (d : list (value * value)) : list value := map fst d.

(** A dictionary literal with string keys. *)
Definition fields (l : list (string * value)) : list (value * value) :=
  map (fun kv => (VStr (fst kv), snd kv)) l.

Definition obj (l : list (string * value)) : value := VDict (fields l).

(** [repr(v)] and [str(v)], as an f-string formats a value. *)
Fixpoint repr (v : value) : string :=
  match v with
  | VNone => "None"
  | VBool true => "True"
  | VBool false => "False"
  | VInt z => str_of_Z z
  | VStr s => repr_str s
  | VList l => "[" ++ join ", " (map repr l) ++ "]"
  | VDict d =>
      "{" ++ join ", " (map (fun kv => repr (fst kv) ++ ": " ++ repr (snd kv)) d) ++ "}"
  end.

Definition str (v : value) : string :=
  match v with
  | VStr s => s
  | _ => repr v
  end.

(** Lists and dictionaries have no hash. *)
Definition hashable (v : value) : bool :=
  match v with
  | VList _ | VDict _ => false
  | _ => true
  end.

(** [bool(v)]. *)
Definition truthy (v : value) : bool :=
  match v with
  | VNone => false
  | VBool b => b
  | VInt z => negb (Z.eqb z 0)
  | VStr s => negb (String.eqb s EmptyString)
  | VList l => match l with [] => false | _ => true end
  | VDict d => match d with [] => false | _ => true end
  end.

(** [v.get(k, default)]: only a dictionary has the method. *)
Definition get (v : value) (k : string) (default : value) : result value :=
  match v with
  | VDict d => Ok (match lookup (VStr k) d with Some x => x | None => default end)
  | _ => Raise AttributeError
  end.

(** [v[k]] for a string [k]. *)
Definition getitem (v : value) (k : string) : result value :=
  match v with
  | VDict d => match lookup (VStr k) d with Some x => Ok x | None => Raise KeyError end
  | _ => Raise TypeError
  end.

(** [for x in v]: the elements of a list, the characters of a string, the
    keys of a dictionary. *)
Definition iter (v : value) : result (list value) :=
  match v with
  | VList l => Ok l
  | VStr s => Ok (map (fun c => VStr (chr c)) (list_ascii_of_string s))
  | VDict d => Ok (keys d)
  | _ => Raise TypeError
  end.

(** [xs.index(x)], by [==]. *)
Fixpoint index (x : value) (xs : list value) : result nat :=
  match xs with
  | [] => Raise ValueError
  | y :: ys => if py_eqb y x then Ok 0 else i <- index x ys ;; Ok (S i)
  end.

(** The distinct elements of [xs], first occurrences kept: what a set built
    from [xs] holds. *)
Fixpoint distinct (xs : list value) : list value :=
  match xs with
  | [] => []
  | x :: r => x :: filter (fun y => negb (py_eqb x y)) (distinct r)
  end.

(** What one run of the interpreter fixes from outside the program: the
    clock reading [datetime.utcnow().isoformat()] and the order in which a
    set is iterated, which for strings follows the per-process hash seed.
    Whatever the order, iterating a set yields its elements. *)
Record runtime : Type := {
  utcnow_isoformat : string;
  set_order : list value -> list value;
  set_order_perm : forall l, Permutation (set_order l) l
}.

End Py.

Import Py.

(** ** event_detector.py *)

Module EventDetector.

Definition dq : string := chr dquote.
Definition sq : string := chr squote.

(** The quote class of the source's patterns, which holds both quotes. *)
Definition quote_class : string := "[" ++ dq ++ "\" ++ sq ++ "]".

Definition KAFKA_PATTERNS : list string :=
  [ "KafkaProducer"; "\.send\s*\("; "kafka\.Producer"; "@KafkaListener" ].

Definition RABBITMQ_PATTERNS : list string :=
  [ "channel\.basic_publish"; "RabbitTemplate"; "@RabbitListener";
    "pika\.BlockingConnection" ].

Definition AWS_PATTERNS : list string :=
  [ "sns\.publish";
    "sqs\.send_message";
    "boto3\.client\(" ++ quote_class ++ "sns" ++ quote_class;
    "boto3\.client\(" ++ quote_class ++ "sqs" ++ quote_class ].

Definition PUBSUB_PATTERNS : list string :=
  [ "publisher\.publish"; "google\.cloud\.pubsub"; "PublisherClient" ].

Definition AZURE_PATTERNS : list string :=
  [ "ServiceBusClient"; "send_messages"; "azure\.servicebus" ].

Definition GENERIC_EVENT_PATTERNS : list string :=
  [ "\.emit\s*\("; "\.publish\s*\("; "\.fire\s*\("; "EventEmitter";
    "\.trigger\s*\(" ].

(** [_compile_patterns]: the broker types in the order the dictionary lists
    them, each with the source text of its patterns. *)
Definition patterns : list (string * list string) :=
  [ ("kafka", KAFKA_PATTERNS);
    ("rabbitmq", RABBITMQ_PATTERNS);
    ("aws", AWS_PATTERNS);
    ("pubsub", PUBSUB_PATTERNS);
    ("azure", AZURE_PATTERNS);
    ("generic", GENERIC_EVENT_PATTERNS) ].

(** *** The string pattern of [_extract_event_name]

    A quote of either kind, one or more characters of [a-zA-Z0-9._-] (the
    captured group), a quote of either kind. *)

Definition is_quote (c : ascii) : bool := Ascii.eqb c dquote || Ascii.eqb c squote.

Definition is_name_char (c : ascii) : bool :=
  is_lower c || is_upper c || is_digit c
  || Ascii.eqb c "." || Ascii.eqb c "_" || Ascii.eqb c "-".

(** The longest run of name characters at the head of [s], and what follows. *)
Fixpoint name_span (s : string) : string * string :=
  match s with
  | EmptyString => (EmptyString, EmptyString)
  | String c r =>
      if is_name_char c
      then let (t, rest) := name_span r in (String c t, rest)
      else (EmptyString, s)
  end.

(** The pattern matched at the head of [s]: the captured group and the text
    after the closing quote.  The run is greedy, and no shorter run can
    match, since the character after a shorter run is a name character. *)
Definition match_here (s : string) : option (string * string) :=
  match s with
  | EmptyString => None
  | String q r =>
      if is_quote q then
        match name_span r with
        | (String c t, String q' after) =>
            if is_quote q' then Some (String c t, after) else None
        | _ => None
        end
      else None
  end.

(** [re.findall]: leftmost matches that do not overlap; after a match the
    scan resumes behind its closing quote, otherwise one character on.  Each
    step consumes a character, so the length of the text is fuel enough. *)
Fixpoint findall_from (fuel : nat) (s : string) : list string :=
  match fuel with
  | 0 => []
  | S fuel' =>
      match s with
      | EmptyString => []
      | String _ r =>
          match match_here s with
          | Some (tok, after) => tok :: findall_from fuel' after
          | None => findall_from fuel' r
          end
      end
  end.

Definition findall (line : string) : list string :=
  findall_from (String.length line) line.

(** [len(s) > 2 and not s.startswith('_')]. *)
Definition reasonable (s : string) : bool :=
  (2 <? String.length s) && negb (startswith "_" s).

(** The inner [for s in strings] loop: the first reasonable string. *)
Fixpoint first_reasonable (strings : list string) : option string :=
  match strings with
  | [] => None
  | s :: r => if reasonable s then Some s else first_reasonable r
  end.

(** [re.findall(string_pattern, line)] raises a TypeError unless [line] is a
    string. *)
Definition re_findall (line : value) : result (list string) :=
  match line with
  | VStr s => Ok (findall s)
  | _ => Raise TypeError
  end.

(** The outer loop of [_extract_event_name] over the line matches. *)
Fixpoint extract_loop (line_matches : list value) (broker_type : string)
  : result string :=
  match line_matches with
  | [] => Ok (broker_type ++ "_event")
  | m :: rest =>
      line <- get m "line" (VStr EmptyString) ;;
      strings <- re_findall line ;;
      match first_reasonable strings with
      | Some s => Ok s
      | None => extract_loop rest broker_type
      end
  end.

Definition _extract_event_name (line_matches : value) (broker_type : string)
  : result string :=
  lms <- iter line_matches ;;
  extract_loop lms broker_type.

(** The body of [_parse_event] inside its [try]. *)
Definition parse_event_body (m : value) (broker_type : string)
  : result (option value) :=
  file <- get m "file" (VDict []) ;;
  file_path <- get file "path" (VStr EmptyString) ;;
  repository <- get m "repository" (VDict []) ;;
  repo_name <- get repository "name" (VStr EmptyString) ;;
  line_matches <- get m "lineMatches" (VList []) ;;
  if negb (truthy line_matches) then Ok None
  else
    event_name <- _extract_event_name line_matches broker_type ;;
    lms <- iter line_matches ;;
    lines <- mapM (fun lm => get lm "lineNumber" (VInt 0)) lms ;;
    source_code <- mapM (fun lm => get lm "line" (VStr EmptyString)) lms ;;
    Ok (Some (obj [ ("name", VStr event_name);
                    ("broker", VStr broker_type);
                    ("file", file_path);
                    ("repository", repo_name);
                    ("lines", VList lines);
                    ("source_code", VList source_code) ])).

(** [_parse_event]: [except Exception] turns every exception into [None]. *)
Definition _parse_event (m : value) (broker_type : string) : option value :=
  match parse_event_body m broker_type with
  | Ok r => r
  | Raise _ => None
  end.

(** Membership of a key tuple in the [seen] set: tuples compare by [==] on
    their components. *)
Definition key_eqb (k1 k2 : value * value) : bool :=
  py_eqb (fst k1) (fst k2) && py_eqb (snd k1) (snd k2).

Definition seen_mem (k : value * value) (seen : list (value * value)) : bool :=
  existsb (key_eqb k) seen.

(** The loop of [_deduplicate_events], with its two accumulators.  Hashing
    the key raises a TypeError when a component has no hash. *)
Fixpoint dedup_loop (events : list value) (seen : list (value * value))
  (unique_events : list value) : result (list value) :=
  match events with
  | [] => Ok unique_events
  | event :: rest =>
      name <- getitem event "name" ;;
      broker <- getitem event "broker" ;;
      if negb (hashable name && hashable broker) then Raise TypeError
      else if seen_mem (name, broker) seen
           then dedup_loop rest seen unique_events
           else dedup_loop rest ((name, broker) :: seen) (unique_events ++ [event])%list
  end.

Definition _deduplicate_events (events : list value) : result (list value) :=
  dedup_loop events [] [].

(** The events one result batch contributes: those the parser returns. *)
Fixpoint parse_results (results : list value) (broker_type : string) : list value :=
  match results with
  | [] => []
  | r :: rest =>
      match _parse_event r broker_type with
      | Some event => event :: parse_results rest broker_type
      | None => parse_results rest broker_type
      end
  end.

(** The accumulation loops of [detect_events]: every pattern of every broker
    type is queried once, in order.  [search_code query repo] is the client's
    answer, a sequence of matches. *)
Definition collect_events (repo : string) (search_code : string -> string -> list value)
  : list value :=
  flat_map (fun bp : string * list string =>
              flat_map (fun pattern => parse_results (search_code pattern repo) (fst bp))
                       (snd bp))
           patterns.

Definition detect_events (repo : string) (search_code : string -> string -> list value)
  : result (list value) :=
  _deduplicate_events (collect_events repo search_code).

End EventDetector.

(** ** event_detector.py: [detect_events] and the client it is handed

    The detector calls [search_code(query, repo)] on whatever client object
    it is given: the call can raise, and what it returns is iterated by a
    [for] loop.  Nothing in [detect_events] catches an exception of the call
    or of the iteration.  [EventDetector.detect_events] is the case of a
    client that answers every query with a list. *)

Module AnyClient.

(** The loop over the patterns of one broker type. *)
Fixpoint pattern_loop (repo : string) (search_code : string -> string -> result value)
  (broker_type : string) (patterns : list string) (events : list value)
  : result (list value) :=
  match patterns with
  | [] => Ok events
  | pattern :: rest =>
      results <- search_code pattern repo ;;
      matches <- iter results ;;
      pattern_loop repo search_code broker_type rest
        (events ++ EventDetector.parse_results matches broker_type)%list
  end.

(** The loop over [self.patterns.items()]. *)
Fixpoint broker_loop (repo : string) (search_code : string -> string -> result value)
  (patterns : list (string * list string)) (events : list value)
  : result (list value) :=
  match patterns with
  | [] => Ok events
  | (broker_type, broker_patterns) :: rest =>
      events' <- pattern_loop repo search_code broker_type broker_patterns events ;;
      broker_loop repo search_code rest events'
  end.

Definition detect_events (repo : string) (search_code : string -> string -> result value)
  : result (list value) :=
  events <- broker_loop repo search_code EventDetector.patterns [] ;;
  EventDetector._deduplicate_events events.

End AnyClient.

(** ** The grouping idiom of the generators *)

Module Grouping.

(** A grouping dictionary [key -> list of events], filled by
    [if key not in groups: groups[key] = []] and [groups[key].append(event)]. *)
Fixpoint group_add (k event : value) (groups : list (value * list value))
  : list (value * list value) :=
  match groups with
  | [] => [(k, [event])]
  | (k', es) :: r =>
      if py_eqb k' k then (k', (es ++ [event])%list) :: r
      else (k', es) :: group_add k event r
  end.

(** The grouping loop on the field [field] of each event, with the default
    the source gives [get].  A key without a hash raises a TypeError. *)
Fixpoint group_loop (field : string) (default : value) (events : list value)
  (groups : list (value * list value)) : result (list (value * list value)) :=
  match events with
  | [] => Ok groups
  | event :: rest =>
      k <- get event field default ;;
      if hashable k then group_loop field default rest (group_add k event groups)
      else Raise TypeError
  end.

End Grouping.

Import Grouping.

(** ** asynapi_generator.py: the AsyncAPI 3.0 generator *)

Module AsynapiGenerator.

Definition version : string := "3.0.0".

(** [_generate_info].  The set of repositories is filled from a generator,
    so each event is read and hashed in turn. *)
Definition _generate_info (rt : runtime) (service_name : string)
  (events : list value) (version : string) : result value :=
  rs <- mapM (fun e => r <- get e "repository" (VStr EmptyString) ;;
                       if hashable r then Ok r else Raise TypeError) events ;;
  let repos := set_order rt (distinct rs) in
  Ok (obj [ ("title", VStr (service_name ++ " Event API"));
            ("version", VStr version);
            ("description",
             VStr ("Asynchronous event API for " ++ service_name ++ ". "
                   ++ "This specification was auto-generated from code analysis."));
            ("x-generated",
             obj [ ("timestamp", VStr (utcnow_isoformat rt ++ "Z"));
                   ("eventCount", VInt (Z.of_nat (length events)));
                   ("repositories", VList repos) ]) ]).

(** [_get_protocol]: the closed broker-to-protocol table. *)
Definition protocol_map : list (value * value) :=
  [ (VStr "kafka", VStr "kafka");
    (VStr "rabbitmq", VStr "amqp");
    (VStr "aws-sns", VStr "sns");
    (VStr "aws-sqs", VStr "sqs");
    (VStr "aws-eventbridge", VStr "eventbridge");
    (VStr "ibm-mq", VStr "ibmmq") ].

Definition _get_protocol (broker : value) : value :=
  match lookup broker protocol_map with
  | Some p => p
  | None => VStr "unknown"
  end.

(** [_get_server_config]: [broker.upper()] needs a string. *)
Definition _get_server_config (broker : value) (events : list value) : result value :=
  let protocol := _get_protocol broker in
  match broker with
  | VStr b =>
      let config :=
        [ ("host", VStr "{environment}.example.com");
          ("protocol", protocol);
          ("description", VStr (upper b ++ " message broker"));
          ("variables",
           obj [ ("environment",
                  obj [ ("default", VStr "dev");
                        ("enum", VList [VStr "dev"; VStr "staging"; VStr "prod"]) ]) ]) ] in
      if String.eqb b "kafka" then
        Ok (obj (config ++ [ ("bindings",
              obj [ ("kafka",
                     obj [ ("schemaRegistryUrl",
                            VStr "https://schema-registry.example.com") ]) ]) ])%list)
      else if String.eqb b "rabbitmq" then
        Ok (obj (config ++ [ ("bindings",
              obj [ ("amqp", obj [ ("exchange", VStr "default") ]) ]) ])%list)
      else if startswith "aws-" b then
        Ok (obj (config ++ [ ("bindings",
              obj [ ("aws", obj [ ("region", VStr "us-east-1") ]) ]) ])%list)
      else Ok (obj config)
  | _ => Raise AttributeError
  end.

(** The second loop of [_generate_servers], over [brokers.items()]. *)
Fixpoint servers_loop (brokers : list (value * list value))
  (servers : list (value * value)) : result (list (value * value)) :=
  match brokers with
  | [] => Ok servers
  | (broker, broker_events) :: rest =>
      server_config <- _get_server_config broker broker_events ;;
      servers_loop rest (dict_set broker server_config servers)
  end.

Definition _generate_servers (events : list value) : result value :=
  brokers <- group_loop "broker" (VStr "unknown") events [] ;;
  servers <- servers_loop brokers [] ;;
  Ok (VDict servers).

(** [_sanitize_channel_id]: [replace] needs a string. *)
Definition sanitize (channel_name : string) : string :=
  replace ":" "_" (replace "." "_" (replace "/" "_" channel_name)).

Definition _sanitize_channel_id (channel_name : value) : result string :=
  match channel_name with
  | VStr s => Ok (sanitize s)
  | _ => Raise AttributeError
  end.

(** The message references of a channel: one per event, by position. *)
Fixpoint channel_messages (channel_id : string) (idx : nat) (events : list value)
  (messages : list (value * value)) : list (value * value) :=
  match events with
  | [] => messages
  | _ :: rest =>
      let message_id := channel_id ++ "_message_" ++ str_of_nat idx in
      channel_messages channel_id (S idx) rest
        (dict_set (VStr message_id)
                  (obj [ ("$ref", VStr ("#/components/messages/" ++ message_id)) ])
                  messages)
  end.

(** [_create_channel], called on a group, which is never empty; the name has
    gone through [_sanitize_channel_id] and is a string. *)
Definition _create_channel (channel_name : string) (events : list value)
  : result value :=
  match events with
  | [] => Raise IndexError
  | first_event :: _ =>
      broker <- get first_event "broker" (VStr "unknown") ;;
      channel_type <- get first_event "channel_type" (VStr "topic") ;;
      let channel :=
        [ ("address", VStr channel_name);
          ("description", VStr ("Channel: " ++ channel_name));
          ("messages", VDict (channel_messages (sanitize channel_name) 0 events [])) ] in
      if py_eqb broker (VStr "kafka") then
        Ok (obj (channel ++ [ ("bindings",
              obj [ ("kafka",
                     obj [ ("topic", VStr channel_name);
                           ("partitions", VInt 3);
                           ("replicas", VInt 2) ]) ]) ])%list)
      else if py_eqb broker (VStr "rabbitmq") then
        let parts := split "/" channel_name in
        Ok (obj (channel ++ [ ("bindings",
              obj [ ("amqp",
                     obj [ ("is", channel_type);
                           ("exchange",
                            obj [ ("name",
                                   VStr (if 1 <? length parts
                                         then nth 0 parts EmptyString else "default"));
                                  ("type", VStr "topic") ]);
                           ("queue",
                            obj [ ("name",
                                   VStr (if 1 <? length parts
                                         then nth 1 parts EmptyString
                                         else channel_name)) ]) ]) ]) ])%list)
      else Ok (obj channel)
  end.

(** The second loop of [_generate_channels], over [channel_groups.items()]. *)
Fixpoint channels_loop (channel_groups : list (value * list value))
  (channels : list (value * value)) : result (list (value * value)) :=
  match channel_groups with
  | [] => Ok channels
  | (channel_name, channel_events) :: rest =>
      channel_id <- _sanitize_channel_id channel_name ;;
      channel <- _create_channel (str channel_name) channel_events ;;
      channels_loop rest (dict_set (VStr channel_id) channel channels)
  end.

Definition _generate_channels (events : list value) : result value :=
  channel_groups <- group_loop "channel_name" (VStr "unknown") events [] ;;
  channels <- channels_loop channel_groups [] ;;
  Ok (VDict channels).

(** An entry of [channel_operations]: the channel name and the operation of
    the first event of the channel, and the events of the channel. *)
Record op_data : Type := {
  op_channel : string;
  op_operation : value;
  op_events : list value
}.

Fixpoint op_add (channel_id channel_name : string) (operation event : value)
  (ops : list (string * op_data)) : list (string * op_data) :=
  match ops with
  | [] => [(channel_id, {| op_channel := channel_name;
                           op_operation := operation;
                           op_events := [event] |})]
  | (id, d) :: r =>
      if String.eqb id channel_id
      then (id, {| op_channel := op_channel d;
                   op_operation := op_operation d;
                   op_events := (op_events d ++ [event])%list |}) :: r
      else (id, d) :: op_add channel_id channel_name operation event r
  end.

Fixpoint operations_group (events : list value) (ops : list (string * op_data))
  : result (list (string * op_data)) :=
  match events with
  | [] => Ok ops
  | event :: rest =>
      channel_name <- get event "channel_name" (VStr "unknown") ;;
      channel_id <- _sanitize_channel_id channel_name ;;
      operation <- get event "operation" (VStr "send") ;;
      operations_group rest (op_add channel_id (str channel_name) operation event ops)
  end.

(** The message references of an operation, [for idx in range(len(events))]. *)
Definition operation_messages (channel_id : string) (n : nat) : list value :=
  map (fun idx => obj [ ("$ref", VStr ("#/channels/" ++ channel_id ++ "/messages/"
                                      ++ channel_id ++ "_message_" ++ str_of_nat idx)) ])
      (seq 0 n).

(** The second loop of [_generate_operations]; [capitalize] needs a string. *)
Fixpoint operations_loop (ops : list (string * op_data))
  (operations : list (value * value)) : result (list (value * value)) :=
  match ops with
  | [] => Ok operations
  | (channel_id, d) :: rest =>
      let operation_id := str (op_operation d) ++ "_" ++ channel_id in
      match op_operation d with
      | VStr o =>
          let entry :=
            obj [ ("action", VStr o);
                  ("channel", obj [ ("$ref", VStr ("#/channels/" ++ channel_id)) ]);
                  ("description",
                   VStr (capitalize o ++ " messages to " ++ op_channel d));
                  ("messages",
                   VList (operation_messages channel_id (length (op_events d)))) ] in
          operations_loop rest (dict_set (VStr operation_id) entry operations)
      | _ => Raise AttributeError
      end
  end.

Definition _generate_operations (events : list value) : result value :=
  ops <- operations_group events [] ;;
  operations <- operations_loop ops [] ;;
  Ok (VDict operations).

(** [_create_schema]: the template schema of a message payload. *)
Definition _create_schema (event : value) : result value :=
  message_type <- get event "message_type" (VStr "Unknown") ;;
  Ok (obj [ ("type", VStr "object");
            ("title", message_type);
            ("description",
             VStr ("Schema for " ++ str message_type
                   ++ " (to be enriched with actual fields)"));
            ("properties",
             obj [ ("eventId",
                    obj [ ("type", VStr "string");
                          ("description", VStr "Unique event identifier");
                          ("format", VStr "uuid") ]);
                   ("timestamp",
                    obj [ ("type", VStr "string");
                          ("description", VStr "Event timestamp");
                          ("format", VStr "date-time") ]);
                   ("eventType",
                    obj [ ("type", VStr "string");
                          ("description", VStr "Type of event");
                          ("const", message_type) ]);
                   ("payload",
                    obj [ ("type", VStr "object");
                          ("description",
                           VStr "Event-specific payload (schema to be defined)");
                          ("additionalProperties", VBool true) ]) ]);
            ("required", VList [VStr "eventId"; VStr "timestamp"; VStr "eventType"]);
            ("x-note",
             VStr ("This is a template schema. "
                   ++ "Actual schema should be enriched with real payload fields.")) ]).

(** [[e for e in events if e.get('channel_name') == channel_name]]: here
    [get] has no default, so an event without the field yields [None]. *)
Fixpoint same_channel (events : list value) (channel_name : value)
  : result (list value) :=
  match events with
  | [] => Ok []
  | e :: rest =>
      c <- get e "channel_name" VNone ;;
      r <- same_channel rest channel_name ;;
      Ok (if py_eqb c channel_name then e :: r else r)
  end.

(** The loop of [_generate_components] over the events; [events] is the
    whole list, which the index of each event is looked up in. *)
Fixpoint components_loop (events todo : list value)
  (messages schemas : list (value * value))
  : result (list (value * value) * list (value * value)) :=
  match todo with
  | [] => Ok (messages, schemas)
  | event :: rest =>
      channel_name <- get event "channel_name" (VStr "unknown") ;;
      channel_id <- _sanitize_channel_id channel_name ;;
      message_type <- get event "message_type" (VStr "Unknown") ;;
      group <- same_channel events channel_name ;;
      event_idx <- index event group ;;
      let message_id := channel_id ++ "_message_" ++ str_of_nat event_idx in
      let schema_id := message_id ++ "_payload" in
      repository <- get event "repository" (VStr EmptyString) ;;
      file_path <- get event "file_path" (VStr EmptyString) ;;
      line_number <- get event "line_number" (VInt 0) ;;
      let message :=
        obj [ ("name", message_type);
              ("title", VStr (str message_type ++ " Event"));
              ("summary", VStr ("Message published to " ++ str channel_name));
              ("contentType", VStr "application/json");
              ("payload",
               obj [ ("$ref", VStr ("#/components/schemas/" ++ schema_id)) ]);
              ("x-source",
               obj [ ("repository", repository);
                     ("filePath", file_path);
                     ("lineNumber", line_number) ]) ] in
      schema <- _create_schema event ;;
      components_loop events rest
        (dict_set (VStr message_id) message messages)
        (dict_set (VStr schema_id) schema schemas)
  end.

Definition _generate_components (events : list value) : result value :=
  ms <- components_loop events events [] [] ;;
  Ok (obj [ ("messages", VDict (fst ms)); ("schemas", VDict (snd ms)) ]).

(** [generate_spec]: the sections are built in the order of the literal. *)
Definition generate_spec (rt : runtime) (service_name : string)
  (events : list value) (version_ : string) : result value :=
  info <- _generate_info rt service_name events version_ ;;
  servers <- _generate_servers events ;;
  channels <- _generate_channels events ;;
  operations <- _generate_operations events ;;
  components <- _generate_components events ;;
  Ok (obj [ ("asyncapi", VStr version);
            ("info", info);
            ("servers", servers);
            ("channels", channels);
            ("operations", operations);
            ("components", components) ]).

End AsynapiGenerator.

(** ** generator.py: the simple AsyncAPI 2.6 generator *)

Module Generator.

Definition asyncapi_version : string := "2.6.0".

Definition _create_base_spec : list (value * value) :=
  fields
  [ ("asyncapi", VStr asyncapi_version);
    ("info",
     obj [ ("title", VStr "Discovered AsyncAPI Specification");
           ("version", VStr "1.0.0");
           ("description",
            VStr "Auto-generated AsyncAPI specification from repository scanning") ]);
    ("servers",
     obj [ ("development",
            obj [ ("url", VStr "localhost");
                  ("protocol", VStr "amqp");
                  ("description", VStr "Development server") ]) ]) ].

Definition _create_channel (event : value) : result value :=
  name <- get event "name" (VStr "unknown") ;;
  title <- get event "name" (VStr "Unknown Event") ;;
  Ok (obj [ ("description", VStr ("Channel for " ++ str name ++ " event"));
            ("subscribe",
             obj [ ("summary", VStr ("Subscribe to " ++ str name ++ " events"));
                   ("message",
                    obj [ ("name", name);
                          ("title", title);
                          ("contentType", VStr "application/json");
                          ("payload",
                           obj [ ("type", VStr "object");
                                 ("properties",
                                  obj [ ("eventId",
                                         obj [ ("type", VStr "string");
                                               ("description",
                                                VStr "Unique event identifier") ]);
                                        ("timestamp",
                                         obj [ ("type", VStr "string");
                                               ("format", VStr "date-time");
                                               ("description", VStr "Event timestamp") ]);
                                        ("data",
                                         obj [ ("type", VStr "object");
                                               ("description",
                                                VStr "Event payload data") ]) ]) ]) ]) ]) ]).

(** The loop of [generate] over the events: a channel per name, the first
    event of a name winning. *)
Fixpoint channels_loop (events : list value) (channels : list (value * value))
  : result (list (value * value)) :=
  match events with
  | [] => Ok channels
  | event :: rest =>
      channel_name <- get event "name" (VStr "unknown") ;;
      if negb (hashable channel_name) then Raise TypeError
      else match lookup channel_name channels with
           | Some _ => channels_loop rest channels
           | None =>
               channel <- _create_channel event ;;
               channels_loop rest (dict_set channel_name channel channels)
           end
  end.

(** [generate], up to the document it hands to [yaml.dump]. *)
Definition generate (producers : value) : result value :=
  events <- get producers "events" (VList []) ;;
  events <- iter events ;;
  channels <- channels_loop events [] ;;
  Ok (VDict (dict_set (VStr "channels") (VDict channels) _create_base_spec)).

End Generator.

(** ** catalog_manager.py: the document of a repository *)

Module CatalogManager.

Definition ASYNCAPI_VERSION : string := "2.6.0".

Definition _group_events_by_broker (events : list value)
  : result (list (value * list value)) :=
  group_loop "broker" (VStr "generic") events [].

(** [broker_type.upper()] needs a string. *)
Fixpoint servers_loop (brokers : list (value * list value))
  (servers : list (value * value)) : result (list (value * value)) :=
  match brokers with
  | [] => Ok servers
  | (broker_type, _) :: rest =>
      let server_name := str broker_type ++ "_server" in
      match broker_type with
      | VStr b =>
          servers_loop rest
            (dict_set (VStr server_name)
               (obj [ ("url", VStr (b ++ "://localhost"));
                      ("protocol", broker_type);
                      ("description", VStr (upper b ++ " broker")) ])
               servers)
      | _ => Raise AttributeError
      end
  end.

Definition schema_placeholder : value :=
  obj [ ("type", VStr "object");
        ("properties",
         obj [ ("eventId",
                obj [ ("type", VStr "string");
                      ("description", VStr "Unique event identifier") ]);
               ("timestamp",
                obj [ ("type", VStr "string");
                      ("format", VStr "date-time");
                      ("description", VStr "Event timestamp") ]);
               ("data",
                obj [ ("type", VStr "object");
                      ("description", VStr "Event payload data") ]) ]) ].

(** The loop over the events, with the three dictionaries it fills.  The
    name and the file are read by subscript: a missing key raises. *)
Fixpoint events_loop (events : list value)
  (channels messages schemas : list (value * value))
  : result (list (value * value) * list (value * value) * list (value * value)) :=
  match events with
  | [] => Ok (channels, messages, schemas)
  | event :: rest =>
      channel_name <- getitem event "name" ;;
      let name := str channel_name in
      let message_name := name ++ "_message" in
      let channel :=
        obj [ ("description", VStr ("Event channel for " ++ name));
              ("subscribe",
               obj [ ("operationId", VStr ("subscribe_" ++ name));
                     ("summary", VStr ("Subscribe to " ++ name ++ " events"));
                     ("message",
                      obj [ ("$ref",
                             VStr ("#/components/messages/" ++ message_name)) ]) ]) ] in
      if negb (hashable channel_name) then Raise TypeError
      else
        file <- getitem event "file" ;;
        let message :=
          obj [ ("name", channel_name);
                ("title", VStr (name ++ " Event"));
                ("summary", VStr ("Event produced from " ++ str file));
                ("contentType", VStr "application/json");
                ("payload",
                 obj [ ("$ref",
                        VStr ("#/components/schemas/" ++ name ++ "_payload")) ]) ] in
        events_loop rest
          (dict_set channel_name channel channels)
          (dict_set (VStr message_name) message messages)
          (dict_set (VStr (name ++ "_payload")) schema_placeholder schemas)
  end.

(** [repo.split('/')[-1] if '/' in repo else repo]. *)
Definition repo_name_of (repo : string) : string :=
  if contains_char "/" repo then last (split "/" repo) EmptyString else repo.

Definition _create_specification (repo : string) (events : list value)
  : result value :=
  let repo_name := repo_name_of repo in
  brokers <- _group_events_by_broker events ;;
  servers <- servers_loop brokers [] ;;
  cms <- events_loop events [] [] [] ;;
  Ok (obj [ ("asyncapi", VStr ASYNCAPI_VERSION);
            ("info",
             obj [ ("title", VStr (repo_name ++ " Event API"));
                   ("version", VStr "1.0.0");
                   ("description",
                    VStr ("AsyncAPI specification for event producers in " ++ repo));
                   ("contact",
                    obj [ ("name", VStr "AsyncAPI Discovery Tool");
                          ("url",
                           VStr "https://github.com/ai-digital-architect/asyncapi_discovery") ]) ]);
            ("servers", VDict servers);
            ("channels", VDict (fst (fst cms)));
            ("components",
             obj [ ("messages", VDict (snd (fst cms)));
                   ("schemas", VDict (snd cms)) ]) ]).

End CatalogManager.

(** ** scanner.py: the scan of a local repository *)

Module Scanner.

Definition supported_extensions : list string := [ ".py"; ".js"; ".ts"; ".java"; ".go" ].

Definition skip_patterns : list string :=
  [ "/test/"; "/tests/"; "/__pycache__/"; "/node_modules/";
    "/venv/"; "/.git/"; "/dist/"; "/build/" ].

(** [sub in s] for strings. *)
Fixpoint is_substring (sub s : string) : bool :=
  String.prefix sub s
  || match s with
     | EmptyString => false
     | String _ r => is_substring sub r
     end.

(** [_should_skip], on the text of the path. *)
Definition _should_skip (path_str : string) : bool :=
  existsb (fun pattern => is_substring pattern path_str) skip_patterns.

(** The words of the producer patterns of [_scan_file], in their order; each
    pattern is the word, blanks, an opening parenthesis, blanks, a quote of
    either kind, one or more characters that are no quote (the captured
    group), and a quote of either kind. *)
Definition producer_words : list string := [ "publish"; "send"; "emit"; "produce" ].

(** The class [\s] of a text pattern. *)
Definition is_space (c : ascii) : bool :=
  let n := nat_of_ascii c in
  in_range 9 13 c || in_range 28 32 c || (n =? 133) || (n =? 160).

Fixpoint skip_spaces (s : string) : string :=
  match s with
  | EmptyString => EmptyString
  | String c r => if is_space c then skip_spaces r else s
  end.

(** [s] without the prefix [word], when it starts with it. *)
Fixpoint strip_prefix (word s : string) : option string :=
  match word, s with
  | EmptyString, _ => Some s
  | String a w, String b r => if Ascii.eqb a b then strip_prefix w r else None
  | String _ _, EmptyString => None
  end.

(** The longest run of characters that are no quote, and what follows. *)
Fixpoint text_span (s : string) : string * string :=
  match s with
  | EmptyString => (EmptyString, EmptyString)
  | String c r =>
      if EventDetector.is_quote c then (EmptyString, s)
      else let (t, rest) := text_span r in (String c t, rest)
  end.

(** The pattern of [word] matched at the head of [s]: the captured group
    and the text behind the closing quote.  Every repetition is greedy and
    none can give a character back: what follows a run is outside its
    class. *)
Definition match_call (word s : string) : option (string * string) :=
  match strip_prefix word s with
  | None => None
  | Some r1 =>
      match skip_spaces r1 with
      | String p r2 =>
          if Ascii.eqb p "(" then
            match skip_spaces r2 with
            | String q r3 =>
                if EventDetector.is_quote q then
                  match text_span r3 with
                  | (String c t, String _ after) => Some (String c t, after)
                  | _ => None
                  end
                else None
            | EmptyString => None
            end
          else None
      | EmptyString => None
      end
  end.

(** [re.finditer]: the captured groups of the matches from left to right, a
    match starting behind the one before it. *)
Fixpoint finditer_from (fuel : nat) (word s : string) : list string :=
  match fuel with
  | 0 => []
  | S fuel' =>
      match s with
      | EmptyString => []
      | String _ r =>
          match match_call word s with
          | Some (name, after) => name :: finditer_from fuel' word after
          | None => finditer_from fuel' word r
          end
      end
  end.

Definition finditer (word content : string) : list string :=
  finditer_from (String.length content) word content.

(** [_scan_file]: [content] is what [read_text] returns, [None] when it
    raises a UnicodeDecodeError or an IOError, which the function swallows. *)
Definition _scan_file (file_path : string) (content : option string) : list value :=
  match content with
  | None => []
  | Some text =>
      flat_map (fun word =>
                  map (fun event_name =>
                         obj [ ("name", VStr event_name);
                               ("file", VStr file_path);
                               ("type", VStr "producer") ])
                      (finditer word text))
               producer_words
  end.

(** The state of [scan]: the events and files gathered and the two counters. *)
Record producers : Type := {
  events : list value;
  files : list string;
  total_files_scanned : nat;
  producers_found : nat
}.

(** The inner loop of [scan], over the files found for one extension. *)
Fixpoint scan_files (found : list (string * option string)) (p : producers) : producers :=
  match found with
  | [] => p
  | (file_path, content) :: rest =>
      if _should_skip file_path then scan_files rest p
      else
        let evs := _scan_file file_path content in
        match evs with
        | [] => scan_files rest p
        | _ :: _ =>
            scan_files rest
              {| events := (events p ++ evs)%list;
                 files := (files p ++ [file_path])%list;
                 total_files_scanned := total_files_scanned p;
                 producers_found := producers_found p + length evs |}
        end
  end.

(** The outer loop, over the extensions; [rglob ext] lists the files the
    repository holds for the extension, each with its content. *)
Fixpoint scan_extensions (rglob : string -> list (string * option string))
  (exts : list string) (p : producers) : producers :=
  match exts with
  | [] => p
  | ext :: rest =>
      let found := rglob ext in
      scan_extensions rglob rest
        (scan_files found
           {| events := events p;
              files := files p;
              total_files_scanned := total_files_scanned p + length found;
              producers_found := producers_found p |})
  end.

Definition scan_state (rglob : string -> list (string * option string)) : producers :=
  scan_extensions rglob supported_extensions
    {| events := []; files := []; total_files_scanned := 0; producers_found := 0 |}.

(** [scan]: the dictionary it returns. *)
Definition scan (rglob : string -> list (string * option string)) : value :=
  let p := scan_state rglob in
  obj [ ("events", VList (events p));
        ("files", VList (map VStr (files p)));
        ("statistics",
         obj [ ("total_files_scanned", VInt (Z.of_nat (total_files_scanned p)));
               ("producers_found", VInt (Z.of_nat (producers_found p))) ]) ].

End Scanner.

(** ** discovery.py *)

Module Discovery.

Definition discover (rglob : string -> list (string * option string)) : value :=
  Scanner.scan rglob.

(** [generate_spec]: without producers, discovery runs first. *)
Definition generate_spec (rglob : string -> list (string * option string))
  (given : option value) : result value :=
  match given with
  | None => Generator.generate (discover rglob)
  | Some p => Generator.generate p
  end.

(** [run], up to the document whose YAML text it returns and writes. *)
Definition run (rglob : string -> list (string * option string)) : result value :=
  generate_spec rglob (Some (discover rglob)).

End Discovery.

(** ** catalog_manager.py and main.py: the catalog of a run *)

Module Catalog.

(** [len(v)]. *)
Definition len (v : value) : result nat :=
  match v with
  | VStr s => Ok (String.length s)
  | VList l => Ok (length l)
  | VDict d => Ok (length d)
  | _ => Raise TypeError
  end.

(** The dictionary [self.specifications], keyed by repository name. *)
Fixpoint spec_set (repo : string) (spec : value) (specs : list (string * value))
  : list (string * value) :=
  match specs with
  | [] => [(repo, spec)]
  | (r, s) :: rest =>
      if String.eqb r repo then (r, spec) :: rest else (r, s) :: spec_set repo spec rest
  end.

Definition add_specification (repo : string) (events : list value)
  (specs : list (string * value)) : result (list (string * value)) :=
  spec <- CatalogManager._create_specification repo events ;;
  Ok (spec_set repo spec specs).

(** The name of the file of a repository, in [_save_specification] and in
    the index. *)
Definition spec_filename (repo : string) : string :=
  replace "\" "_" (replace "/" "_" repo) ++ ".json".

(** The entry of a specification in the index. *)
Definition index_entry (repo : string) (spec : value) : result value :=
  info <- getitem spec "info" ;;
  title <- getitem info "title" ;;
  info' <- getitem spec "info" ;;
  version <- getitem info' "version" ;;
  channels <- get spec "channels" (VDict []) ;;
  n <- len channels ;;
  Ok (obj [ ("repository", VStr repo);
            ("title", title);
            ("version", version);
            ("channels", VInt (Z.of_nat n));
            ("file", VStr (spec_filename repo)) ]).

(** [_save_catalog_index], up to the index it writes; [now] is the clock
    reading. *)
Definition _save_catalog_index (now : string) (specs : list (string * value))
  : result value :=
  entries <- mapM (fun rs => index_entry (fst rs) (snd rs)) specs ;;
  Ok (obj [ ("generated_at", VStr (now ++ "Z"));
            ("total_specifications", VInt (Z.of_nat (length specs)));
            ("specifications", VList entries) ]).

(** The loop of [main] over the repositories: a repository with no event
    gets no specification. *)
Fixpoint main_loop (repositories : list string)
  (search_code : string -> string -> list value)
  (specs : list (string * value)) : result (list (string * value)) :=
  match repositories with
  | [] => Ok specs
  | repo :: rest =>
      events <- EventDetector.detect_events repo search_code ;;
      match events with
      | [] => main_loop rest search_code specs
      | _ :: _ =>
          specs' <- add_specification repo events specs ;;
          main_loop rest search_code specs'
      end
  end.

End Catalog.

(** ** src/asyncapi_discovery/catalog_manager.py: the catalog of the 3.0
    specifications *)

Module DiscoveryCatalog.

(** [c.isalnum()] on an ASCII character. *)
Definition isalnum (c : ascii) : bool := is_lower c || is_upper c || is_digit c.

(** [c.isalnum() or c in ('_', '-')]. *)
Definition safe_char (c : ascii) : bool :=
  isalnum c || Ascii.eqb c "_" || Ascii.eqb c "-".

(** [''.join(c for c in s if p(c))]. *)
Fixpoint filter_string (p : ascii -> bool) (s : string) : string :=
  match s with
  | EmptyString => EmptyString
  | String c r => if p c then String c (filter_string p r) else filter_string p r
  end.

(** [str.lower()] on ASCII text. *)
Definition lower (s : string) : string := map_string lower_char s.

(** [_sanitize_filename] on an ASCII name: [isalnum] and [lower] are those
    of ASCII, so what is proved of the function carries the hypothesis that
    the name is ASCII. *)
Definition _sanitize_filename (name : string) : string :=
  let safe := replace " " "_" (replace "\" "_" (replace "/" "_" name)) in
  let safe := filter_string safe_char safe in
  lower safe.

(** The method on a value: [replace] needs a string. *)
Definition sanitize_filename_of (service_name : value) : result string :=
  match service_name with
  | VStr s => Ok (_sanitize_filename s)
  | _ => Raise AttributeError
  end.

(** [list(servers.keys())]. *)
Definition keys_of (servers : value) : result (list value) :=
  match servers with
  | VDict d => Ok (keys d)
  | _ => Raise AttributeError
  end.

(** The entry of one specification in [index['services']]: the four
    sections are read first, then the literal is evaluated in order. *)
Definition service_entry (spec_data : value) : result value :=
  service_name <- getitem spec_data "service" ;;
  spec <- getitem spec_data "spec" ;;
  info <- get spec "info" (VDict []) ;;
  channels <- get spec "channels" (VDict []) ;;
  operations <- get spec "operations" (VDict []) ;;
  servers <- get spec "servers" (VDict []) ;;
  version <- get info "version" (VStr "1.0.0") ;;
  title <- get info "title" (VStr EmptyString) ;;
  channel_count <- Catalog.len channels ;;
  operation_count <- Catalog.len operations ;;
  brokers <- keys_of servers ;;
  yaml_name <- sanitize_filename_of service_name ;;
  json_name <- sanitize_filename_of service_name ;;
  Ok (obj [ ("name", service_name);
            ("version", version);
            ("title", title);
            ("channelCount", VInt (Z.of_nat channel_count));
            ("operationCount", VInt (Z.of_nat operation_count));
            ("brokers", VList brokers);
            ("specFiles",
             obj [ ("yaml", VStr ("specs/" ++ yaml_name ++ ".yaml"));
                   ("json", VStr ("specs/" ++ json_name ++ ".json")) ]) ]).

(** [_save_catalog_index], up to the index it writes; [now] is the clock
    reading. *)
Definition _save_catalog_index (now : string) (specs : list value) : result value :=
  services <- mapM service_entry specs ;;
  Ok (obj [ ("generated", VStr (now ++ "Z"));
            ("totalServices", VInt (Z.of_nat (length specs)));
            ("services", VList services) ]).

(** [counts[k] = counts.get(k, 0) + 1]: the key needs a hash, the value
    under it a sum with 1. *)
Definition count_up (k : value) (counts : list (value * value))
  : result (list (value * value)) :=
  if hashable k then
    match lookup k counts with
    | None => Ok (dict_set k (VInt 1) counts)
    | Some (VInt n) => Ok (dict_set k (VInt (n + 1)) counts)
    | Some (VBool b) => Ok (dict_set k (VInt ((if b then 1 else 0) + 1)) counts)
    | Some _ => Raise TypeError
    end
  else Raise TypeError.

(** [s.add(x)] on a set held as the list of its elements. *)
Definition set_add (x : value) (s : list value) : list value :=
  if existsb (fun y => py_eqb y x) s then s else (s ++ [x])%list.

(** The three accumulators of [generate_report]. *)
Record tally : Type := {
  brokers : list (value * value);
  frameworks : list (value * value);
  repositories : list value
}.

(** The loop of [generate_report] over the events. *)
Fixpoint tally_loop (events : list value) (t : tally) : result tally :=
  match events with
  | [] => Ok t
  | event :: rest =>
      broker <- get event "broker" (VStr "unknown") ;;
      framework <- get event "framework" (VStr "unknown") ;;
      repo <- get event "repository" (VStr EmptyString) ;;
      brokers' <- count_up broker (brokers t) ;;
      frameworks' <- count_up framework (frameworks t) ;;
      repositories' <- (if truthy repo
                        then if hashable repo then Ok (set_add repo (repositories t))
                             else Raise TypeError
                        else Ok (repositories t)) ;;
      tally_loop rest {| brokers := brokers';
                         frameworks := frameworks';
                         repositories := repositories' |}
  end.

(** The integer a number or a boolean compares as. *)
Definition int_of (v : value) : Z :=
  match v with
  | VInt n => n
  | VBool true => 1%Z
  | _ => 0%Z
  end.

(** [a < b] on values with a hash: strings by code points, numbers and
    booleans as integers; [None] and values of two kinds have no order. *)
Definition lt (a b : value) : result bool :=
  match a, b with
  | VStr x, VStr y => Ok (String.ltb x y)
  | (VInt _ | VBool _), (VInt _ | VBool _) => Ok (Z.ltb (int_of a) (int_of b))
  | _, _ => Raise TypeError
  end.

(** [sorted] on values with a hash: the stable sort by [<], which raises
    when an element meets one it has no order with. *)
Fixpoint insert (x : value) (l : list value) : result (list value) :=
  match l with
  | [] => Ok [x]
  | y :: r =>
      b <- lt y x ;;
      if b then (r' <- insert x r ;; Ok (y :: r')) else Ok (x :: l)
  end.

Fixpoint sorted (l : list value) : result (list value) :=
  match l with
  | [] => Ok []
  | x :: r => s <- sorted r ;; insert x s
  end.

(** [_save_text_summary], up to what can raise: the items of the two count
    dictionaries are sorted, and items under distinct keys compare by key. *)
Definition _save_text_summary (brokers frameworks : list (value * value))
  : result unit :=
  _ <- sorted (keys brokers) ;;
  _ <- sorted (keys frameworks) ;;
  Ok tt.

(** [generate_report], up to the report it returns; [output_directory] is
    the absolute path of the catalog. *)
Definition generate_report (rt : runtime) (output_directory : string)
  (events specs : list value) : result value :=
  t <- tally_loop events {| brokers := []; frameworks := []; repositories := [] |} ;;
  repos <- sorted (set_order rt (repositories t)) ;;
  let report :=
    obj [ ("timestamp", VStr (utcnow_isoformat rt ++ "Z"));
          ("summary",
           obj [ ("total_events", VInt (Z.of_nat (length events)));
                 ("total_services", VInt (Z.of_nat (length specs)));
                 ("total_repositories", VInt (Z.of_nat (length (repositories t)))) ]);
          ("brokers", VDict (brokers t));
          ("frameworks", VDict (frameworks t));
          ("repositories", VList repos);
          ("output_directory", VStr output_directory) ] in
  _ <- _save_text_summary (brokers t) (frameworks t) ;;
  Ok report.

End DiscoveryCatalog.

(** * Vocabulary of the specification *)

Import EventDetector.

(** ** Event records and their deduplication key *)

(** The key [(name, broker)] of an event record of the data model, whose
    name and broker are strings. *)
Definition event_key (e : value) : option (string * string) :=
  match getitem e "name", getitem e "broker" with
  | Ok (VStr n), Ok (VStr b) => Some (n, b)
  | _, _ => None
  end.

Definition is_event_record (e : value) : Prop := event_key e <> None.

Definition pair_eqb (k1 k2 : string * string) : bool :=
  String.eqb (fst k1) (fst k2) && String.eqb (snd k1) (snd k2).

Definition okey_eqb (k1 k2 : option (string * string)) : bool :=
  match k1, k2 with
  | Some a, Some b => pair_eqb a b
  | None, None => true
  | _, _ => false
  end.

(** The record [e] has key [k]. *)
Definition has_key (k : string * string) (e : value) : bool :=
  okey_eqb (event_key e) (Some k).

(** First-seen order, in the words of the data model: a key stays where it
    first occurs and its later occurrences go. *)
Fixpoint first_seen (ks : list (option (string * string)))
  : list (option (string * string)) :=
  match ks with
  | [] => []
  | k :: r => k :: filter (fun k' => negb (okey_eqb k k')) (first_seen r)
  end.

(** The records the loop keeps when the keys [seen] have been met. *)
Fixpoint keep_first (seen : list (string * string)) (events : list value) : list value :=
  match events with
  | [] => []
  | e :: r =>
      match event_key e with
      | Some k =>
          if existsb (pair_eqb k) seen then keep_first seen r
          else e :: keep_first (k :: seen) r
      | None => []
      end
  end.

Definition vkey (k : string * string) : value * value := (VStr (fst k), VStr (snd k)).

(** ** Sample data *)

Definition record (name broker file : string) (line : Z) : value :=
  obj [ ("name", VStr name);
        ("broker", VStr broker);
        ("file", VStr file);
        ("repository", VStr "example/orders");
        ("lines", VList [VInt line]);
        ("source_code", VList [VStr ("emit('" ++ name ++ "')")]) ].

Definition sample_events : list value :=
  [ record "user.created" "generic" "a.py" 3;
    record "user.created" "kafka" "b.py" 7;
    record "user.created" "generic" "c.py" 9;
    record "order.placed" "kafka" "d.py" 1 ].

(** ** Quoted literals *)

(** Every character of [s] is of the class [a-zA-Z0-9._-]. *)
Fixpoint all_name (s : string) : bool :=
  match s with
  | EmptyString => true
  | String c r => is_name_char c && all_name r
  end.

(** No character of [s] is a quote. *)
Fixpoint no_quote (s : string) : bool :=
  match s with
  | EmptyString => true
  | String c r => negb (is_quote c) && no_quote r
  end.

(** The line match [lm] carries the text [line]. *)
Definition line_of (lm : value) (line : string) : Prop :=
  get lm "line" (VStr EmptyString) = Ok (VStr line).

(** A quoted literal of [line]: the token [tok], one or more characters of
    [a-zA-Z0-9._-], stands between two quotes, behind [pre] and in front of
    [post]. *)
Definition quoted_at (line pre tok post : string) : Prop :=
  exists q1 q2,
    line = (pre ++ String q1 (tok ++ String q2 post))%string
    /\ is_quote q1 = true /\ is_quote q2 = true
    /\ all_name tok = true /\ tok <> EmptyString.

(** A qualifying literal: longer than two characters, with no underscore in
    front. *)
Definition qualifying (s : string) : Prop :=
  2 < String.length s /\ forall r, s <> String "_" r.

(** The scan of a line from left to right: the literal whose opening quote
    comes first, then the scan of what stands behind its closing quote; so a
    quote that closes a literal opens none. *)
Inductive scanned : string -> list string -> Prop :=
| scanned_nil line :
    (forall pre tok post, ~ quoted_at line pre tok post) -> scanned line []
| scanned_cons line pre tok post toks :
    quoted_at line pre tok post ->
    (forall pre' tok' post',
        quoted_at line pre' tok' post' -> String.length pre <= String.length pre') ->
    scanned post toks ->
    scanned line (tok :: toks).

(** The token [tok] between the quotes [q1] and [q2], behind the text
    [pre]: the scan reaches its opening quote, and the token is a candidate. *)
Definition reached (pre : string) (q1 : ascii) (tok : string) (q2 : ascii)
  (post : string) : Prop :=
  findall (pre ++ String q1 (tok ++ String q2 post))
  = (findall pre ++ tok :: findall post)%list.

(** The opening quote of the token is the closing quote of the candidate
    [tok'] in front of it, and the scan goes on behind that quote. *)
Definition shared (pre : string) (q1 : ascii) (tok : string) (q2 : ascii)
  (post : string) : Prop :=
  exists pre' q0 tok',
    pre = (pre' ++ String q0 tok')%string
    /\ is_quote q0 = true /\ all_name tok' = true /\ tok' <> EmptyString
    /\ findall (pre ++ String q1 (tok ++ String q2 post))
       = (findall pre' ++ tok' :: findall (String q2 post))%list.

Definition line_match (number : Z) (line : string) : value :=
  obj [ ("lineNumber", VInt number); ("line", VStr line) ].

Definition sample_line_matches : list value :=
  [ line_match 41 "// publish the order";
    line_match 42 ("bus.emit('ab', '_tmp', " ++ dq ++ "user.created" ++ dq ++ ", 'later.one')") ].

Definition sample_lines : list string :=
  [ "// publish the order";
    "bus.emit('ab', '_tmp', " ++ dq ++ "user.created" ++ dq ++ ", 'later.one')" ].

(** ** Matches *)

Definition is_dict (v : value) : bool :=
  match v with
  | VDict _ => true
  | _ => false
  end.

Definition is_str (v : value) : bool :=
  match v with
  | VStr _ => true
  | _ => false
  end.

(** The entry [k] of a dictionary, [default] when it has none. *)
Definition entry (k : string) (default : value) (d : list (value * value)) : value :=
  match lookup (VStr k) d with
  | Some x => x
  | None => default
  end.

(** Line matches one of whose lines is read and is no string: the lines
    are read in order, up to the first that holds a qualifying literal. *)
Inductive unreadable : list value -> Prop :=
| unreadable_line d rest :
    is_str (entry "line" (VStr EmptyString) d) = false ->
    unreadable (VDict d :: rest)
| unreadable_later d line toks rest :
    entry "line" (VStr EmptyString) d = VStr line ->
    scanned line toks ->
    Forall (fun tok => ~ qualifying tok) toks ->
    unreadable rest ->
    unreadable (VDict d :: rest).

(** The matches that yield no record, by their shape: the match is no
    object; its [file] or its [repository] is there and is no object; its
    [lineMatches] is missing or empty, or is no sequence, or holds an
    element that is no object, or a line that is read and is no string. *)
Inductive skipped : value -> Prop :=
| skipped_no_object m :
    is_dict m = false -> skipped m
| skipped_file d :
    is_dict (entry "file" (VDict []) d) = false -> skipped (VDict d)
| skipped_repository d :
    is_dict (entry "repository" (VDict []) d) = false -> skipped (VDict d)
| skipped_no_lines d :
    truthy (entry "lineMatches" (VList []) d) = false -> skipped (VDict d)
| skipped_no_sequence d e :
    iter (entry "lineMatches" (VList []) d) = Raise e -> skipped (VDict d)
| skipped_element d lms lm :
    iter (entry "lineMatches" (VList []) d) = Ok lms ->
    In lm lms -> is_dict lm = false -> skipped (VDict d)
| skipped_line d lms :
    iter (entry "lineMatches" (VList []) d) = Ok lms ->
    unreadable lms -> skipped (VDict d).

(** The number and the text a line match contributes to a record. *)
Definition line_number (lm : value) : value :=
  match lm with
  | VDict d => entry "lineNumber" (VInt 0) d
  | _ => VNone
  end.

Definition line_text (lm : value) : value :=
  match lm with
  | VDict d => entry "line" (VStr EmptyString) d
  | _ => VNone
  end.

(** A line match that is an object with a string for its line, or none. *)
Definition readable (lm : value) : Prop :=
  exists d, lm = VDict d /\ is_str (entry "line" (VStr EmptyString) d) = true.

(** The searches of a detection, in the order they are made: each pattern
    with its broker type. *)
Definition queries : list (string * string) :=
  flat_map (fun bp : string * list string => map (fun pattern => (fst bp, pattern)) (snd bp))
           patterns.

(** What the loop of [detect_events] gets from one search: the elements of
    the value the client returns. *)
Definition answer (search_code : string -> string -> result value) (repo query : string)
  : result (list value) :=
  results <- search_code query repo ;;
  iter results.

(** The searches [qs] made one after the other, as the two loops of
    [detect_events] make them. *)
Fixpoint search_loop (search_code : string -> string -> result value) (repo : string)
  (qs : list (string * string)) (events : list value) : result (list value) :=
  match qs with
  | [] => Ok events
  | (broker_type, pattern) :: rest =>
      matches <- answer search_code repo pattern ;;
      search_loop search_code repo rest (events ++ parse_results matches broker_type)%list
  end.

(** The search for [query] returns, and what it returns can be iterated. *)
Definition answered (search_code : string -> string -> result value) (repo query : string)
  : Prop :=
  exists matches, answer search_code repo query = Ok matches.

(** The matches of a search, none when it fails. *)
Definition matches_of (search_code : string -> string -> result value) (repo query : string)
  : list value :=
  match answer search_code repo query with
  | Ok matches => matches
  | Raise _ => []
  end.

(** A client that answers every search with a list. *)
Definition answers_lists (search_code : string -> string -> list value)
  : string -> string -> result value :=
  fun query repo => Ok (VList (search_code query repo)).

(** A match with nothing but an empty line match, and the record it gives. *)
Definition bare_match : value :=
  obj [ ("lineMatches", VList [ obj [] ]) ].

Definition bare_record (broker_type : string) : value :=
  obj [ ("name", VStr (broker_type ++ "_event"));
        ("broker", VStr broker_type);
        ("file", VStr EmptyString);
        ("repository", VStr EmptyString);
        ("lines", VList [VInt 0]);
        ("source_code", VList [VStr EmptyString]) ].

(** A client that finds the bare match under the first kafka pattern, and
    one whose searches raise. *)
Definition bare_search : string -> string -> list value :=
  fun query _ => if String.eqb query "KafkaProducer" then [bare_match] else [].

Definition failing_search : string -> string -> result value :=
  fun _ _ => Raise AttributeError.

(** The client [search_code], answering [results] to one query. *)
Definition answering (search_code : string -> string -> list value)
  (query repo : string) (results : list value) : string -> string -> list value :=
  fun q r => if String.eqb q query && String.eqb r repo then results else search_code q r.

Definition sample_match (path : string) (number : Z) (line : string) : value :=
  obj [ ("file", obj [ ("path", VStr path) ]);
        ("repository", obj [ ("name", VStr "example/orders") ]);
        ("lineMatches", VList [line_match number line]) ].

(** A match whose [file] field is a string instead of an object. *)
Definition misshapen_match : value :=
  obj [ ("file", VStr "src/app.py");
        ("lineMatches", VList [line_match 3 "bus.emit('user.created')"]) ].

(** ** Documents *)

(** The entries of the section [name] of a document. *)
Definition section (name : string) (doc : value) : list (value * value) :=
  match get doc name (VDict []) with
  | Ok (VDict d) => d
  | _ => []
  end.

(** The field [name] of a dictionary, [None] when absent. *)
Definition field (name : string) (v : value) : value :=
  match get v name VNone with
  | Ok x => x
  | Raise _ => VNone
  end.

(** The protocol of each server entry. *)
Definition protocols (servers : list (value * value)) : list (value * value) :=
  map (fun kv => (fst kv, field "protocol" (snd kv))) servers.

(** The identifiers of the message and schema components. *)
Definition message_ids (doc : value) : list value :=
  keys (section "messages" (field "components" doc)).

Definition schema_ids (doc : value) : list value :=
  keys (section "schemas" (field "components" doc)).

(** The repositories listed in the info block. *)
Definition repositories (doc : value) : value :=
  field "repositories" (field "x-generated" (field "info" doc)).

(** A document with the entry [name] of a dictionary rewritten by [f]. *)
Definition update_field (name : string) (f : value -> value) (v : value) : value :=
  match v with
  | VDict d =>
      VDict (map (fun kv => if py_eqb (fst kv) (VStr name)
                            then (fst kv, f (snd kv)) else kv) d)
  | _ => v
  end.

Definition delete_field (name : string) (v : value) : value :=
  match v with
  | VDict d => VDict (filter (fun kv => negb (py_eqb (fst kv) (VStr name))) d)
  | _ => v
  end.

(** A document without its generation timestamp. *)
Definition without_timestamp (doc : value) : value :=
  update_field "info" (update_field "x-generated" (delete_field "timestamp")) doc.

(** Two runs of the interpreter that iterate a set in opposite orders. *)
Definition run_forward (now : string) : runtime :=
  {| utcnow_isoformat := now;
     set_order := fun l => l;
     set_order_perm := fun l => Permutation_refl l |}.

Definition run_backward (now : string) : runtime :=
  {| utcnow_isoformat := now;
     set_order := fun l => rev l;
     set_order_perm := fun l => Permutation_sym (Permutation_rev l) |}.

(** ** The scenario of the two matches *)

Definition rabbitmq_line : string :=
  "channel.basic_publish(exchange=" ++ dq ++ "orders" ++ dq
  ++ ", routing_key=" ++ dq ++ "order.placed" ++ dq ++ ", ...)".

Definition kafka_line : string :=
  "kafkaTemplate.send(" ++ dq ++ "payment.processed" ++ dq ++ ", ...)".

Definition rabbitmq_match : value :=
  obj [ ("file", obj [ ("path", VStr "orders/publisher.py") ]);
        ("repository", obj [ ("name", VStr "example/shop") ]);
        ("lineMatches", VList [line_match 12 rabbitmq_line]) ].

Definition kafka_match : value :=
  obj [ ("file", obj [ ("path", VStr "payments/Publisher.java") ]);
        ("repository", obj [ ("name", VStr "example/shop") ]);
        ("lineMatches", VList [line_match 30 kafka_line]) ].

(** The client that finds the first match under the rabbitmq pattern
    [channel\.basic_publish] and the second under the kafka pattern
    [\.send\s*\(], and nothing else. *)
Definition scenario_search : string -> string -> list value :=
  fun query _ =>
    if String.eqb query "channel\.basic_publish" then [rabbitmq_match]
    else if String.eqb query "\.send\s*\(" then [kafka_match]
    else [].

(** The two records as the scenario words them, with the provenance the
    parser gives them. *)
Definition claimed_records : list value :=
  [ obj [ ("name", VStr "order.placed");
          ("broker", VStr "rabbitmq");
          ("file", VStr "orders/publisher.py");
          ("repository", VStr "example/shop");
          ("lines", VList [VInt 12]);
          ("source_code", VList [VStr rabbitmq_line]) ];
    obj [ ("name", VStr "payment.processed");
          ("broker", VStr "kafka");
          ("file", VStr "payments/Publisher.java");
          ("repository", VStr "example/shop");
          ("lines", VList [VInt 30]);
          ("source_code", VList [VStr kafka_line]) ] ].

(** The same two events in the shape the 3.0 generator reads. *)
Definition channel_records : list value :=
  [ obj [ ("channel_name", VStr "order.placed"); ("broker", VStr "rabbitmq") ];
    obj [ ("channel_name", VStr "payment.processed"); ("broker", VStr "kafka") ] ].

(** What detection returns on the scenario. *)
Definition detected_records : list value :=
  [ obj [ ("name", VStr "payment.processed");
          ("broker", VStr "kafka");
          ("file", VStr "payments/Publisher.java");
          ("repository", VStr "example/shop");
          ("lines", VList [VInt 30]);
          ("source_code", VList [VStr kafka_line]) ];
    obj [ ("name", VStr "orders");
          ("broker", VStr "rabbitmq");
          ("file", VStr "orders/publisher.py");
          ("repository", VStr "example/shop");
          ("lines", VList [VInt 12]);
          ("source_code", VList [VStr rabbitmq_line]) ] ].

(** ** Events for the generators *)

(** Two equal events and a third one on the same channel. *)
Definition order_placed_event : value :=
  obj [ ("channel_name", VStr "orders"); ("message_type", VStr "OrderPlaced") ].

Definition order_shipped_event : value :=
  obj [ ("channel_name", VStr "orders"); ("message_type", VStr "OrderShipped") ].

(** Two events of two repositories. *)
Definition two_repository_events : list value :=
  [ obj [ ("channel_name", VStr "orders"); ("repository", VStr "example/orders") ];
    obj [ ("channel_name", VStr "billing"); ("repository", VStr "example/billing") ] ].

(** A document without the list of repositories of its info block. *)
Definition without_repositories (doc : value) : value :=
  update_field "info" (update_field "x-generated" (delete_field "repositories")) doc.

(** An event the simple generator can key a channel by: its name, or the
    default when it has none, has a hash. *)
Definition named (e : value) : Prop :=
  exists n, get e "name" (VStr "unknown") = Ok n /\ hashable n = true.

(** A record without the field [name]. *)
Definition lacks_name (e : value) : Prop :=
  exists d, e = VDict d /\ lookup (VStr "name") d = None.

(** The name a channel of the simple generator gives its message. *)
Definition message_name (channel : value) : value :=
  field "name" (field "message" (field "subscribe" channel)).

(** ** Further vocabulary *)

(** The line match [lm] carries the number [n], the text [t]. *)
Definition number_of (lm n : value) : Prop := get lm "lineNumber" (VInt 0) = Ok n.
Definition text_of (lm t : value) : Prop := get lm "line" (VStr EmptyString) = Ok t.

Definition sample_scan : string -> string -> list value :=
  fun query _ =>
    if String.eqb query "\.emit\s*\(" then
      [ sample_match "a.py" 3 "bus.emit('user.created')";
        misshapen_match;
        sample_match "c.py" 9 "bus.emit('user.created')" ]
    else if String.eqb query "KafkaProducer" then
      [ sample_match "k.py" 1 "KafkaProducer(topic='user.created')" ]
    else [].

(** A record as the parser builds it, as far as the catalog manager reads
    it: a string name, a string broker and a file. *)
Definition detector_record (e : value) : Prop :=
  exists n b f,
    getitem e "name" = Ok (VStr n)
    /\ get e "broker" (VStr "generic") = Ok (VStr b)
    /\ getitem e "file" = Ok f.

(** An event without the field [channel_name]. *)
Definition lacks_channel_name (e : value) : Prop :=
  exists d, e = VDict d /\ lookup (VStr "channel_name") d = None.

(** ** The local scan *)

(** The events a file contributes to the scan. *)
Definition scanned_event (file_path event_name : string) : value :=
  obj [ ("name", VStr event_name); ("file", VStr file_path); ("type", VStr "producer") ].

(** The number of occurrences of a character. *)
Fixpoint count_char (a : ascii) (s : string) : nat :=
  match s with
  | EmptyString => 0
  | String c r => (if Ascii.eqb c a then 1 else 0) + count_char a r
  end.

(** The names of the directories the scanner means to skip. *)
Definition skipped_directories : list string :=
  [ "test"; "tests"; "__pycache__"; "node_modules"; "venv"; ".git"; "dist"; "build" ].

Definition sample_repository : string -> list (string * option string) :=
  fun ext =>
    if String.eqb ext ".py" then
      [ ("src/users.py", Some "bus.publish('user.created', u); send('mail.queued')");
        ("/repo/tests/test_users.py", Some "publish('user.created')");
        ("src/broken.py", None);
        ("src/empty.py", Some "pass") ]
    else if String.eqb ext ".js" then
      [ ("web/orders.js", Some "emit('order.placed')") ]
    else [].

(** An event whose name, or the default when it has none, is a string. *)
Definition str_named (e : value) : Prop :=
  exists s, get e "name" (VStr "unknown") = Ok (VStr s).

Definition sample_producers : list value :=
  [ scanned_event "a.py" "user.created";
    obj [ ("file", VStr "b.py") ];
    scanned_event "c.py" "user.created";
    obj [ ("file", VStr "d.py"); ("type", VStr "producer") ] ].

(** ** The catalog *)

(** The index entry of the specification [spec] of [repo]. *)
Definition index_entry_of (repo : string) (spec : value) : value :=
  obj [ ("repository", VStr repo);
        ("title", VStr (CatalogManager.repo_name_of repo ++ " Event API"));
        ("version", VStr "1.0.0");
        ("channels", VInt (Z.of_nat (length (section "channels" spec))));
        ("file", VStr (Catalog.spec_filename repo)) ].

(** ** Events of the 3.0 generator *)

(** The size of a value, for induction through lists and dictionaries. *)
Fixpoint vsize (v : value) : nat :=
  match v with
  | VList l => S (list_sum (map vsize l))
  | VDict d => S (list_sum (map (fun kv => vsize (fst kv) + vsize (snd kv)) d))
  | _ => 1
  end.

(** An event the 3.0 generator reads without raising: a dictionary with a
    string [channel_name], a string or no [broker], a string or no
    [operation], and a [repository] with a hash or none. *)
Definition well_formed_event (e : value) : Prop :=
  (exists s, get e "channel_name" VNone = Ok (VStr s))
  /\ (exists b, get e "broker" (VStr "unknown") = Ok (VStr b))
  /\ (exists o, get e "operation" (VStr "send") = Ok (VStr o))
  /\ (exists r, get e "repository" (VStr EmptyString) = Ok r /\ hashable r = true).

(** The identifier of the message of position [idx] in a channel. *)
Definition message_id (channel_id : string) (idx : nat) : value :=
  VStr (channel_id ++ "_message_" ++ str_of_nat idx).

Definition sample_channel_events : list value :=
  [ obj [ ("channel_name", VStr "orders/placed"); ("broker", VStr "rabbitmq");
          ("repository", VStr "example/orders"); ("message_type", VStr "OrderPlaced") ];
    obj [ ("channel_name", VStr "billing.paid"); ("broker", VStr "kafka");
          ("operation", VStr "receive"); ("repository", VStr "example/billing") ];
    obj [ ("channel_name", VStr "orders/placed"); ("broker", VStr "rabbitmq");
          ("repository", VStr "example/orders"); ("message_type", VStr "OrderShipped") ] ].

(** ** The catalog of the 3.0 specifications *)

Fixpoint all_chars (p : ascii -> bool) (s : string) : bool :=
  match s with
  | EmptyString => true
  | String c r => p c && all_chars p r
  end.

(** A code point of ASCII; text of ASCII. *)
Definition is_ascii_char (c : ascii) : bool := nat_of_ascii c <? 128.
Definition is_ascii (s : string) : bool := all_chars is_ascii_char s.

(** The characters of a sanitized file name: [a-z0-9_-]. *)
Definition file_char (c : ascii) : bool :=
  is_lower c || is_digit c || Ascii.eqb c "_" || Ascii.eqb c "-".

(** An element of the list handed to [save_catalog]: a service name of
    ASCII, on which the model of [_sanitize_filename] is that of the source,
    and the document the 3.0 generator returned for some events. *)
Definition generated_spec_data (spec_data : value) : Prop :=
  exists service spec rt service_name events version_,
    getitem spec_data "service" = Ok (VStr service)
    /\ is_ascii service = true
    /\ getitem spec_data "spec" = Ok spec
    /\ AsynapiGenerator.generate_spec rt service_name events version_ = Ok spec.

(** The index entry of the specification [spec] of the service [service]. *)
Definition service_entry_of (spec_data : value) : value :=
  obj [ ("name", field "service" spec_data);
        ("version", field "version" (field "info" (field "spec" spec_data)));
        ("title", field "title" (field "info" (field "spec" spec_data)));
        ("channelCount",
         VInt (Z.of_nat (length (section "channels" (field "spec" spec_data)))));
        ("operationCount",
         VInt (Z.of_nat (length (section "operations" (field "spec" spec_data)))));
        ("brokers", VList (keys (section "servers" (field "spec" spec_data))));
        ("specFiles",
         obj [ ("yaml",
                VStr ("specs/"
                      ++ DiscoveryCatalog._sanitize_filename (str (field "service" spec_data))
                      ++ ".yaml"));
               ("json",
                VStr ("specs/"
                      ++ DiscoveryCatalog._sanitize_filename (str (field "service" spec_data))
                      ++ ".json")) ]) ].

(** The elements of [save_catalog] for the sample events under two names. *)
Definition sample_spec_data (rt : runtime) : list value :=
  map (fun service =>
         obj [ ("service", VStr service);
               ("spec",
                match AsynapiGenerator.generate_spec rt service sample_channel_events "1.0.0"
                with
                | Ok spec => spec
                | Raise _ => VNone
                end) ])
      [ "Order Service"; "order/service" ].

(** What [_sanitize_filename] makes of one character. *)
Definition sanitized_char (c : ascii) : string :=
  DiscoveryCatalog._sanitize_filename (chr c).

(** ** The discovery report *)

(** The sum of the counts of a count dictionary. *)
Definition total_count (counts : list (value * value)) : Z :=
  fold_right (fun kv acc => (DiscoveryCatalog.int_of (snd kv) + acc)%Z) 0%Z counts.

(** Strings in strictly ascending order of their code points. *)
Fixpoint ascending (l : list string) : bool :=
  match l with
  | [] => true
  | a :: r => match r with
              | [] => true
              | b :: _ => String.ltb a b && ascending r
              end
  end.

(** The stable sort of strings by [<]. *)
Fixpoint insert_string (x : string) (l : list string) : list string :=
  match l with
  | [] => [x]
  | y :: r => if String.ltb y x then y :: insert_string x r else x :: l
  end.

Fixpoint sort_strings (l : list string) : list string :=
  match l with
  | [] => []
  | x :: r => insert_string x (sort_strings r)
  end.

(** An event the report reads without raising: a dictionary whose [broker],
    [framework] and [repository], where it has them, are strings. *)
Definition report_event (e : value) : Prop :=
  exists b f r,
    get e "broker" (VStr "unknown") = Ok (VStr b)
    /\ get e "framework" (VStr "unknown") = Ok (VStr f)
    /\ get e "repository" (VStr EmptyString) = Ok (VStr r).

(** The event [e] names the repository [r]. *)
Definition names_repository (e : value) (r : string) : Prop :=
  r <> EmptyString /\ get e "repository" (VStr EmptyString) = Ok (VStr r).

(** The counts of a count dictionary are integers; its keys are strings. *)
Definition int_counts (counts : list (value * value)) : Prop :=
  Forall (fun kv => exists n, snd kv = VInt n) counts.

Definition string_keys (counts : list (value * value)) : Prop :=
  exists ks, keys counts = map VStr ks.

(** What a call returned, [None] standing for a raise. *)
Definition returned (r : result value) : value :=
  match r with
  | Ok v => v
  | Raise _ => VNone
  end.

Definition sample_report_events : list value :=
  [ obj [ ("broker", VStr "kafka"); ("framework", VStr "spring-kafka");
          ("repository", VStr "example/orders") ];
    obj [ ("broker", VStr "rabbitmq"); ("repository", VStr "example/billing") ];
    obj [ ("broker", VStr "kafka"); ("repository", VStr EmptyString) ];
    obj [ ("framework", VStr "spring-kafka"); ("repository", VStr "example/orders") ];
    obj [ ("repository", VStr "example/audit") ] ].

(** * Properties *)

(** ** Deduplication *)

Lemma pair_eqb_eq k1 k2 : pair_eqb k1 k2 = true <-> k1 = k2.
Proof.
  destruct k1 as [a b], k2 as [c d]; unfold pair_eqb; simpl.
  rewrite andb_true_iff, !String.eqb_eq. split.
  - intros [-> ->]; reflexivity.
  - intros H; inversion H; auto.
Qed.

Lemma pair_eqb_refl k : pair_eqb k k = true.
Proof. apply pair_eqb_eq; reflexivity. Qed.

Lemma okey_eqb_eq k1 k2 : okey_eqb k1 k2 = true <-> k1 = k2.
Proof.
  destruct k1, k2; simpl; try rewrite pair_eqb_eq; split; intros H;
    try discriminate; try congruence.
Qed.

Lemma existsb_pair_In k seen : existsb (pair_eqb k) seen = true <-> In k seen.
Proof.
  rewrite existsb_exists. split.
  - intros [x [Hin Heq]]. apply pair_eqb_eq in Heq. subst; assumption.
  - intros Hin. exists k. split; [assumption | apply pair_eqb_refl].
Qed.

Lemma seen_mem_vkey k seen :
  seen_mem (vkey k) (map vkey seen) = existsb (pair_eqb k) seen.
Proof.
  unfold seen_mem. induction seen as [| k' r IH]; simpl; [reflexivity |].
  rewrite IH. reflexivity.
Qed.

Lemma event_key_getitem e n b :
  event_key e = Some (n, b) ->
  getitem e "name" = Ok (VStr n) /\ getitem e "broker" = Ok (VStr b).
Proof.
  unfold event_key.
  destruct (getitem e "name") as [[| | |s| |]|]; try discriminate.
  destruct (getitem e "broker") as [[| | |s'| |]|]; try discriminate.
  intros H; inversion H; subst; auto.
Qed.

(** The loop computes [keep_first], and never raises on event records. *)
Lemma dedup_loop_keep_first events :
  Forall is_event_record events ->
  forall seen acc,
    dedup_loop events (map vkey seen) acc = Ok (acc ++ keep_first seen events)%list.
Proof.
  induction 1 as [| e r He Hr IH]; intros seen acc; simpl.
  - rewrite app_nil_r. reflexivity.
  - unfold is_event_record in He.
    destruct (event_key e) as [[n b]|] eqn:Hk; [| congruence].
    destruct (event_key_getitem _ _ _ Hk) as [Hn Hb].
    rewrite Hn, Hb. simpl.
    change (VStr n, VStr b) with (vkey (n, b)).
    rewrite seen_mem_vkey.
    destruct (existsb (pair_eqb (n, b)) seen).
    + apply IH.
    + change (vkey (n, b) :: map vkey seen) with (map vkey ((n, b) :: seen)).
      rewrite IH, <- app_assoc. reflexivity.
Qed.

Lemma dedup_keep_first events :
  Forall is_event_record events ->
  _deduplicate_events events = Ok (keep_first [] events).
Proof.
  intros H. unfold _deduplicate_events.
  apply (dedup_loop_keep_first events H [] []).
Qed.

Lemma filter_filter_andb {A} (f g : A -> bool) (l : list A) :
  filter f (filter g l) = filter (fun x => g x && f x) l.
Proof.
  induction l as [| x r IH]; simpl; [reflexivity |].
  destruct (g x); simpl; [destruct (f x) |]; rewrite <- IH; reflexivity.
Qed.

Lemma first_seen_In k ks : In k (first_seen ks) <-> In k ks.
Proof.
  induction ks as [| a r IH]; simpl; [tauto |].
  rewrite filter_In, IH. split.
  - intros [H | [H _]]; auto.
  - intros [H | H]; auto.
    destruct (okey_eqb a k) eqn:E.
    + apply okey_eqb_eq in E. auto.
    + right. split; auto.
Qed.

Lemma NoDup_filter {A} (f : A -> bool) (l : list A) : NoDup l -> NoDup (filter f l).
Proof.
  induction 1 as [| x r Hx Hr IH]; simpl; [constructor |].
  destruct (f x); [constructor |]; auto.
  rewrite filter_In. tauto.
Qed.

Lemma first_seen_NoDup ks : NoDup (first_seen ks).
Proof.
  induction ks as [| a r IH]; simpl; constructor.
  - rewrite filter_In. intros [_ H].
    assert (okey_eqb a a = true) as E by (apply okey_eqb_eq; reflexivity).
    rewrite E in H. discriminate.
  - apply NoDup_filter, IH.
Qed.

(** Outside the keys already seen, the keys kept are the first-seen keys. *)
Lemma keep_first_keys events :
  Forall is_event_record events ->
  forall seen,
    map event_key (keep_first seen events)
    = filter (fun ok => match ok with
                        | Some k => negb (existsb (pair_eqb k) seen)
                        | None => true
                        end)
             (first_seen (map event_key events)).
Proof.
  induction 1 as [| e r He Hr IH]; intros seen; simpl; [reflexivity |].
  unfold is_event_record in He.
  destruct (event_key e) as [k|] eqn:Hk; [| congruence].
  rewrite filter_filter_andb.
  destruct (existsb (pair_eqb k) seen) eqn:Hs; simpl.
  - rewrite IH. apply filter_ext_in. intros [k'|] _; simpl; [| reflexivity].
    destruct (pair_eqb k k') eqn:E; simpl; [| reflexivity].
    apply pair_eqb_eq in E. subst. rewrite Hs. reflexivity.
  - rewrite Hk. f_equal. rewrite IH. apply filter_ext_in.
    intros [k'|] _; simpl; [| reflexivity].
    rewrite negb_orb. f_equal. f_equal.
    destruct (pair_eqb k' k) eqn:E1, (pair_eqb k k') eqn:E2; try reflexivity.
    + apply pair_eqb_eq in E1. subst. rewrite pair_eqb_refl in E2. discriminate.
    + apply pair_eqb_eq in E2. subst. rewrite pair_eqb_refl in E1. discriminate.
Qed.

Lemma keep_first_incl events seen e : In e (keep_first seen events) -> In e events.
Proof.
  revert seen. induction events as [| a r IH]; intros seen; simpl; [tauto |].
  destruct (event_key a) as [k|]; [| simpl; tauto].
  destruct (existsb (pair_eqb k) seen); simpl.
  - intros H. right. eapply IH, H.
  - intros [H | H]; [left | right]; [assumption | eapply IH, H].
Qed.

Lemma keep_first_records events seen :
  Forall is_event_record events -> Forall is_event_record (keep_first seen events).
Proof.
  intros H. rewrite Forall_forall in *. intros e He.
  apply H. eapply keep_first_incl, He.
Qed.

(** The loop reads [seen] through membership only. *)
Lemma keep_first_seen_ext events :
  forall s1 s2,
    (forall k, existsb (pair_eqb k) s1 = existsb (pair_eqb k) s2) ->
    keep_first s1 events = keep_first s2 events.
Proof.
  induction events as [| e r IH]; intros s1 s2 Hs; simpl; [reflexivity |].
  destruct (event_key e) as [k|]; [| reflexivity].
  rewrite <- Hs. destruct (existsb (pair_eqb k) s1) eqn:E.
  - apply IH, Hs.
  - f_equal. apply IH. intros k'. simpl. rewrite Hs. reflexivity.
Qed.

(** A list whose keys are distinct and new is kept whole. *)
Lemma keep_first_fixed events :
  Forall is_event_record events ->
  NoDup (map event_key events) ->
  forall seen,
    (forall k, In (Some k) (map event_key events) -> ~ In k seen) ->
    keep_first seen events = events.
Proof.
  induction 1 as [| e r He Hr IH]; intros Hnd seen Hnew; simpl; [reflexivity |].
  unfold is_event_record in He.
  destruct (event_key e) as [k|] eqn:Hk; [| congruence].
  simpl in Hnd, Hnew. rewrite Hk in Hnd, Hnew. inversion Hnd as [| ? ? Hnotin Hnd']; subst.
  destruct (existsb (pair_eqb k) seen) eqn:E.
  - apply existsb_pair_In in E. exfalso. apply (Hnew k); auto.
  - f_equal. apply IH; [assumption |].
    intros k' Hin [Heq | Hin'].
    + subst. contradiction.
    + apply (Hnew k'); auto.
Qed.

(** A list whose keys have all been seen contributes nothing. *)
Lemma keep_first_all_seen events :
  forall seen,
    (forall k, In (Some k) (map event_key events) -> In k seen) ->
    Forall is_event_record events ->
    keep_first seen events = [].
Proof.
  induction events as [| e r IH]; intros seen Hin Hrec; simpl; [reflexivity |].
  destruct (event_key e) as [k|] eqn:Hk; [| reflexivity].
  assert (existsb (pair_eqb k) seen = true) as E.
  { apply existsb_pair_In, Hin. simpl. rewrite Hk. auto. }
  rewrite E. apply IH.
  - intros k' H'. apply Hin. simpl. auto.
  - inversion Hrec; assumption.
Qed.

(** The keys of a list of event records. *)
Lemma keep_first_app l1 :
  Forall is_event_record l1 ->
  forall l2 seen ks,
    map event_key l1 = map Some ks ->
    keep_first seen (l1 ++ l2)
    = (keep_first seen l1 ++ keep_first (rev ks ++ seen) l2)%list.
Proof.
  induction 1 as [| e r He Hr IH]; intros l2 seen ks Hks; simpl.
  - destruct ks; [reflexivity | discriminate].
  - destruct ks as [| k ks]; [discriminate |].
    simpl in Hks. inversion Hks as [[Hk Hks']]. rewrite Hk.
    destruct (existsb (pair_eqb k) seen) eqn:E.
    + rewrite (IH l2 seen ks Hks'). f_equal.
      apply keep_first_seen_ext. intros k'. simpl.
      rewrite <- app_assoc, !existsb_app. simpl.
      destruct (pair_eqb k' k) eqn:E'; simpl; [| reflexivity].
      apply pair_eqb_eq in E'. subst. rewrite E.
      rewrite orb_true_r. reflexivity.
    + simpl. f_equal. rewrite (IH l2 (k :: seen) ks Hks'). f_equal.
      simpl. rewrite <- app_assoc. reflexivity.
Qed.

Lemma records_keys events :
  Forall is_event_record events -> exists ks, map event_key events = map Some ks.
Proof.
  induction 1 as [| e r He Hr [ks IH]]; [exists []; reflexivity |].
  unfold is_event_record in He.
  destruct (event_key e) as [k|] eqn:Hk; [| congruence].
  exists (k :: ks). simpl. rewrite Hk, IH. reflexivity.
Qed.

(** The first record of a key survives, unless the key has been seen. *)
Lemma keep_first_find events k :
  Forall is_event_record events ->
  forall seen,
    find (has_key k) (keep_first seen events)
    = if existsb (pair_eqb k) seen then None else find (has_key k) events.
Proof.
  induction 1 as [| e r He Hr IH]; intros seen; simpl.
  - destruct (existsb (pair_eqb k) seen); reflexivity.
  - unfold is_event_record in He.
    destruct (event_key e) as [k0|] eqn:Hk; [| congruence].
    assert (has_key k e = pair_eqb k0 k) as Hh by (unfold has_key; rewrite Hk; reflexivity).
    destruct (existsb (pair_eqb k0) seen) eqn:E.
    + rewrite IH, Hh. destruct (pair_eqb k0 k) eqn:E0; [| reflexivity].
      apply pair_eqb_eq in E0. subst. rewrite E. reflexivity.
    + simpl. rewrite Hh. destruct (pair_eqb k0 k) eqn:E0.
      * apply pair_eqb_eq in E0. subst. rewrite E. reflexivity.
      * rewrite IH. simpl.
        destruct (pair_eqb k k0) eqn:E1; [| reflexivity].
        apply pair_eqb_eq in E1. subst. rewrite pair_eqb_refl in E0. discriminate.
Qed.

Lemma NoDup_key_count (u : list value) (k : string * string) :
  NoDup (map event_key u) -> length (filter (has_key k) u) <= 1.
Proof.
  induction u as [| e r IH]; simpl; intros Hnd; [lia |].
  inversion Hnd as [| ? ? Hnotin Hnd']; subst.
  destruct (has_key k e) eqn:E; simpl; [| auto].
  unfold has_key in E. apply okey_eqb_eq in E.
  assert (filter (has_key k) r = []) as ->; [| simpl; lia].
  rewrite <- (filter_false r). apply filter_ext_in. intros x Hx.
  destruct (has_key k x) eqn:E'; [| reflexivity].
  unfold has_key in E'. apply okey_eqb_eq in E'.
  exfalso. apply Hnotin. rewrite E, <- E'. apply in_map, Hx.
Qed.

Lemma In_key_count (u : list value) (k : string * string) :
  In (Some k) (map event_key u) -> 1 <= length (filter (has_key k) u).
Proof.
  rewrite in_map_iff. intros [e [He Hin]].
  assert (In e (filter (has_key k) u)) as H.
  { apply filter_In. split; [assumption |].
    unfold has_key. rewrite He. apply pair_eqb_refl. }
  destruct (filter (has_key k) u); [contradiction | simpl; lia].
Qed.

(** C2. On event records, deduplication by [(name, broker)] returns, without
    raising, exactly one record per distinct key of the input, in the
    first-seen order of the keys, and it is idempotent: the result is a fixed
    point, and gathering the same matches twice changes nothing. *)
Theorem dedup_one_per_key_first_seen_idempotent (events : list value) :
  Forall is_event_record events ->
  exists u,
    _deduplicate_events events = Ok u
    /\ (forall k, In (Some k) (map event_key events) ->
                  length (filter (has_key k) u) = 1)
    /\ (forall k, In k (map event_key u) <-> In k (map event_key events))
    /\ map event_key u = first_seen (map event_key events)
    /\ _deduplicate_events u = Ok u
    /\ _deduplicate_events (events ++ events) = Ok u.
Proof.
  intros Hrec. exists (keep_first [] events).
  assert (map event_key (keep_first [] events) = first_seen (map event_key events))
    as Hkeys.
  { rewrite (keep_first_keys events Hrec []).
    apply forallb_filter_id, forallb_forall.
    intros [k|] _; reflexivity. }
  assert (NoDup (map event_key (keep_first [] events))) as Hnd
    by (rewrite Hkeys; apply first_seen_NoDup).
  assert (forall k, In k (map event_key (keep_first [] events))
                    <-> In k (map event_key events)) as Hin
    by (intros k; rewrite Hkeys; apply first_seen_In).
  split; [apply dedup_keep_first, Hrec |].
  split.
  { intros k Hk. apply Hin in Hk.
    pose proof (NoDup_key_count _ k Hnd). pose proof (In_key_count _ k Hk). lia. }
  split; [exact Hin |].
  split; [exact Hkeys |].
  split.
  - rewrite dedup_keep_first by (apply keep_first_records, Hrec).
    f_equal. apply keep_first_fixed; auto.
    apply keep_first_records, Hrec.
  - rewrite dedup_keep_first by (apply Forall_app; split; assumption).
    destruct (records_keys events Hrec) as [ks Hks].
    rewrite (keep_first_app events Hrec events [] ks Hks).
    assert (keep_first (rev ks ++ []) events = []) as ->.
    { apply keep_first_all_seen; [| assumption].
      intros k Hk. rewrite Hks in Hk. apply in_map_iff in Hk.
      destruct Hk as [k' [Heq Hk']]. inversion Heq; subst.
      rewrite app_nil_r. apply in_rev in Hk'. exact Hk'. }
    rewrite app_nil_r. reflexivity.
Qed.

Lemma dedup_one_per_key_first_seen_idempotent_witness :
  exists u,
    _deduplicate_events sample_events = Ok u
    /\ (forall k, In (Some k) (map event_key sample_events) ->
                  length (filter (has_key k) u) = 1)
    /\ (forall k, In k (map event_key u) <-> In k (map event_key sample_events))
    /\ map event_key u = first_seen (map event_key sample_events)
    /\ _deduplicate_events u = Ok u
    /\ _deduplicate_events (sample_events ++ sample_events) = Ok u.
Proof.
  apply (dedup_one_per_key_first_seen_idempotent sample_events).
  repeat constructor; discriminate.
Defined.

(** C9. Of the records sharing a key, deduplication keeps the first one of
    the input as it is: looking a key up in the result finds the very record
    that looking it up in the input finds, every surviving record is a record
    of the input, and no key has a second survivor. *)
Theorem dedup_keeps_first_record (events : list value) :
  Forall is_event_record events ->
  exists u,
    _deduplicate_events events = Ok u
    /\ (forall k, find (has_key k) u = find (has_key k) events)
    /\ (forall e, In e u -> In e events)
    /\ (forall k, length (filter (has_key k) u) <= 1).
Proof.
  intros Hrec. exists (keep_first [] events).
  split; [apply dedup_keep_first, Hrec |].
  split; [intros k; apply (keep_first_find events k Hrec []) |].
  split; [intros e; apply keep_first_incl |].
  intros k. apply NoDup_key_count.
  rewrite (keep_first_keys events Hrec []). apply NoDup_filter, first_seen_NoDup.
Qed.

Lemma dedup_keeps_first_record_witness :
  exists u,
    _deduplicate_events sample_events = Ok u
    /\ (forall k, find (has_key k) u = find (has_key k) sample_events)
    /\ (forall e, In e u -> In e sample_events)
    /\ (forall k, length (filter (has_key k) u) <= 1).
Proof.
  apply (dedup_keeps_first_record sample_events).
  repeat constructor; discriminate.
Defined.

Example dedup_sample :
  _deduplicate_events sample_events
  = Ok [ record "user.created" "generic" "a.py" 3;
         record "user.created" "kafka" "b.py" 7;
         record "order.placed" "kafka" "d.py" 1 ].
Proof. reflexivity. Qed.

(** ** The quoted-literal scan *)

Lemma append_length a b : String.length (a ++ b) = String.length a + String.length b.
Proof. induction a as [| c a IH]; simpl; [reflexivity | rewrite IH; reflexivity]. Qed.

Lemma append_assoc (a b c : string) : ((a ++ b) ++ c)%string = (a ++ (b ++ c))%string.
Proof. induction a as [| x a IH]; simpl; [reflexivity | rewrite IH; reflexivity]. Qed.

Lemma quote_not_name c : is_quote c = true -> is_name_char c = false.
Proof.
  unfold is_quote. rewrite orb_true_iff, !Ascii.eqb_eq.
  intros [-> | ->]; reflexivity.
Qed.

(** [name_span] splits the text at the end of its leading name run. *)
Lemma name_span_spec s t rest :
  name_span s = (t, rest) ->
  s = (t ++ rest)%string /\ all_name t = true
  /\ match rest with
     | EmptyString => True
     | String c _ => is_name_char c = false
     end.
Proof.
  revert t rest. induction s as [| c s IH]; simpl; intros t rest H.
  - inversion H; subst. auto.
  - destruct (is_name_char c) eqn:E.
    + destruct (name_span s) as [t' rest'] eqn:Hs. inversion H; subst.
      destruct (IH _ _ eq_refl) as [Heq [Hall Hrest]].
      simpl. rewrite E, Hall, <- Heq. auto.
    + inversion H; subst. simpl. auto.
Qed.

Lemma name_span_app t rest :
  all_name t = true ->
  match rest with
  | EmptyString => True
  | String c _ => is_name_char c = false
  end ->
  name_span (t ++ rest) = (t, rest).
Proof.
  induction t as [| c t IH]; simpl; intros Hall Hrest.
  - destruct rest as [| c r]; simpl; [reflexivity |]. rewrite Hrest. reflexivity.
  - apply andb_true_iff in Hall. destruct Hall as [Hc Ht].
    rewrite Hc, (IH Ht Hrest). reflexivity.
Qed.

(** What a match at the head of the text looks like. *)
Lemma match_here_spec s tok after :
  match_here s = Some (tok, after) ->
  exists q1 q2,
    s = String q1 (tok ++ String q2 after)
    /\ is_quote q1 = true /\ is_quote q2 = true
    /\ all_name tok = true /\ tok <> EmptyString.
Proof.
  destruct s as [| q r]; simpl; [discriminate |].
  destruct (is_quote q) eqn:Hq; [| discriminate].
  destruct (name_span r) as [t rest] eqn:Hs.
  destruct t as [| c t]; [discriminate |].
  destruct rest as [| q' after']; [discriminate |].
  destruct (is_quote q') eqn:Hq'; [| discriminate].
  intros H; inversion H; subst.
  destruct (name_span_spec _ _ _ Hs) as [Heq [Hall _]].
  exists q, q'. rewrite Heq. repeat split; auto. discriminate.
Qed.

(** The pattern accepts any pairing of the two quotes. *)
Lemma match_here_quoted q1 q2 tok after :
  is_quote q1 = true -> is_quote q2 = true ->
  all_name tok = true -> tok <> EmptyString ->
  match_here (String q1 (tok ++ String q2 after)) = Some (tok, after).
Proof.
  intros H1 H2 Hall Hne. simpl. rewrite H1.
  rewrite (name_span_app tok (String q2 after) Hall (quote_not_name _ H2)).
  destruct tok as [| c t]; [congruence |]. rewrite H2. reflexivity.
Qed.

Lemma match_here_shorter s tok after :
  match_here s = Some (tok, after) -> String.length after < String.length s.
Proof.
  intros H. destruct (match_here_spec _ _ _ H) as [q1 [q2 [-> _]]].
  simpl. rewrite append_length. simpl. lia.
Qed.

(** Fuel beyond the length of the text changes nothing. *)
Lemma findall_from_enough f1 :
  forall f2 s, String.length s <= f1 -> String.length s <= f2 ->
               findall_from f1 s = findall_from f2 s.
Proof.
  induction f1 as [| f1 IH]; intros f2 s H1 H2.
  - destruct s; [| simpl in H1; lia]. destruct f2; reflexivity.
  - destruct s as [| c r]; [destruct f2; reflexivity |].
    destruct f2 as [| f2]; [simpl in H2; lia |].
    cbn [findall_from].
    destruct (match_here (String c r)) as [[tok after]|] eqn:Hm.
    + apply match_here_shorter in Hm. f_equal. apply IH; simpl in *; lia.
    + apply IH; simpl in *; lia.
Qed.

(** The scan, one step at a time. *)
Lemma findall_step c r :
  findall (String c r)
  = match match_here (String c r) with
    | Some (tok, after) => tok :: findall after
    | None => findall r
    end.
Proof.
  unfold findall. cbn [String.length findall_from].
  destruct (match_here (String c r)) as [[tok after]|] eqn:Hm.
  - apply match_here_shorter in Hm. f_equal.
    apply findall_from_enough; simpl in *; lia.
  - apply findall_from_enough; simpl; lia.
Qed.

(** Every candidate is a run of name characters between two quotes. *)
Lemma findall_sound n :
  forall line tok,
    String.length line <= n ->
    In tok (findall line) ->
    exists pre q1 q2 post,
      line = (pre ++ String q1 (tok ++ String q2 post))%string
      /\ is_quote q1 = true /\ is_quote q2 = true
      /\ all_name tok = true /\ tok <> EmptyString.
Proof.
  induction n as [| n IH]; intros line tok Hlen Hin.
  - destruct line; [contradiction | simpl in Hlen; lia].
  - destruct line as [| c r]; [contradiction |].
    rewrite findall_step in Hin.
    destruct (match_here (String c r)) as [[t after]|] eqn:Hm.
    + pose proof (match_here_shorter _ _ _ Hm) as Hlt.
      destruct (match_here_spec _ _ _ Hm) as [q1 [q2 [Heq [H1 [H2 [Hall Hne]]]]]].
      destruct Hin as [<- | Hin].
      * exists EmptyString, q1, q2, after. simpl. auto.
      * destruct (IH after tok) as [pre [a [b [post [Hl Hrest]]]]];
          [simpl in *; lia | assumption |].
        exists (String q1 (t ++ String q2 pre)), a, b, post.
        split; [| assumption].
        rewrite Heq, Hl. simpl. rewrite append_assoc. reflexivity.
    + destruct (IH r tok) as [pre [a [b [post [Hl Hrest]]]]];
        [simpl in *; lia | assumption |].
      exists (String c pre), a, b, post. split; [| assumption].
      rewrite Hl. reflexivity.
Qed.

Lemma match_here_app s t a x :
  match_here s = Some (t, a) -> match_here (s ++ x) = Some (t, (a ++ x)%string).
Proof.
  intros H. destruct (match_here_spec _ _ _ H) as [q1 [q2 [-> [H1 [H2 [Hall Hne]]]]]].
  simpl. rewrite append_assoc. simpl.
  apply (match_here_quoted q1 q2 t (a ++ x) H1 H2 Hall Hne).
Qed.

Lemma match_here_name c r : is_quote c = false -> match_here (String c r) = None.
Proof. intros H. simpl. rewrite H. reflexivity. Qed.

Lemma name_not_quote c : is_name_char c = true -> is_quote c = false.
Proof.
  intros H. destruct (is_quote c) eqn:E; [| reflexivity].
  apply quote_not_name in E. congruence.
Qed.

(** A run of name characters holds no candidate and starts none. *)
Lemma findall_skip_names t s : all_name t = true -> findall (t ++ s) = findall s.
Proof.
  induction t as [| c t IH]; simpl; intros H; [reflexivity |].
  apply andb_true_iff in H. destruct H as [Hc Ht].
  rewrite findall_step, (match_here_name c _ (name_not_quote c Hc)). apply IH, Ht.
Qed.

Lemma findall_no_quote s : no_quote s = true -> findall s = [].
Proof.
  induction s as [| c s IH]; simpl; intros H; [reflexivity |].
  apply andb_true_iff in H. destruct H as [Hc Hs].
  apply negb_true_iff in Hc.
  rewrite findall_step, (match_here_name c _ Hc). apply IH, Hs.
Qed.

Lemma no_quote_app a b : no_quote (a ++ b) = no_quote a && no_quote b.
Proof.
  induction a as [| c a IH]; simpl; [reflexivity |].
  rewrite IH, andb_assoc. reflexivity.
Qed.

(** Where a name run followed by a quote ends, when the text is cut in
    front of another quote. *)
Lemma split_run q1 q' X Y t :
  all_name t = true -> is_quote q1 = true ->
  forall r,
    (r ++ String q1 X)%string = (t ++ String q' Y)%string ->
    (r = t /\ q1 = q' /\ X = Y)
    \/ exists r2, r = (t ++ String q' r2)%string /\ Y = (r2 ++ String q1 X)%string.
Proof.
  intros Hall H1. induction t as [| a t IH]; intros r Heq.
  - destruct r as [| b r]; simpl in Heq; inversion Heq; subst.
    + left. auto.
    + right. exists r. auto.
  - simpl in Hall. apply andb_true_iff in Hall. destruct Hall as [Ha Ht].
    destruct r as [| b r]; simpl in Heq; inversion Heq; subst.
    + apply quote_not_name in H1. congruence.
    + destruct (IH Ht r H2) as [[-> [-> ->]] | [r2 [-> ->]]].
      * left. auto.
      * right. exists r2. auto.
Qed.

Section QuotedToken.

Variables (q1 q2 : ascii) (tok post : string).
Hypothesis Hq1 : is_quote q1 = true.
Hypothesis Hq2 : is_quote q2 = true.
Hypothesis Htok : all_name tok = true.
Hypothesis Hne : tok <> EmptyString.

Lemma reached_or_shared n :
  forall pre, String.length pre <= n ->
              reached pre q1 tok q2 post \/ shared pre q1 tok q2 post.
Proof.
  induction n as [| n IH]; intros pre Hlen.
  - destruct pre; [| simpl in Hlen; lia]. left. unfold reached. simpl append.
    rewrite findall_step, (match_here_quoted q1 q2 tok post Hq1 Hq2 Htok Hne).
    reflexivity.
  - destruct pre as [| c r].
    { left. unfold reached. simpl append.
      rewrite findall_step, (match_here_quoted q1 q2 tok post Hq1 Hq2 Htok Hne).
      reflexivity. }
    simpl in Hlen.
    destruct (match_here (String c (r ++ String q1 (tok ++ String q2 post))))
      as [[t after]|] eqn:Hm.
    + destruct (match_here_spec _ _ _ Hm) as [c' [q' [Heq [Hc [Hq' [Ht Htne]]]]]].
      inversion Heq as [[Hcc Hr]]. subst c'.
      destruct (split_run q1 q' _ _ t Ht Hq1 r Hr) as [[-> [<- <-]] | [r2 [-> ->]]].
      * right. exists EmptyString, c, t. simpl append.
        repeat split; auto.
        rewrite findall_step, Hm, (findall_skip_names tok _ Htok). reflexivity.
      * assert (findall (String c (t ++ String q' r2)) = t :: findall r2) as Hpre.
        { rewrite findall_step, (match_here_quoted c q' t r2 Hc Hq' Ht Htne).
          reflexivity. }
        assert (String.length r2 <= n) as Hr2.
        { rewrite append_length in Hlen. simpl in Hlen. lia. }
        destruct (IH r2 Hr2) as [HA | [p' [q0 [tok' [-> [H0 [Ht' [Hne' HB]]]]]]]].
        -- left. unfold reached in *. simpl append.
           rewrite findall_step, Hm, HA, Hpre. reflexivity.
        -- right. exists (String c (t ++ String q' p')), q0, tok'.
           split; [simpl; rewrite append_assoc; reflexivity |].
           repeat split; auto.
           simpl append. rewrite findall_step, Hm, HB.
           rewrite (findall_step c (t ++ String q' p')),
             (match_here_quoted c q' t p' Hc Hq' Ht Htne).
           reflexivity.
    + assert (String.length r <= n) as Hr by lia.
      destruct (IH r Hr) as [HA | [p' [q0 [tok' [-> [H0 [Ht' [Hne' HB]]]]]]]].
      * left. unfold reached in *. simpl append.
        rewrite findall_step, Hm, HA.
        assert (match_here (String c r) = None) as Hn.
        { destruct (match_here (String c r)) as [[t a]|] eqn:E; [| reflexivity].
          apply (match_here_app _ _ _ (String q1 (tok ++ String q2 post))) in E.
          simpl append in E. congruence. }
        rewrite (findall_step c r), Hn. reflexivity.
      * right. exists (String c p'), q0, tok'.
        split; [reflexivity |]. repeat split; auto.
        simpl append. rewrite findall_step, Hm, HB.
        assert (match_here (String c p') = None) as Hn.
        { destruct (match_here (String c p')) as [[t a]|] eqn:E; [| reflexivity].
          apply (match_here_app _ _ _
                   (String q0 tok' ++ String q1 (tok ++ String q2 post))) in E.
          rewrite append_assoc in Hm. simpl append in E, Hm. congruence. }
        rewrite (findall_step c p'), Hn. reflexivity.
Qed.

Lemma first_quote_reached pre :
  no_quote pre = true ->
  findall (pre ++ String q1 (tok ++ String q2 post)) = tok :: findall post.
Proof.
  intros Hnq.
  destruct (reached_or_shared (String.length pre) pre (le_n _))
    as [HA | [p' [q0 [tok' [-> [H0 _]]]]]].
  - unfold reached in HA. rewrite HA, (findall_no_quote pre Hnq). reflexivity.
  - rewrite no_quote_app in Hnq. simpl in Hnq. rewrite H0 in Hnq.
    simpl in Hnq. rewrite andb_false_r in Hnq. discriminate.
Qed.

End QuotedToken.

(** ** Event-name extraction *)

Lemma first_reasonable_app a b :
  first_reasonable (a ++ b)
  = match first_reasonable a with
    | Some s => Some s
    | None => first_reasonable b
    end.
Proof.
  induction a as [| x a IH]; simpl; [reflexivity |].
  destruct (reasonable x); [reflexivity | apply IH].
Qed.

Lemma first_reasonable_none l :
  Forall (fun x => reasonable x = false) l -> first_reasonable l = None.
Proof.
  induction 1 as [| x r Hx Hr IH]; simpl; [reflexivity |]. rewrite Hx. exact IH.
Qed.

Lemma first_reasonable_found pre s post :
  Forall (fun x => reasonable x = false) pre -> reasonable s = true ->
  first_reasonable (pre ++ s :: post) = Some s.
Proof.
  intros Hpre Hs. rewrite first_reasonable_app, (first_reasonable_none pre Hpre).
  simpl. rewrite Hs. reflexivity.
Qed.

(** The two nested loops return the first reasonable string that
    [re.findall] finds in the lines. *)
Lemma extract_loop_first lms lines broker :
  Forall2 line_of lms lines ->
  extract_loop lms broker
  = Ok (match first_reasonable (concat (map findall lines)) with
        | Some s => s
        | None => (broker ++ "_event")%string
        end).
Proof.
  induction 1 as [| lm line lms lines Hl Hr IH]; simpl; [reflexivity |].
  unfold line_of in Hl. rewrite Hl. simpl.
  rewrite first_reasonable_app.
  destruct (first_reasonable (findall line)); [reflexivity | exact IH].
Qed.

(** The test of the inner loop is the qualification of the specification. *)
Lemma reasonable_qualifying s : reasonable s = true <-> qualifying s.
Proof.
  unfold reasonable, qualifying, startswith.
  rewrite andb_true_iff, Nat.ltb_lt, negb_true_iff.
  split; intros [Hl Hp]; (split; [exact Hl |]).
  - intros r ->.
    change (String.prefix "_" (String "_" r))
      with (if ascii_dec "_" "_" then String.prefix EmptyString r else false) in Hp.
    destruct (ascii_dec "_" "_"); [destruct r; discriminate | congruence].
  - destruct s as [| c r]; [reflexivity |].
    change (String.prefix "_" (String c r))
      with (if ascii_dec "_" c then String.prefix EmptyString r else false).
    destruct (ascii_dec "_" c) as [<- | _]; [| reflexivity].
    exfalso. apply (Hp r). reflexivity.
Qed.

Lemma not_qualifying s : reasonable s = false <-> ~ qualifying s.
Proof.
  rewrite <- reasonable_qualifying. destruct (reasonable s); split; congruence.
Qed.

(** *** The scan of the specification and [re.findall] *)

Lemma quoted_at_head c r pre tok post :
  quoted_at (String c r) pre tok post ->
  (pre = EmptyString /\ match_here (String c r) = Some (tok, post))
  \/ exists pre', pre = String c pre' /\ quoted_at r pre' tok post.
Proof.
  intros [q1 [q2 [Heq [H1 [H2 [Hall Hne]]]]]]. destruct pre as [| c' pre']; simpl in Heq.
  - left. split; [reflexivity |]. rewrite Heq. apply match_here_quoted; assumption.
  - right. inversion Heq; subst. exists pre'. split; [reflexivity |].
    exists q1, q2. auto.
Qed.

Lemma quoted_at_cons c r pre tok post :
  quoted_at r pre tok post -> quoted_at (String c r) (String c pre) tok post.
Proof.
  intros [q1 [q2 [Heq H]]]. exists q1, q2. split; [| exact H]. simpl. rewrite Heq.
  reflexivity.
Qed.

Lemma quoted_at_empty pre tok post : ~ quoted_at EmptyString pre tok post.
Proof. intros [q1 [q2 [Heq _]]]. destruct pre; discriminate Heq. Qed.

Lemma scanned_skip c r toks :
  match_here (String c r) = None -> scanned r toks -> scanned (String c r) toks.
Proof.
  intros Hm H. inversion H as [line Hnone | line pre tok post toks' Hq Hleft Hs]; subst.
  - apply scanned_nil. intros pre tok post Hq.
    destruct (quoted_at_head _ _ _ _ _ Hq) as [[_ Hh] | [pre' [_ Hq']]];
      [congruence | exact (Hnone _ _ _ Hq')].
  - apply (scanned_cons _ (String c pre) tok post);
      [apply quoted_at_cons, Hq | | exact Hs].
    intros pre' tok' post' Hq'.
    destruct (quoted_at_head _ _ _ _ _ Hq') as [[_ Hh] | [p [-> Hq'']]]; [congruence |].
    simpl. apply le_n_S. exact (Hleft _ _ _ Hq'').
Qed.

(** [re.findall] performs the scan of the specification. *)
Lemma scanned_findall_within n :
  forall line, String.length line <= n -> scanned line (findall line).
Proof.
  induction n as [| n IH]; intros line Hlen.
  - destruct line; [| simpl in Hlen; lia].
    apply scanned_nil. intros pre tok post. apply quoted_at_empty.
  - destruct line as [| c r].
    { apply scanned_nil. intros pre tok post. apply quoted_at_empty. }
    rewrite findall_step.
    destruct (match_here (String c r)) as [[tok after]|] eqn:Hm.
    + pose proof (match_here_shorter _ _ _ Hm) as Hlt.
      destruct (match_here_spec _ _ _ Hm) as [q1 [q2 [Heq H]]].
      apply (scanned_cons _ EmptyString tok after).
      * exists q1, q2. split; [exact Heq | exact H].
      * intros pre' tok' post' _. apply Nat.le_0_l.
      * apply IH. simpl in *. lia.
    + apply scanned_skip; [exact Hm |]. apply IH. simpl in Hlen. lia.
Qed.

Lemma scanned_findall line : scanned line (findall line).
Proof. apply (scanned_findall_within (String.length line)), le_n. Qed.

(** The scan has one result. *)
Lemma scanned_unique line toks : scanned line toks -> toks = findall line.
Proof.
  induction 1 as [line Hnone | line pre tok post toks Hq Hleft Hs IH].
  - destruct (findall line) as [| t l] eqn:E; [reflexivity |]. exfalso.
    destruct (findall_sound (String.length line) line t (le_n _))
      as [pre [q1 [q2 [post H]]]]; [rewrite E; left; reflexivity |].
    apply (Hnone pre t post). exists q1, q2. exact H.
  - subst toks. destruct Hq as [q1 [q2 [Heq [H1 [H2 [Hall Hne]]]]]].
    destruct (reached_or_shared q1 q2 tok post H1 H2 Hall Hne (String.length pre) pre
                (le_n _))
      as [Hr | [pre' [q0 [tok' [Hpre [H0 [Ht' [Hne' _]]]]]]]].
    + unfold reached in Hr. rewrite <- Heq in Hr. rewrite Hr.
      assert (findall pre = []) as ->; [| reflexivity].
      destruct (findall pre) as [| t l] eqn:E; [reflexivity |]. exfalso.
      destruct (findall_sound (String.length pre) pre t (le_n _))
        as [p [a [b [po [Hp Hrest]]]]]; [rewrite E; left; reflexivity |].
      assert (quoted_at line p t (po ++ String q1 (tok ++ String q2 post))) as Hq'.
      { exists a, b. split; [| exact Hrest].
        rewrite Heq, Hp, append_assoc. simpl. rewrite append_assoc. reflexivity. }
      apply Hleft in Hq'. rewrite Hp, append_length in Hq'. simpl in Hq'. lia.
    + exfalso.
      assert (quoted_at line pre' tok' (tok ++ String q2 post)) as Hq'.
      { exists q0, q1. split; [| auto].
        rewrite Heq, Hpre, append_assoc. reflexivity. }
      apply Hleft in Hq'. rewrite Hpre, append_length in Hq'. simpl in Hq'. lia.
Qed.

Lemma scanned_lines lines : Forall2 scanned lines (map findall lines).
Proof.
  induction lines as [| line lines IH]; simpl; constructor;
    [apply scanned_findall | exact IH].
Qed.

Lemma scanned_lines_unique lines tokens :
  Forall2 scanned lines tokens -> tokens = map findall lines.
Proof.
  induction 1 as [| line toks lines tokens H _ IH]; simpl; [reflexivity |].
  rewrite (scanned_unique _ _ H), IH. reflexivity.
Qed.

(** C3, as stated, fails on a shared quote: in the line ['ab'cde'] the
    only qualifying quoted literal is [cde], yet the extracted name is the
    default, the quote in front of [cde] being the closing quote of [ab]. *)
Lemma shared_quote_literal_is_not_extracted :
  quoted_at "'ab'cde'" "'ab" "cde" EmptyString
  /\ qualifying "cde"
  /\ (forall pre tok post,
         quoted_at "'ab'cde'" pre tok post -> qualifying tok -> tok = "cde")
  /\ _extract_event_name (VList [line_match 1 "'ab'cde'"]) "generic"
     = Ok "generic_event".
Proof.
  split; [| split; [| split]].
  - exists squote, squote. repeat split; try reflexivity. discriminate.
  - split; [simpl; lia | discriminate].
  - intros pre tok post Hq [Hlen _].
    repeat (apply quoted_at_head in Hq;
            destruct Hq as [[_ Hm] | [? [_ Hq]]];
            [ vm_compute in Hm; try discriminate Hm; injection Hm as <- <-;
              first [reflexivity | simpl in Hlen; lia] | ]).
    exfalso. exact (quoted_at_empty _ _ _ Hq).
  - reflexivity.
Qed.

(** C3, amended. For line matches carrying the texts [lines]: each line has
    one scan, from left to right, whose tokens are quoted literals of the
    line, a quote that closes a literal opening none; when the tokens of
    the scans, taken in encounter order, hold a qualifying one (longer than
    two characters, not starting with an underscore), the extracted name is
    the first such token; when they hold none, it is the broker tag
    followed by [_event]. *)
Theorem extract_event_name_first_literal
  (lms : list value) (lines : list string) (broker : string) :
  Forall2 line_of lms lines ->
  exists tokens,
    Forall2 scanned lines tokens
    /\ (forall tokens', Forall2 scanned lines tokens' -> tokens' = tokens)
    /\ Forall2 (fun line toks =>
                  forall tok, In tok toks -> exists pre post, quoted_at line pre tok post)
               lines tokens
    /\ (forall pre s post,
          concat tokens = (pre ++ s :: post)%list ->
          Forall (fun x => ~ qualifying x) pre ->
          qualifying s ->
          _extract_event_name (VList lms) broker = Ok s)
    /\ (Forall (fun x => ~ qualifying x) (concat tokens) ->
        _extract_event_name (VList lms) broker = Ok (broker ++ "_event")%string).
Proof.
  intros H. exists (map findall lines).
  split; [apply scanned_lines |].
  split; [intros tokens' H'; apply scanned_lines_unique, H' |].
  split.
  { clear H. induction lines as [| line lines IH]; simpl; constructor; [| exact IH].
    intros tok Hin.
    destruct (findall_sound (String.length line) line tok (le_n _) Hin)
      as [pre [q1 [q2 [post Hq]]]].
    exists pre, post, q1, q2. exact Hq. }
  unfold _extract_event_name. simpl.
  rewrite (extract_loop_first lms lines broker H).
  split.
  - intros pre s post Heq Hpre Hs.
    rewrite Heq, (first_reasonable_found pre s post); [reflexivity | |].
    + eapply Forall_impl; [| exact Hpre]. intros x. apply not_qualifying.
    + apply reasonable_qualifying, Hs.
  - intros Hnone. rewrite first_reasonable_none; [reflexivity |].
    eapply Forall_impl; [| exact Hnone]. intros x. apply not_qualifying.
Qed.

Lemma extract_event_name_first_literal_witness :
  exists tokens,
    Forall2 scanned sample_lines tokens
    /\ (forall tokens', Forall2 scanned sample_lines tokens' -> tokens' = tokens)
    /\ Forall2 (fun line toks =>
                  forall tok, In tok toks -> exists pre post, quoted_at line pre tok post)
               sample_lines tokens
    /\ (forall pre s post,
          concat tokens = (pre ++ s :: post)%list ->
          Forall (fun x => ~ qualifying x) pre ->
          qualifying s ->
          _extract_event_name (VList sample_line_matches) "generic" = Ok s)
    /\ (Forall (fun x => ~ qualifying x) (concat tokens) ->
        _extract_event_name (VList sample_line_matches) "generic"
        = Ok ("generic" ++ "_event")%string).
Proof.
  apply (extract_event_name_first_literal sample_line_matches sample_lines "generic").
  repeat constructor.
Defined.

Example extract_sample :
  concat (map findall sample_lines) = ["ab"; "_tmp"; "user.created"; "later.one"]
  /\ _extract_event_name (VList sample_line_matches) "generic" = Ok "user.created"
  /\ _extract_event_name (VList [line_match 7 "producer.flush()"]) "kafka"
     = Ok "kafka_event".
Proof. repeat split; reflexivity. Qed.

(** C10, as stated, fails on a shared quote: in the line ['ab'cd'] the token
    [cd] stands between two quotes, yet the scan yields [ab] alone, the
    quote in front of [cd] being the closing quote of [ab]. *)
Lemma shared_quote_token_is_no_candidate :
  let line := "'ab'cd'" in
  line = ("'ab" ++ String squote ("cd" ++ String squote EmptyString))%string
  /\ is_quote squote = true
  /\ all_name "cd" = true
  /\ findall line = ["ab"]
  /\ ~ In "cd" (findall line).
Proof.
  cbv zeta. repeat split; try reflexivity.
  change (findall "'ab'cd'") with ["ab"]. simpl. intros [H | []]. discriminate.
Qed.

(** C10, amended. The pattern does not ask the two quotes of a literal to
    be the same: a token of [a-zA-Z0-9._-]+ between quotes of either kind
    matches it where it stands.  In a line it is a candidate of the scan,
    unless its opening quote is the closing quote of the candidate in front
    of it; it is the first candidate when no quote comes before it, and
    then, if it is longer than two characters and starts with no
    underscore, it is the extracted event name. *)
Theorem quoted_token_candidate_unless_quote_shared
  (pre : string) (q1 : ascii) (tok : string) (q2 : ascii) (post : string) :
  is_quote q1 = true -> is_quote q2 = true ->
  all_name tok = true -> tok <> EmptyString ->
  match_here (String q1 (tok ++ String q2 post)) = Some (tok, post)
  /\ (reached pre q1 tok q2 post \/ shared pre q1 tok q2 post)
  /\ (no_quote pre = true ->
      findall (pre ++ String q1 (tok ++ String q2 post)) = tok :: findall post
      /\ (reasonable tok = true ->
          forall number broker,
            _extract_event_name
              (VList [line_match number (pre ++ String q1 (tok ++ String q2 post))])
              broker
            = Ok tok)).
Proof.
  intros H1 H2 Hall Hne. split; [| split].
  - apply match_here_quoted; assumption.
  - apply (reached_or_shared q1 q2 tok post H1 H2 Hall Hne (String.length pre) pre).
    apply le_n.
  - intros Hnq.
    pose proof (first_quote_reached q1 q2 tok post H1 H2 Hall Hne pre Hnq) as Hf.
    split; [exact Hf |].
    intros Hr number broker.
    unfold _extract_event_name, line_match. simpl.
    unfold re_findall. cbn [bind]. rewrite Hf. simpl. rewrite Hr. reflexivity.
Qed.

Lemma quoted_token_candidate_unless_quote_shared_witness :
  match_here (String dquote ("orders" ++ String squote ", x)"))
  = Some ("orders", ", x)")
  /\ (reached "send(" dquote "orders" squote ", x)"
      \/ shared "send(" dquote "orders" squote ", x)")
  /\ (no_quote "send(" = true ->
      findall ("send(" ++ String dquote ("orders" ++ String squote ", x)"))
      = "orders" :: findall ", x)"
      /\ (reasonable "orders" = true ->
          forall number broker,
            _extract_event_name
              (VList [line_match number
                        ("send(" ++ String dquote ("orders" ++ String squote ", x)"))])
              broker
            = Ok "orders")).
Proof.
  apply (quoted_token_candidate_unless_quote_shared
           "send(" dquote "orders" squote ", x)");
    [reflexivity | reflexivity | reflexivity | discriminate].
Defined.

Example mismatched_quotes_orders :
  findall (String dquote ("orders" ++ String squote EmptyString)) = ["orders"]
  /\ _extract_event_name
       (VList [line_match 1 (String dquote ("orders" ++ String squote EmptyString))])
       "rabbitmq"
     = Ok "orders".
Proof. split; reflexivity. Qed.

(** ** Detection *)

Ltac case_bind H :=
  match type of H with
  | context [bind ?c _] =>
      let E := fresh "E" in destruct c eqn:E; cbn [bind] in H; try discriminate
  end.

(** What the parser returns is an event record tagged with the broker type. *)
Lemma parse_event_key m broker_type e :
  _parse_event m broker_type = Some e ->
  exists n, event_key e = Some (n, broker_type).
Proof.
  unfold _parse_event.
  destruct (parse_event_body m broker_type) as [r|] eqn:Hb; [| discriminate].
  intros ->. unfold parse_event_body in Hb.
  repeat case_bind Hb;
    match type of Hb with
    | context [if ?c then _ else _] => destruct c
    end;
    try discriminate; inversion Hb; subst; eexists; reflexivity.
Qed.

Lemma parse_results_records results broker_type :
  Forall is_event_record (parse_results results broker_type).
Proof.
  induction results as [| r rest IH]; simpl; [constructor |].
  destruct (_parse_event r broker_type) as [e|] eqn:He; [| exact IH].
  constructor; [| exact IH].
  destruct (parse_event_key _ _ _ He) as [n Hn].
  unfold is_event_record. rewrite Hn. discriminate.
Qed.

Lemma flat_map_Forall {A B} (P : B -> Prop) (f : A -> list B) l :
  (forall x, In x l -> Forall P (f x)) -> Forall P (flat_map f l).
Proof.
  intros H. apply Forall_forall. intros y Hy. apply in_flat_map in Hy.
  destruct Hy as [x [Hx Hy]]. specialize (H x Hx).
  rewrite Forall_forall in H. auto.
Qed.

Lemma collect_events_records repo search_code :
  Forall is_event_record (collect_events repo search_code).
Proof.
  unfold collect_events. apply flat_map_Forall. intros bp _.
  apply flat_map_Forall. intros p _. apply parse_results_records.
Qed.

Lemma detect_events_total repo search_code :
  detect_events repo search_code = Ok (keep_first [] (collect_events repo search_code)).
Proof. apply dedup_keep_first, collect_events_records. Qed.

Lemma parse_results_app rs1 rs2 broker_type :
  parse_results (rs1 ++ rs2) broker_type
  = (parse_results rs1 broker_type ++ parse_results rs2 broker_type)%list.
Proof.
  induction rs1 as [| r rest IH]; simpl; [reflexivity |].
  destruct (_parse_event r broker_type); simpl; rewrite IH; reflexivity.
Qed.

Lemma parse_results_skip rs1 m rs2 broker_type :
  _parse_event m broker_type = None ->
  parse_results (rs1 ++ m :: rs2) broker_type = parse_results (rs1 ++ rs2) broker_type.
Proof.
  intros H. rewrite !parse_results_app. simpl. rewrite H. reflexivity.
Qed.

Lemma flat_map_ext_in {A B} (f g : A -> list B) l :
  (forall x, In x l -> f x = g x) -> flat_map f l = flat_map g l.
Proof.
  induction l as [| a l IH]; simpl; intros H; [reflexivity |].
  rewrite (H a) by auto. rewrite IH by auto. reflexivity.
Qed.

(** *** The matches that are skipped *)

Lemma mapM_map {A B} (f : A -> result B) (g : A -> B) l :
  (forall x, In x l -> f x = Ok (g x)) -> mapM f l = Ok (map g l).
Proof.
  induction l as [| x l IH]; intros H; [reflexivity |].
  cbn [mapM map]. rewrite (H x (or_introl eq_refl)). cbn [bind].
  rewrite IH; [reflexivity |]. intros y Hy. apply H. right. exact Hy.
Qed.

Lemma get_entry d k default : get (VDict d) k default = Ok (entry k default d).
Proof. reflexivity. Qed.

Lemma get_no_object m k default :
  is_dict m = false -> get m k default = Raise AttributeError.
Proof. destruct m; simpl; try reflexivity; discriminate. Qed.

Lemma is_dict_true v : is_dict v = true -> exists d, v = VDict d.
Proof. destruct v; try discriminate. eexists; reflexivity. Qed.

Lemma forallb_false_ex {A} (f : A -> bool) l :
  forallb f l = false -> exists x, In x l /\ f x = false.
Proof.
  induction l as [| x l IH]; simpl; [discriminate |].
  destruct (f x) eqn:E; simpl.
  - intros H. destruct (IH H) as [y [Hy Hf]]. exists y. auto.
  - intros _. exists x. auto.
Qed.

Lemma mapM_get_objects k default (g : value -> value) lms :
  forallb is_dict lms = true ->
  (forall d, g (VDict d) = entry k default d) ->
  mapM (fun lm => get lm k default) lms = Ok (map g lms).
Proof.
  intros Hall Hg. apply mapM_map. intros lm Hin.
  destruct (is_dict_true lm (proj1 (forallb_forall _ _) Hall lm Hin)) as [d ->].
  rewrite get_entry, Hg. reflexivity.
Qed.

Lemma mapM_get_raise k default lms lm :
  In lm lms -> is_dict lm = false ->
  mapM (fun lm => get lm k default) lms = Raise AttributeError.
Proof.
  intros Hin Hd. induction lms as [| x lms IH]; [contradiction |].
  cbn [mapM]. destruct (is_dict x) eqn:Ex.
  - destruct (is_dict_true x Ex) as [d ->]. rewrite get_entry. cbn [bind].
    destruct Hin as [<- | Hin]; [discriminate |]. rewrite (IH Hin). reflexivity.
  - rewrite (get_no_object x k default Ex). reflexivity.
Qed.

Lemma first_reasonable_none_inv l :
  first_reasonable l = None -> Forall (fun x => reasonable x = false) l.
Proof.
  induction l as [| x l IH]; simpl; [constructor |].
  destruct (reasonable x) eqn:E; [discriminate |]. intros H. constructor; auto.
Qed.

(** The extraction raises on line matches with an unreadable line. *)
Lemma extract_loop_unreadable lms broker_type :
  unreadable lms -> exists e, extract_loop lms broker_type = Raise e.
Proof.
  induction 1 as [d rest Hs | d line toks rest Hl Hscan Hnone _ [e IH]];
    cbn [extract_loop]; rewrite get_entry; cbn [bind].
  - destruct (entry "line" (VStr EmptyString) d); try discriminate;
      exists TypeError; reflexivity.
  - rewrite Hl. cbn [re_findall bind].
    rewrite <- (scanned_unique _ _ Hscan), first_reasonable_none.
    + exists e. exact IH.
    + eapply Forall_impl; [| exact Hnone]. intros x. apply not_qualifying.
Qed.

(** It raises on those only, or on an element that is no object. *)
Lemma extract_loop_raise lms broker_type e :
  extract_loop lms broker_type = Raise e ->
  (exists lm, In lm lms /\ is_dict lm = false) \/ unreadable lms.
Proof.
  induction lms as [| lm rest IH]; cbn [extract_loop]; [discriminate |].
  destruct (is_dict lm) eqn:Ed; [| intros _; left; exists lm; split; [left |]; auto].
  destruct (is_dict_true lm Ed) as [d ->]. rewrite get_entry. cbn [bind].
  destruct (entry "line" (VStr EmptyString) d) as [| | | line | |] eqn:El;
    try (intros _; right; apply unreadable_line; rewrite El; reflexivity).
  cbn [re_findall bind].
  destruct (first_reasonable (findall line)) as [s |] eqn:Ef; [discriminate |].
  intros H. destruct (IH H) as [[x [Hin Hx]] | Hu].
  - left. exists x. split; [right |]; assumption.
  - right. apply (unreadable_later d line (findall line) rest El);
      [apply scanned_findall | | exact Hu].
    eapply Forall_impl; [| apply first_reasonable_none_inv, Ef].
    intros x. apply not_qualifying.
Qed.

Lemma extract_loop_readable lms broker_type :
  Forall readable lms -> exists name, extract_loop lms broker_type = Ok name.
Proof.
  induction 1 as [| lm rest [d [-> Hs]] _ [name IH]]; cbn [extract_loop];
    [eexists; reflexivity |].
  rewrite get_entry. cbn [bind].
  destruct (entry "line" (VStr EmptyString) d) as [| | | line | |]; try discriminate.
  cbn [re_findall bind].
  destruct (first_reasonable (findall line)) as [s |]; eexists; [reflexivity | exact IH].
Qed.

(** The record of a match that is not skipped: missing entries are
    defaulted. *)
Lemma parse_event_kept d broker_type fd rd lms name :
  entry "file" (VDict []) d = VDict fd ->
  entry "repository" (VDict []) d = VDict rd ->
  truthy (entry "lineMatches" (VList []) d) = true ->
  iter (entry "lineMatches" (VList []) d) = Ok lms ->
  forallb is_dict lms = true ->
  extract_loop lms broker_type = Ok name ->
  _parse_event (VDict d) broker_type
  = Some (obj [ ("name", VStr name);
                ("broker", VStr broker_type);
                ("file", entry "path" (VStr EmptyString) fd);
                ("repository", entry "name" (VStr EmptyString) rd);
                ("lines", VList (map line_number lms));
                ("source_code", VList (map line_text lms)) ]).
Proof.
  intros Hf Hr Ht Hi Hall He. unfold _parse_event, parse_event_body.
  rewrite (get_entry d "file"), Hf. cbn [bind]. rewrite get_entry. cbn [bind].
  rewrite (get_entry d "repository"), Hr. cbn [bind]. rewrite get_entry. cbn [bind].
  rewrite (get_entry d "lineMatches"). cbn [bind]. rewrite Ht. cbn [negb].
  unfold _extract_event_name. rewrite Hi. cbn [bind]. rewrite He. cbn [bind].
  rewrite (mapM_get_objects "lineNumber" (VInt 0) line_number lms Hall); [| reflexivity].
  cbn [bind].
  rewrite (mapM_get_objects "line" (VStr EmptyString) line_text lms Hall);
    [| reflexivity].
  reflexivity.
Qed.

Lemma parse_event_some m broker_type e :
  _parse_event m broker_type = Some e ->
  exists d fd rd lms name,
    m = VDict d
    /\ entry "file" (VDict []) d = VDict fd
    /\ entry "repository" (VDict []) d = VDict rd
    /\ truthy (entry "lineMatches" (VList []) d) = true
    /\ iter (entry "lineMatches" (VList []) d) = Ok lms
    /\ forallb is_dict lms = true
    /\ extract_loop lms broker_type = Ok name.
Proof.
  unfold _parse_event, parse_event_body. intros H.
  destruct m as [| | | | | d]; try (cbn [get bind] in H; discriminate).
  rewrite (get_entry d "file") in H. cbn [bind] in H.
  destruct (entry "file" (VDict []) d) as [| | | | | fd] eqn:Hf;
    try (cbn [get bind] in H; discriminate).
  rewrite get_entry in H. cbn [bind] in H.
  rewrite (get_entry d "repository") in H. cbn [bind] in H.
  destruct (entry "repository" (VDict []) d) as [| | | | | rd] eqn:Hr;
    try (cbn [get bind] in H; discriminate).
  rewrite get_entry in H. cbn [bind] in H.
  rewrite (get_entry d "lineMatches") in H. cbn [bind] in H.
  destruct (truthy (entry "lineMatches" (VList []) d)) eqn:Ht; cbn [negb] in H;
    [| discriminate].
  unfold _extract_event_name in H.
  destruct (iter (entry "lineMatches" (VList []) d)) as [lms | x] eqn:Hi;
    cbn [bind] in H; [| discriminate].
  destruct (extract_loop lms broker_type) as [name | x] eqn:He; cbn [bind] in H;
    [| discriminate].
  destruct (forallb is_dict lms) eqn:Hall.
  - exists d, fd, rd, lms, name. repeat split; reflexivity || assumption.
  - destruct (forallb_false_ex _ _ Hall) as [lm [Hin Hd]].
    rewrite (mapM_get_raise "lineNumber" (VInt 0) lms lm Hin Hd) in H.
    discriminate.
Qed.

(** The parser returns no record exactly for the matches of the shapes of
    [skipped]. *)
Lemma parse_event_skipped m broker_type :
  _parse_event m broker_type = None <-> skipped m.
Proof.
  split.
  - intros H.
    destruct (is_dict m) eqn:Hm; [| apply skipped_no_object, Hm].
    destruct (is_dict_true m Hm) as [d ->].
    destruct (is_dict (entry "file" (VDict []) d)) eqn:Hf; [| apply skipped_file, Hf].
    destruct (is_dict (entry "repository" (VDict []) d)) eqn:Hr;
      [| apply skipped_repository, Hr].
    destruct (truthy (entry "lineMatches" (VList []) d)) eqn:Ht;
      [| apply skipped_no_lines, Ht].
    destruct (iter (entry "lineMatches" (VList []) d)) as [lms | x] eqn:Hi;
      [| apply (skipped_no_sequence d x), Hi].
    destruct (forallb is_dict lms) eqn:Hall.
    + destruct (extract_loop lms broker_type) as [name | x] eqn:He.
      * exfalso.
        destruct (is_dict_true _ Hf) as [fd Hfd]. destruct (is_dict_true _ Hr) as [rd Hrd].
        rewrite (parse_event_kept d broker_type fd rd lms name Hfd Hrd Ht Hi Hall He) in H.
        discriminate.
      * destruct (extract_loop_raise _ _ _ He) as [[lm [Hin Hd]] | Hu].
        -- apply (skipped_element d lms lm Hi Hin Hd).
        -- apply (skipped_line d lms Hi Hu).
    + destruct (forallb_false_ex _ _ Hall) as [lm [Hin Hd]].
      apply (skipped_element d lms lm Hi Hin Hd).
  - intros Hs. destruct (_parse_event m broker_type) as [e |] eqn:E; [| reflexivity].
    exfalso.
    destruct (parse_event_some _ _ _ E)
      as [d [fd [rd [lms [name [-> [Hf [Hr [Ht [Hi [Hall He]]]]]]]]]]].
    inversion Hs as [m Hm | d' H | d' H | d' H | d' x H | d' lms' lm H Hin Hd | d' lms' H Hu];
      subst.
    + discriminate Hm.
    + rewrite Hf in H. discriminate H.
    + rewrite Hr in H. discriminate H.
    + congruence.
    + congruence.
    + rewrite Hi in H. injection H as <-.
      rewrite (proj1 (forallb_forall _ _) Hall lm Hin) in Hd. discriminate Hd.
    + rewrite Hi in H. injection H as <-.
      destruct (extract_loop_unreadable lms broker_type Hu) as [x Hx]. congruence.
Qed.

(** *** The client *)

Lemma search_loop_app search_code repo qs1 qs2 :
  forall events,
    search_loop search_code repo (qs1 ++ qs2) events
    = (events' <- search_loop search_code repo qs1 events ;;
       search_loop search_code repo qs2 events').
Proof.
  induction qs1 as [| [b p] qs1 IH]; intros events; [reflexivity |].
  cbn [app search_loop].
  destruct (answer search_code repo p) as [ms | x]; cbn [bind]; [apply IH | reflexivity].
Qed.

Lemma pattern_loop_flat repo search_code broker_type pats :
  forall events,
    AnyClient.pattern_loop repo search_code broker_type pats events
    = search_loop search_code repo (map (fun p => (broker_type, p)) pats) events.
Proof.
  induction pats as [| p pats IH]; intros events; [reflexivity |].
  cbn [AnyClient.pattern_loop map search_loop]. unfold answer.
  destruct (search_code p repo) as [v | x]; cbn [bind]; [| reflexivity].
  destruct (iter v) as [ms | x]; cbn [bind]; [apply IH | reflexivity].
Qed.

(** The loops of [detect_events] make the searches of [queries] in order. *)
Lemma broker_loop_flat repo search_code bps :
  forall events,
    AnyClient.broker_loop repo search_code bps events
    = search_loop search_code repo
        (flat_map (fun bp : string * list string =>
                     map (fun pattern => (fst bp, pattern)) (snd bp)) bps)
        events.
Proof.
  induction bps as [| [b pats] bps IH]; intros events; [reflexivity |].
  cbn [AnyClient.broker_loop flat_map fst snd].
  rewrite search_loop_app, pattern_loop_flat.
  destruct (search_loop search_code repo (map (fun p => (b, p)) pats) events);
    cbn [bind]; [apply IH | reflexivity].
Qed.

Lemma search_loop_answered search_code repo qs :
  Forall (fun bq => answered search_code repo (snd bq)) qs ->
  forall events,
    search_loop search_code repo qs events
    = Ok (events
          ++ flat_map (fun bq => parse_results (matches_of search_code repo (snd bq))
                                               (fst bq)) qs)%list.
Proof.
  induction 1 as [| [b p] qs [ms Hms] _ IH]; intros events; cbn [search_loop flat_map].
  - rewrite app_nil_r. reflexivity.
  - cbn [fst snd] in *. unfold matches_of. rewrite Hms. cbn [bind].
    rewrite IH, app_assoc. reflexivity.
Qed.

Lemma search_loop_raise search_code repo pre b p post e :
  Forall (fun bq => answered search_code repo (snd bq)) pre ->
  answer search_code repo p = Raise e ->
  forall events, search_loop search_code repo (pre ++ (b, p) :: post) events = Raise e.
Proof.
  intros Hpre Hp. induction Hpre as [| [b' p'] pre [ms Hms] _ IH]; intros events;
    cbn [app search_loop].
  - rewrite Hp. reflexivity.
  - cbn [snd] in Hms. rewrite Hms. cbn [bind]. apply IH.
Qed.

Lemma flat_map_flat_map {A B C} (f : A -> list B) (g : B -> list C) l :
  flat_map g (flat_map f l) = flat_map (fun x => flat_map g (f x)) l.
Proof.
  induction l as [| x l IH]; simpl; [reflexivity |].
  rewrite flat_map_app, IH. reflexivity.
Qed.

Lemma flat_map_map {A B C} (f : A -> B) (g : B -> list C) l :
  flat_map g (map f l) = flat_map (fun x => g (f x)) l.
Proof. induction l as [| x l IH]; simpl; [reflexivity | rewrite IH; reflexivity]. Qed.

(** When every search is answered, detection is that of the client that
    answers with the matches. *)
Lemma detect_events_answered repo search_code :
  Forall (fun bq => answered search_code repo (snd bq)) queries ->
  AnyClient.detect_events repo search_code
  = detect_events repo (fun query _ => matches_of search_code repo query).
Proof.
  intros H. unfold AnyClient.detect_events, detect_events, collect_events.
  rewrite broker_loop_flat. fold queries.
  rewrite (search_loop_answered search_code repo queries H). cbn [bind app].
  f_equal. unfold queries. rewrite flat_map_flat_map.
  apply flat_map_ext_in. intros [b pats] _. cbn [fst snd].
  rewrite flat_map_map. reflexivity.
Qed.

(** A search that raises, or returns what cannot be iterated, ends the
    detection with its exception. *)
Lemma detect_events_raise repo search_code pre b p post e :
  queries = (pre ++ (b, p) :: post)%list ->
  Forall (fun bq => answered search_code repo (snd bq)) pre ->
  answer search_code repo p = Raise e ->
  AnyClient.detect_events repo search_code = Raise e.
Proof.
  intros Hq Hpre Hp. unfold AnyClient.detect_events.
  rewrite broker_loop_flat. fold queries. rewrite Hq.
  rewrite (search_loop_raise search_code repo pre b p post e Hpre Hp). reflexivity.
Qed.

Lemma answers_lists_answered search_code repo qs :
  Forall (fun bq : string * string => answered (answers_lists search_code) repo (snd bq)) qs.
Proof.
  apply Forall_forall. intros bq _. exists (search_code (snd bq) repo). reflexivity.
Qed.

Lemma detect_events_answers_lists repo search_code :
  AnyClient.detect_events repo (answers_lists search_code) = detect_events repo search_code.
Proof.
  rewrite detect_events_answered by apply answers_lists_answered. reflexivity.
Qed.

(** C7, as stated, fails on a match that misses expected fields: the
    match that has nothing but an empty line match is not skipped, its
    missing file, repository, line number and line are defaulted and it
    yields a record; and detection raises when a search of the client
    raises. *)
Lemma match_missing_fields_is_kept :
  _parse_event bare_match "kafka" = Some (bare_record "kafka")
  /\ detect_events "example/shop" bare_search = Ok [bare_record "kafka"]
  /\ AnyClient.detect_events "example/shop" failing_search = Raise AttributeError.
Proof. repeat split; reflexivity. Qed.

(** C7, amended. The matches that yield no record are those of the shapes
    of [skipped]: a match that is no object, whose [file] or [repository]
    is there and is no object, whose line matches are missing or empty, are
    no sequence, hold an element that is no object or a line that is read
    and is no string.  Such a match is skipped alone: the batch is parsed
    as without it, and detection returns what it returns without it.  A
    match with objects for line matches and strings for lines, whatever
    else it misses, yields a record, the missing entries defaulted.
    Detection raises nothing of its own: on a client that answers with
    lists it returns, and the exception of a search ends it. *)
Theorem detect_skips_offending_match
  (repo : string) (search_code : string -> string -> list value) :
  (forall m broker_type, _parse_event m broker_type = None <-> skipped m)
  /\ (forall m,
         skipped m ->
         (forall broker_type rs1 rs2,
             parse_results (rs1 ++ m :: rs2) broker_type
             = parse_results (rs1 ++ rs2) broker_type)
         /\ (forall query rs1 rs2,
                search_code query repo = (rs1 ++ m :: rs2)%list ->
                detect_events repo search_code
                = detect_events repo (answering search_code query repo (rs1 ++ rs2))))
  /\ (forall d broker_type fd rd lm lms,
         entry "file" (VDict []) d = VDict fd ->
         entry "repository" (VDict []) d = VDict rd ->
         entry "lineMatches" (VList []) d = VList (lm :: lms) ->
         Forall readable (lm :: lms) ->
         exists name,
           _parse_event (VDict d) broker_type
           = Some (obj [ ("name", VStr name);
                         ("broker", VStr broker_type);
                         ("file", entry "path" (VStr EmptyString) fd);
                         ("repository", entry "name" (VStr EmptyString) rd);
                         ("lines", VList (map line_number (lm :: lms)));
                         ("source_code", VList (map line_text (lm :: lms))) ]))
  /\ (exists events,
         AnyClient.detect_events repo (answers_lists search_code) = Ok events
         /\ detect_events repo search_code = Ok events)
  /\ (forall client pre broker_type pattern post e,
         queries = (pre ++ (broker_type, pattern) :: post)%list ->
         Forall (fun bq => answered client repo (snd bq)) pre ->
         answer client repo pattern = Raise e ->
         AnyClient.detect_events repo client = Raise e).
Proof.
  split; [apply parse_event_skipped |].
  split; [| split; [| split]].
  - intros m Hm.
    assert (forall b, _parse_event m b = None) as Hnone
        by (intros b; apply parse_event_skipped, Hm).
    split; [intros b rs1 rs2; apply parse_results_skip, Hnone |].
    intros query rs1 rs2 Hq. unfold detect_events. f_equal.
    unfold collect_events. apply flat_map_ext_in. intros [b pats] _.
    apply flat_map_ext_in. intros p _. unfold answering. simpl.
    destruct (String.eqb p query) eqn:Ep; simpl; [| reflexivity].
    rewrite String.eqb_refl. apply String.eqb_eq in Ep. subst p.
    rewrite Hq. apply parse_results_skip, Hnone.
  - intros d b fd rd lm lms Hf Hr Hl Hread.
    destruct (extract_loop_readable (lm :: lms) b Hread) as [name Hname].
    exists name. apply parse_event_kept; try assumption.
    + rewrite Hl. reflexivity.
    + rewrite Hl. reflexivity.
    + apply forallb_forall. intros x Hx.
      destruct (proj1 (Forall_forall _ _) Hread x Hx) as [dx [-> _]]. reflexivity.
  - exists (keep_first [] (collect_events repo search_code)).
    rewrite detect_events_answers_lists. split; apply detect_events_total.
  - intros client pre b p post e. apply detect_events_raise.
Qed.

Lemma misshapen_match_skipped : skipped misshapen_match.
Proof. apply skipped_file. reflexivity. Qed.

Example detect_sample_batch :
  parse_results
    [ sample_match "a.py" 3 "bus.emit('user.created')";
      misshapen_match;
      obj [ ("file", obj [ ("path", VStr "b.py") ]) ];
      sample_match "c.py" 9 "bus.emit('user.deleted')" ]
    "generic"
  = parse_results
      [ sample_match "a.py" 3 "bus.emit('user.created')";
        sample_match "c.py" 9 "bus.emit('user.deleted')" ]
      "generic"
  /\ map event_key
       (parse_results
          [ sample_match "a.py" 3 "bus.emit('user.created')";
            sample_match "c.py" 9 "bus.emit('user.deleted')" ]
          "generic")
     = [ Some ("user.created", "generic"); Some ("user.deleted", "generic") ].
Proof. split; reflexivity. Qed.

(** ** The scenario *)

(** C1, as stated, fails: the first qualifying literal of the rabbitmq line
    is [orders], so no detected record is named [order.placed]; and on
    records that carry their names in the [name] field, the 3.0 generator
    raises, while the catalog manager's servers have the broker tag as
    protocol and its channels the names unsanitized. *)
Lemma scenario_detects_orders :
  detect_events "example/shop" scenario_search = Ok detected_records
  /\ map event_key detected_records
     = [ Some ("payment.processed", "kafka"); Some ("orders", "rabbitmq") ]
  /\ ~ In (Some ("order.placed", "rabbitmq")) (map event_key detected_records)
  /\ (forall rt, AsynapiGenerator.generate_spec rt "shop" claimed_records "1.0.0"
                 = Raise ValueError)
  /\ (exists doc,
         CatalogManager._create_specification "example/shop" claimed_records = Ok doc
         /\ protocols (section "servers" doc)
            = [ (VStr "rabbitmq_server", VStr "rabbitmq");
                (VStr "kafka_server", VStr "kafka") ]
         /\ keys (section "channels" doc)
            = [ VStr "order.placed"; VStr "payment.processed" ]).
Proof.
  split; [vm_compute; reflexivity |].
  split; [reflexivity |].
  split.
  { simpl. intros [H | [H | []]]; discriminate. }
  split.
  { intros rt. reflexivity. }
  eexists. split; [reflexivity |]. split; reflexivity.
Qed.

(** C1, amended. On the two matches detection returns exactly two records,
    [payment.processed] of kafka and [orders] of rabbitmq; and the 3.0
    generator, on two records carrying the channel names [order.placed] and
    [payment.processed] with the brokers rabbitmq and kafka, produces a
    document with exactly two servers, of protocols amqp and kafka, and
    exactly two channels, keyed [order_placed] and [payment_processed]. *)
Theorem scenario_two_matches :
  detect_events "example/shop" scenario_search = Ok detected_records
  /\ map event_key detected_records
     = [ Some ("payment.processed", "kafka"); Some ("orders", "rabbitmq") ]
  /\ (forall rt,
         exists doc,
           AsynapiGenerator.generate_spec rt "shop" channel_records "1.0.0" = Ok doc
           /\ protocols (section "servers" doc)
              = [ (VStr "rabbitmq", VStr "amqp"); (VStr "kafka", VStr "kafka") ]
           /\ keys (section "channels" doc)
              = [ VStr "order_placed"; VStr "payment_processed" ]).
Proof.
  split; [vm_compute; reflexivity |].
  split; [reflexivity |].
  intros rt. eexists. split; [reflexivity |]. split; reflexivity.
Qed.

(** ** Dictionaries *)

Lemma py_eqb_refl_hashable v : hashable v = true -> py_eqb v v = true.
Proof.
  destruct v; simpl; try discriminate; intros _.
  - reflexivity.
  - apply Bool.eqb_reflx.
  - apply Z.eqb_refl.
  - apply String.eqb_refl.
Qed.

Lemma py_eqb_str_r k s : py_eqb k (VStr s) = true -> k = VStr s.
Proof.
  destruct k; simpl; try discriminate.
  intros H. apply String.eqb_eq in H. subst. reflexivity.
Qed.

Lemma py_eqb_str_l k s : py_eqb (VStr s) k = true -> k = VStr s.
Proof.
  destruct k; simpl; try discriminate.
  intros H. apply String.eqb_eq in H. subst. reflexivity.
Qed.

Lemma lookup_dict_set_same k v d :
  py_eqb k k = true -> lookup k (dict_set k v d) <> None.
Proof.
  intros Hk. induction d as [| [k' v'] r IH]; simpl.
  - rewrite Hk. discriminate.
  - destruct (py_eqb k' k) eqn:E; simpl; rewrite E; [discriminate | exact IH].
Qed.

Lemma lookup_dict_set_keep k0 k v d :
  lookup k0 d <> None -> lookup k0 (dict_set k v d) <> None.
Proof.
  induction d as [| [k' v'] r IH]; simpl; [congruence |].
  destruct (py_eqb k' k); simpl; destruct (py_eqb k' k0); auto; discriminate.
Qed.

(** The keys after [d[k] = v], for a string key. *)
Lemma keys_dict_set_str a v d k :
  In k (keys (dict_set (VStr a) v d)) <-> In k (keys d) \/ k = VStr a.
Proof.
  induction d as [| [k' v'] r IH]; simpl.
  - split; intros [H | H]; auto; contradiction.
  - destruct (py_eqb k' (VStr a)) eqn:E; simpl.
    + apply py_eqb_str_r in E. subst. split.
      * intros [H | H]; auto.
      * intros [[H | H] | H]; auto.
    + rewrite IH. tauto.
Qed.

(** ** Records without a name *)

Lemma events_loop_needs_name events :
  (exists e, In e events /\ exists x, getitem e "name" = Raise x) ->
  forall channels messages schemas,
    exists y, CatalogManager.events_loop events channels messages schemas = Raise y.
Proof.
  induction events as [| e0 rest IH]; intros [e [Hin [x Hx]]] channels messages schemas.
  - contradiction.
  - simpl. destruct (getitem e0 "name") as [n|y] eqn:Hn; cbn [bind]; [| eexists; reflexivity].
    destruct (negb (hashable n)); [eexists; reflexivity |].
    destruct (getitem e0 "file") as [f|y]; cbn [bind]; [| eexists; reflexivity].
    apply IH. destruct Hin as [<- | Hin]; [congruence |].
    exists e. split; [assumption | exists x; assumption].
Qed.

(** The catalog manager's builder raises on every list that holds a record
    without [name]. *)
Lemma create_specification_needs_name repo events :
  (exists e, In e events /\ exists x, getitem e "name" = Raise x) ->
  exists y, CatalogManager._create_specification repo events = Raise y.
Proof.
  intros H. unfold CatalogManager._create_specification.
  destruct (CatalogManager._group_events_by_broker events); cbn [bind];
    [| eexists; reflexivity].
  destruct (CatalogManager.servers_loop a []); cbn [bind]; [| eexists; reflexivity].
  destruct (events_loop_needs_name events H [] [] []) as [y Hy].
  rewrite Hy. eexists; reflexivity.
Qed.

Lemma generator_create_channel_total e n :
  get e "name" (VStr "unknown") = Ok n ->
  exists c, Generator._create_channel e = Ok c.
Proof.
  intros H. unfold Generator._create_channel. rewrite H. cbn [bind].
  destruct e; try discriminate. simpl. eexists; reflexivity.
Qed.

Lemma generator_channels_loop_total events :
  Forall named events ->
  forall channels,
    exists ch,
      Generator.channels_loop events channels = Ok ch
      /\ (forall k, lookup k channels <> None -> lookup k ch <> None)
      /\ (forall e n, In e events -> get e "name" (VStr "unknown") = Ok n ->
                      lookup n ch <> None).
Proof.
  induction 1 as [| e rest [n [Hn Hh]] Hrest IH]; intros channels; simpl.
  - exists channels. split; [reflexivity |]. split; [auto | intros ? ? []].
  - rewrite Hn. cbn [bind]. rewrite Hh. simpl.
    destruct (lookup n channels) eqn:Hl.
    + destruct (IH channels) as [ch [Hch [Hkeep Hall]]].
      exists ch. split; [assumption |]. split; [assumption |].
      intros e' n' [<- | Hin] Hn'.
      * rewrite Hn in Hn'. inversion Hn'; subst. apply Hkeep. congruence.
      * eapply Hall; eassumption.
    + destruct (generator_create_channel_total e n Hn) as [c Hc].
      rewrite Hc. cbn [bind].
      destruct (IH (dict_set n c channels)) as [ch [Hch [Hkeep Hall]]].
      exists ch. split; [assumption |]. split.
      * intros k Hk. apply Hkeep, lookup_dict_set_keep, Hk.
      * intros e' n' [<- | Hin] Hn'.
        -- rewrite Hn in Hn'. inversion Hn'; subst.
           apply Hkeep, lookup_dict_set_same, py_eqb_refl_hashable, Hh.
        -- eapply Hall; eassumption.
Qed.

Lemma dict_set_new k v d : lookup k d = None -> dict_set k v d = (d ++ [(k, v)])%list.
Proof.
  induction d as [| [k' v'] d IH]; cbn [lookup dict_set app]; [reflexivity |].
  destruct (py_eqb k' k); [discriminate |]. intros H. rewrite (IH H). reflexivity.
Qed.

Lemma lookup_some_entry k d v :
  lookup k d = Some v -> exists k', In (k', v) d /\ py_eqb k' k = true.
Proof.
  induction d as [| [k' v'] d IH]; cbn [lookup]; [discriminate |].
  destruct (py_eqb k' k) eqn:E.
  - intros H. inversion H; subst. exists k'. split; [left; reflexivity | exact E].
  - intros H. destruct (IH H) as [k'' [Hin Hk]]. exists k''. split; [right |]; assumption.
Qed.

(** The channel of an event gives its message the name of the event, or
    [unknown]. *)
Lemma generator_create_channel_name e n :
  get e "name" (VStr "unknown") = Ok n ->
  exists c, Generator._create_channel e = Ok c /\ message_name c = n.
Proof.
  intros H. unfold Generator._create_channel. rewrite H. cbn [bind].
  destruct e as [| | | | | d]; try discriminate. cbn [get bind].
  eexists. split; reflexivity.
Qed.

Lemma generator_channels_loop_named events :
  Forall named events ->
  forall channels,
    Forall (fun kc => message_name (snd kc) = fst kc) channels ->
    exists ch,
      Generator.channels_loop events channels = Ok ch
      /\ Forall (fun kc => message_name (snd kc) = fst kc) ch
      /\ (forall k, lookup k channels <> None -> lookup k ch <> None)
      /\ (forall e n, In e events -> get e "name" (VStr "unknown") = Ok n ->
                      lookup n ch <> None)
      /\ (forall k, In k (keys ch) ->
                    In k (keys channels)
                    \/ exists e, In e events /\ get e "name" (VStr "unknown") = Ok k).
Proof.
  induction 1 as [| e rest [n [Hn Hh]] Hrest IH]; intros channels Hinv;
    cbn [Generator.channels_loop].
  - exists channels. split; [reflexivity |]. split; [exact Hinv |].
    split; [auto |]. split; [intros ? ? [] | auto].
  - rewrite Hn. cbn [bind]. rewrite Hh. cbn [negb].
    destruct (lookup n channels) eqn:Hl.
    + destruct (IH channels Hinv) as [ch [Hch [Hi [Hkeep [Hall Hkeys]]]]].
      exists ch. split; [exact Hch |]. split; [exact Hi |]. split; [exact Hkeep |].
      split.
      * intros e' n' [<- | Hin] Hn'.
        -- assert (n' = n) as -> by congruence. apply Hkeep. congruence.
        -- eapply Hall; eassumption.
      * intros k Hk. destruct (Hkeys k Hk) as [H | [e' [Hin He']]]; [left; exact H |].
        right. exists e'. split; [right |]; assumption.
    + destruct (generator_create_channel_name e n Hn) as [c [Hc Hname]].
      rewrite Hc. cbn [bind]. rewrite (dict_set_new n c channels Hl).
      destruct (IH (channels ++ [(n, c)])%list) as [ch [Hch [Hi [Hkeep [Hall Hkeys]]]]].
      { apply Forall_app. split; [exact Hinv |]. constructor; [exact Hname | constructor]. }
      exists ch. split; [exact Hch |]. split; [exact Hi |]. split; [| split].
      * intros k Hk. apply Hkeep. rewrite <- (dict_set_new n c channels Hl).
        apply lookup_dict_set_keep, Hk.
      * intros e' n' [<- | Hin] Hn'.
        -- assert (n' = n) as -> by congruence.
           apply Hkeep. rewrite <- (dict_set_new n c channels Hl).
           apply lookup_dict_set_same, py_eqb_refl_hashable, Hh.
        -- eapply Hall; eassumption.
      * intros k Hk. destruct (Hkeys k Hk) as [H | [e' [Hin He']]].
        -- unfold keys in H. rewrite map_app, in_app_iff in H.
           destruct H as [H | [<- | []]]; [left; exact H |].
           right. exists e. split; [left; reflexivity | exact Hn].
        -- right. exists e'. split; [right |]; assumption.
Qed.

(** C8. On event records, those without [name] among them, [generate] does
    not fail: it returns a document; a record without [name] is covered by
    the channel [unknown], whose message is named [unknown]; every record
    is covered by the channel of its name, and every channel is that of a
    record. *)
Theorem generate_defaults_missing_name (events : list value) :
  Forall named events ->
  exists doc,
    Generator.generate (obj [ ("events", VList events) ]) = Ok doc
    /\ (forall e, In e events -> lacks_name e ->
          exists c, lookup (VStr "unknown") (section "channels" doc) = Some c
                    /\ message_name c = VStr "unknown")
    /\ (forall e n, In e events -> get e "name" (VStr "unknown") = Ok n ->
          exists c, lookup n (section "channels" doc) = Some c)
    /\ (forall k, In k (keys (section "channels" doc)) ->
          exists e, In e events /\ get e "name" (VStr "unknown") = Ok k).
Proof.
  intros H.
  destruct (generator_channels_loop_named events H [] (Forall_nil _))
    as [ch [Hch [Hinv [_ [Hall Hkeys]]]]].
  exists (VDict (dict_set (VStr "channels") (VDict ch) Generator._create_base_spec)).
  split; [unfold Generator.generate; simpl; rewrite Hch; reflexivity |].
  change (section "channels"
            (VDict (dict_set (VStr "channels") (VDict ch) Generator._create_base_spec)))
    with ch.
  split; [| split].
  - intros e Hin [d [-> Hd]].
    assert (get (VDict d) "name" (VStr "unknown") = Ok (VStr "unknown")) as Hn
        by (unfold get; rewrite Hd; reflexivity).
    pose proof (Hall _ _ Hin Hn) as Hl.
    destruct (lookup (VStr "unknown") ch) as [c |] eqn:E; [| congruence].
    exists c. split; [reflexivity |].
    destruct (lookup_some_entry _ _ _ E) as [k' [Hk' Heq]].
    apply py_eqb_str_r in Heq. subst k'.
    exact (proj1 (Forall_forall _ _) Hinv _ Hk').
  - intros e n Hin Hn. pose proof (Hall _ _ Hin Hn) as Hl.
    destruct (lookup n ch) as [c |]; [exists c; reflexivity | congruence].
  - intros k Hk. destruct (Hkeys k Hk) as [[] | Hx]. exact Hx.
Qed.

Lemma generate_defaults_missing_name_witness :
  exists doc,
    Generator.generate (obj [ ("events", VList sample_producers) ]) = Ok doc
    /\ (forall e, In e sample_producers -> lacks_name e ->
          exists c, lookup (VStr "unknown") (section "channels" doc) = Some c
                    /\ message_name c = VStr "unknown")
    /\ (forall e n, In e sample_producers -> get e "name" (VStr "unknown") = Ok n ->
          exists c, lookup n (section "channels" doc) = Some c)
    /\ (forall k, In k (keys (section "channels" doc)) ->
          exists e, In e sample_producers /\ get e "name" (VStr "unknown") = Ok k).
Proof.
  apply (generate_defaults_missing_name sample_producers).
  repeat (apply Forall_cons; [eexists; split; reflexivity |]). apply Forall_nil.
Defined.

(** ** Channel and server membership *)

Lemma group_add_keeps k e g k' :
  In k' (map fst g) -> In k' (map fst (group_add k e g)).
Proof.
  induction g as [| [k0 es] r IH]; simpl; [tauto |].
  destruct (py_eqb k0 k); simpl; intros [H | H]; auto.
Qed.

Lemma group_add_new k e g k' :
  In k' (map fst (group_add k e g)) -> In k' (map fst g) \/ k' = k.
Proof.
  induction g as [| [k0 es] r IH]; simpl.
  - intros [H | []]; auto.
  - destruct (py_eqb k0 k); simpl; intros [H | H]; auto.
    destruct (IH H); auto.
Qed.

Lemma group_add_has k e g :
  py_eqb k k = true ->
  exists k', In k' (map fst (group_add k e g)) /\ py_eqb k' k = true.
Proof.
  intros Hk. induction g as [| [k0 es] r [k' [Hin Heq]]]; simpl.
  - exists k. auto.
  - destruct (py_eqb k0 k) eqn:E; simpl.
    + exists k0. auto.
    + exists k'. auto.
Qed.

(** The keys of the grouping dictionary are the values of the field. *)
Lemma group_loop_keys fieldname default events :
  forall g0 g,
    group_loop fieldname default events g0 = Ok g ->
    (forall k', In k' (map fst g0) -> In k' (map fst g))
    /\ (forall k', In k' (map fst g) ->
                   In k' (map fst g0)
                   \/ exists e, In e events /\ get e fieldname default = Ok k')
    /\ (forall e, In e events ->
                  exists k k', get e fieldname default = Ok k
                               /\ In k' (map fst g) /\ py_eqb k' k = true).
Proof.
  induction events as [| e rest IH]; intros g0 g H; simpl in H.
  - inversion H; subst. repeat split; auto. intros e [].
  - destruct (get e fieldname default) as [k|] eqn:Hk; cbn [bind] in H; [| discriminate].
    destruct (hashable k) eqn:Hh; [| discriminate].
    destruct (IH _ _ H) as [Hkeep [Hfrom Hall]].
    split; [| split].
    + intros k' Hin. apply Hkeep, group_add_keeps, Hin.
    + intros k' Hin. destruct (Hfrom k' Hin) as [Hg | [e' [He' Hget]]].
      * destruct (group_add_new _ _ _ _ Hg) as [Hg0 | ->]; auto.
        right. exists e. simpl. auto.
      * right. exists e'. simpl. auto.
    + intros e' [<- | Hin].
      * destruct (group_add_has k e g0 (py_eqb_refl_hashable k Hh)) as [k' [Hin Heq]].
        exists k, k'. auto.
      * apply Hall, Hin.
Qed.

Lemma channels_loop_keys groups :
  forall ch0 ch,
    AsynapiGenerator.channels_loop groups ch0 = Ok ch ->
    (forall k', In k' (map fst groups) -> exists s, k' = VStr s)
    /\ (forall k, In k (keys ch)
                  <-> In k (keys ch0)
                      \/ exists s, In (VStr s) (map fst groups)
                                   /\ k = VStr (AsynapiGenerator.sanitize s)).
Proof.
  induction groups as [| [name evs] rest IH]; intros ch0 ch H; simpl in H.
  - inversion H; subst. split; [intros ? [] |].
    intros k. split; [auto | intros [Hk | [s [[] _]]]; exact Hk].
  - destruct name; simpl in H; try discriminate.
    destruct (AsynapiGenerator._create_channel s evs) as [c|]; cbn [bind] in H;
      [| discriminate].
    destruct (IH _ _ H) as [Hstr Hkeys]. split.
    + intros k' [<- | Hin]; [eexists; reflexivity | apply Hstr, Hin].
    + intros k. rewrite Hkeys, keys_dict_set_str. simpl. split.
      * intros [[Hk | ->] | [s' [Hin ->]]]; auto.
        -- right. exists s. auto.
        -- right. exists s'. auto.
      * intros [Hk | [s' [[Heq | Hin] ->]]]; auto.
        -- inversion Heq; subst. auto.
        -- right. exists s'. auto.
Qed.

Lemma servers_loop_keys brokers :
  forall sv0 sv,
    AsynapiGenerator.servers_loop brokers sv0 = Ok sv ->
    (forall k', In k' (map fst brokers) -> exists b, k' = VStr b)
    /\ (forall k, In k (keys sv) <-> In k (keys sv0) \/ In k (map fst brokers)).
Proof.
  induction brokers as [| [broker evs] rest IH]; intros sv0 sv H; simpl in H.
  - inversion H; subst. split; [intros ? [] |]. intros k. simpl. tauto.
  - destruct (AsynapiGenerator._get_server_config broker evs) as [c|] eqn:Hc;
      cbn [bind] in H; [| discriminate].
    destruct broker; simpl in Hc; try discriminate.
    destruct (IH _ _ H) as [Hstr Hkeys]. split.
    + intros k' [<- | Hin]; [eexists; reflexivity | apply Hstr, Hin].
    + intros k. rewrite Hkeys, keys_dict_set_str. simpl. split.
      * intros [[Hk | ->] | Hin]; auto.
      * intros [Hk | [<- | Hin]]; auto.
Qed.

(** The channel keys of a document are the sanitized channel names of the
    events, whatever their order. *)
Lemma generate_channels_keys events ch :
  AsynapiGenerator._generate_channels events = Ok (VDict ch) ->
  forall k,
    In k (keys ch)
    <-> exists e s, In e events
                    /\ get e "channel_name" (VStr "unknown") = Ok (VStr s)
                    /\ k = VStr (AsynapiGenerator.sanitize s).
Proof.
  unfold AsynapiGenerator._generate_channels. intros H.
  destruct (group_loop "channel_name" (VStr "unknown") events []) as [g|] eqn:Hg;
    cbn [bind] in H; [| discriminate].
  destruct (AsynapiGenerator.channels_loop g []) as [ch'|] eqn:Hl;
    cbn [bind] in H; [| discriminate].
  inversion H; subst ch'.
  destruct (group_loop_keys _ _ _ _ _ Hg) as [_ [Hfrom Hall]].
  destruct (channels_loop_keys _ _ _ Hl) as [Hstr Hkeys].
  intros k. rewrite Hkeys. split.
  - intros [[] | [s [Hin ->]]].
    destruct (Hfrom _ Hin) as [[] | [e [He Hget]]].
    exists e, s. auto.
  - intros [e [s [Hin [Hget ->]]]]. right. exists s. split; [| reflexivity].
    destruct (Hall e Hin) as [k0 [k' [Hget' [Hin' Heq]]]].
    rewrite Hget in Hget'. inversion Hget'; subst k0.
    apply py_eqb_str_r in Heq. subst. exact Hin'.
Qed.

(** The server keys of a document are the brokers of the events. *)
Lemma generate_servers_keys events sv :
  AsynapiGenerator._generate_servers events = Ok (VDict sv) ->
  forall k,
    In k (keys sv)
    <-> exists e, In e events /\ get e "broker" (VStr "unknown") = Ok k.
Proof.
  unfold AsynapiGenerator._generate_servers. intros H.
  destruct (group_loop "broker" (VStr "unknown") events []) as [g|] eqn:Hg;
    cbn [bind] in H; [| discriminate].
  destruct (AsynapiGenerator.servers_loop g []) as [sv'|] eqn:Hl;
    cbn [bind] in H; [| discriminate].
  inversion H; subst sv'.
  destruct (group_loop_keys _ _ _ _ _ Hg) as [_ [Hfrom Hall]].
  destruct (servers_loop_keys _ _ _ Hl) as [Hstr Hkeys].
  intros k. rewrite Hkeys. split.
  - intros [[] | Hin]. destruct (Hfrom _ Hin) as [[] | Hex]. exact Hex.
  - intros [e [Hin Hget]]. right.
    destruct (Hall e Hin) as [k0 [k' [Hget' [Hin' Heq]]]].
    rewrite Hget in Hget'. inversion Hget'; subst k0.
    destruct (Hstr _ Hin') as [b ->].
    apply py_eqb_str_l in Heq. subst. exact Hin'.
Qed.

Lemma generate_servers_dict events sv :
  AsynapiGenerator._generate_servers events = Ok sv -> exists d, sv = VDict d.
Proof.
  unfold AsynapiGenerator._generate_servers. intros H.
  destruct (group_loop "broker" (VStr "unknown") events []) as [g|];
    cbn [bind] in H; [| discriminate].
  destruct (AsynapiGenerator.servers_loop g []) as [d|]; cbn [bind] in H;
    [| discriminate].
  inversion H. exists d. reflexivity.
Qed.

Lemma generate_channels_dict events ch :
  AsynapiGenerator._generate_channels events = Ok ch -> exists d, ch = VDict d.
Proof.
  unfold AsynapiGenerator._generate_channels. intros H.
  destruct (group_loop "channel_name" (VStr "unknown") events []) as [g|];
    cbn [bind] in H; [| discriminate].
  destruct (AsynapiGenerator.channels_loop g []) as [d|]; cbn [bind] in H;
    [| discriminate].
  inversion H. exists d. reflexivity.
Qed.

Lemma generate_spec_sections rt service_name events version_ doc :
  AsynapiGenerator.generate_spec rt service_name events version_ = Ok doc ->
  AsynapiGenerator._generate_servers events = Ok (VDict (section "servers" doc))
  /\ AsynapiGenerator._generate_channels events = Ok (VDict (section "channels" doc)).
Proof.
  unfold AsynapiGenerator.generate_spec. intros H.
  destruct (AsynapiGenerator._generate_info rt service_name events version_);
    cbn [bind] in H; [| discriminate].
  destruct (AsynapiGenerator._generate_servers events) as [sv|] eqn:Hs;
    cbn [bind] in H; [| discriminate].
  destruct (AsynapiGenerator._generate_channels events) as [ch|] eqn:Hc;
    cbn [bind] in H; [| discriminate].
  destruct (AsynapiGenerator._generate_operations events); cbn [bind] in H;
    [| discriminate].
  destruct (AsynapiGenerator._generate_components events); cbn [bind] in H;
    [| discriminate].
  inversion H; subst doc.
  destruct (generate_servers_dict _ _ Hs) as [d ->].
  destruct (generate_channels_dict _ _ Hc) as [d' ->].
  split; reflexivity.
Qed.

(** Permuting the events leaves the channel keys and the server keys of
    the document the same sets. *)
Lemma channel_and_server_keys_order_insensitive
  rt service_name events events' version_ doc doc' :
  Permutation events events' ->
  AsynapiGenerator.generate_spec rt service_name events version_ = Ok doc ->
  AsynapiGenerator.generate_spec rt service_name events' version_ = Ok doc' ->
  (forall k, In k (keys (section "channels" doc))
             <-> In k (keys (section "channels" doc')))
  /\ (forall k, In k (keys (section "servers" doc))
                <-> In k (keys (section "servers" doc'))).
Proof.
  intros Hp H H'.
  destruct (generate_spec_sections _ _ _ _ _ H) as [Hs Hc].
  destruct (generate_spec_sections _ _ _ _ _ H') as [Hs' Hc'].
  split; intros k.
  - rewrite (generate_channels_keys _ _ Hc k), (generate_channels_keys _ _ Hc' k).
    split; intros [e [s [Hin Hrest]]]; exists e, s; split; auto.
    + eapply Permutation_in; eassumption.
    + eapply Permutation_in; [apply Permutation_sym|]; eassumption.
  - rewrite (generate_servers_keys _ _ Hs k), (generate_servers_keys _ _ Hs' k).
    split; intros [e [Hin Hrest]]; exists e; split; auto.
    + eapply Permutation_in; eassumption.
    + eapply Permutation_in; [apply Permutation_sym|]; eassumption.
Qed.

(** ** Generation *)



(** A record without [name] and the three builders: the catalog manager's
    document builder raises a KeyError, the 3.0 generator a ValueError on a
    record without [channel_name], which it reads instead, and the simple
    generator defaults the name to [unknown]. *)
Example nameless_record_and_the_builders :
  CatalogManager._create_specification "example/shop"
    [ obj [ ("broker", VStr "kafka"); ("file", VStr "a.py") ] ]
  = Raise KeyError
  /\ (forall rt,
         AsynapiGenerator.generate_spec rt "shop" [ obj [ ("broker", VStr "kafka") ] ] "1.0.0"
         = Raise ValueError)
  /\ (exists doc,
         Generator.generate
           (obj [ ("events", VList [ obj [ ("broker", VStr "kafka"); ("file", VStr "a.py") ] ]) ])
         = Ok doc
         /\ keys (section "channels" doc) = [ VStr "unknown" ]).
Proof.
  split; [reflexivity |]. split; [intros rt; reflexivity |].
  eexists. split; reflexivity.
Qed.

(** C4 against the code: [order_placed_event] twice and [order_shipped_event]
    once, in two orders.  The channel lists three message references in
    both, while the components hold the messages 0 and 2 in one order and 0
    and 1 in the other: the index of an event is that of the first event
    equal to it. *)
Theorem permuted_duplicates_change_message_ids :
  Permutation [order_placed_event; order_placed_event; order_shipped_event]
              [order_placed_event; order_shipped_event; order_placed_event]
  /\ forall rt,
       exists doc1 doc2,
         AsynapiGenerator.generate_spec rt "shop"
           [order_placed_event; order_placed_event; order_shipped_event] "1.0.0" = Ok doc1
         /\ AsynapiGenerator.generate_spec rt "shop"
              [order_placed_event; order_shipped_event; order_placed_event] "1.0.0" = Ok doc2
         /\ message_ids doc1 = [ VStr "orders_message_0"; VStr "orders_message_2" ]
         /\ message_ids doc2 = [ VStr "orders_message_0"; VStr "orders_message_1" ]
         /\ schema_ids doc1
            = [ VStr "orders_message_0_payload"; VStr "orders_message_2_payload" ]
         /\ schema_ids doc2
            = [ VStr "orders_message_0_payload"; VStr "orders_message_1_payload" ]
         /\ ~ In (VStr "orders_message_1") (message_ids doc1)
         /\ keys (section "messages" (field "orders" (field "channels" doc1)))
            = [ VStr "orders_message_0"; VStr "orders_message_1"; VStr "orders_message_2" ]
         /\ keys (section "channels" doc1) = keys (section "channels" doc2)
         /\ keys (section "servers" doc1) = keys (section "servers" doc2).
Proof.
  split.
  { apply perm_skip, perm_swap. }
  intros rt. eexists. eexists.
  split; [reflexivity |]. split; [reflexivity |].
  repeat (split; [reflexivity |]).
  split.
  { intros [H | [H | []]]; discriminate. }
  repeat split; reflexivity.
Qed.

(** C5 against the code: two runs on the same inputs, and with the same
    clock reading, that iterate the set of repositories in opposite orders
    list the repositories in opposite orders. *)
Theorem set_order_shows_in_repositories :
  exists doc1 doc2,
    AsynapiGenerator.generate_spec (run_forward "2024-05-01T10:00:00")
      "shop" two_repository_events "1.0.0" = Ok doc1
    /\ AsynapiGenerator.generate_spec (run_backward "2024-05-01T10:00:00")
         "shop" two_repository_events "1.0.0" = Ok doc2
    /\ repositories doc1 = VList [ VStr "example/orders"; VStr "example/billing" ]
    /\ repositories doc2 = VList [ VStr "example/billing"; VStr "example/orders" ]
    /\ without_timestamp doc1 <> without_timestamp doc2.
Proof.
  eexists. eexists.
  split; [reflexivity |]. split; [reflexivity |].
  split; [reflexivity |]. split; [reflexivity |].
  vm_compute. discriminate.
Qed.

(** Two runs on the same inputs raise the same exception, or return
    documents that agree outside the timestamp and the order of the
    repositories; with the same set order they agree outside the timestamp. *)
Lemma generate_spec_runs_agree (rt1 rt2 : runtime)
  (service_name : string) (events : list value) (version_ : string) :
  match AsynapiGenerator.generate_spec rt1 service_name events version_,
        AsynapiGenerator.generate_spec rt2 service_name events version_ with
  | Ok doc1, Ok doc2 =>
      without_repositories (without_timestamp doc1)
      = without_repositories (without_timestamp doc2)
      /\ (exists r1 r2,
             repositories doc1 = VList r1 /\ repositories doc2 = VList r2
             /\ Permutation r1 r2)
      /\ ((forall l, set_order rt1 l = set_order rt2 l) ->
          without_timestamp doc1 = without_timestamp doc2)
  | Raise e1, Raise e2 => e1 = e2
  | _, _ => False
  end.
Proof.
  unfold AsynapiGenerator.generate_spec, AsynapiGenerator._generate_info.
  destruct (mapM _ events) as [rs|]; cbn [bind]; [| reflexivity].
  destruct (AsynapiGenerator._generate_servers events); cbn [bind]; [| reflexivity].
  destruct (AsynapiGenerator._generate_channels events); cbn [bind]; [| reflexivity].
  destruct (AsynapiGenerator._generate_operations events); cbn [bind]; [| reflexivity].
  destruct (AsynapiGenerator._generate_components events); cbn [bind]; [| reflexivity].
  split; [reflexivity |]. split.
  - exists (set_order rt1 (distinct rs)), (set_order rt2 (distinct rs)).
    split; [reflexivity |]. split; [reflexivity |].
    eapply Permutation_trans; [apply set_order_perm |].
    apply Permutation_sym, set_order_perm.
  - intros Hsame. unfold without_timestamp. simpl. rewrite Hsame. reflexivity.
Qed.

(** * Further properties of the code *)

(** ** Channel identifiers *)

Lemma map_string_length f s : String.length (map_string f s) = String.length s.
Proof. induction s as [| c s IH]; simpl; [reflexivity | rewrite IH; reflexivity]. Qed.

Lemma replace_removes a b s : a <> b -> contains_char a (replace a b s) = false.
Proof.
  intros Hab. unfold replace. induction s as [| c s IH]; simpl; [reflexivity |].
  rewrite IH, orb_false_r. destruct (Ascii.eqb c a) eqn:E.
  - apply Ascii.eqb_neq. congruence.
  - exact E.
Qed.

Lemma replace_keeps_absent a b c s :
  c <> b -> contains_char c s = false -> contains_char c (replace a b s) = false.
Proof.
  intros Hcb. unfold replace. induction s as [| x s IH]; simpl; [reflexivity |].
  intros H. apply orb_false_iff in H. destruct H as [Hx Hs].
  rewrite (IH Hs), orb_false_r. destruct (Ascii.eqb x a).
  - apply Ascii.eqb_neq. congruence.
  - exact Hx.
Qed.

Lemma replace_absent a b s : contains_char a s = false -> replace a b s = s.
Proof.
  unfold replace. induction s as [| x s IH]; simpl; [reflexivity |].
  intros H. apply orb_false_iff in H. destruct H as [Hx Hs].
  rewrite Hx, (IH Hs). reflexivity.
Qed.

(** [_sanitize_channel_id] leaves no slash, dot or colon, keeps the length,
    and changes nothing in a name that is already an identifier: it is
    idempotent. *)
Theorem sanitize_channel_id_clean (channel_name : string) :
  contains_char "/" (AsynapiGenerator.sanitize channel_name) = false
  /\ contains_char "." (AsynapiGenerator.sanitize channel_name) = false
  /\ contains_char ":" (AsynapiGenerator.sanitize channel_name) = false
  /\ String.length (AsynapiGenerator.sanitize channel_name) = String.length channel_name
  /\ AsynapiGenerator.sanitize (AsynapiGenerator.sanitize channel_name)
     = AsynapiGenerator.sanitize channel_name.
Proof.
  unfold AsynapiGenerator.sanitize.
  assert (contains_char "/" (replace ":" "_" (replace "." "_" (replace "/" "_" channel_name)))
          = false) as H1.
  { apply replace_keeps_absent; [discriminate |].
    apply replace_keeps_absent; [discriminate |].
    apply replace_removes. discriminate. }
  assert (contains_char "." (replace ":" "_" (replace "." "_" (replace "/" "_" channel_name)))
          = false) as H2.
  { apply replace_keeps_absent; [discriminate |]. apply replace_removes. discriminate. }
  assert (contains_char ":" (replace ":" "_" (replace "." "_" (replace "/" "_" channel_name)))
          = false) as H3.
  { apply replace_removes. discriminate. }
  repeat split; try assumption.
  - unfold replace. rewrite !map_string_length. reflexivity.
  - rewrite (replace_absent "/" "_" _ H1), (replace_absent "." "_" _ H2),
      (replace_absent ":" "_" _ H3). reflexivity.
Qed.

(** ** Extracted names and parsed records *)

Lemma first_reasonable_In l s : first_reasonable l = Some s -> In s l /\ reasonable s = true.
Proof.
  induction l as [| x l IH]; simpl; [discriminate |].
  destruct (reasonable x) eqn:E.
  - intros H; inversion H; subst. auto.
  - intros H. destruct (IH H). auto.
Qed.

Lemma extract_loop_shape lms broker_type s :
  extract_loop lms broker_type = Ok s ->
  s = (broker_type ++ "_event")%string
  \/ (all_name s = true /\ reasonable s = true).
Proof.
  induction lms as [| m rest IH]; simpl; intros H.
  - inversion H. auto.
  - destruct (get m "line" (VStr EmptyString)) as [line|]; cbn [bind] in H;
      [| discriminate].
    destruct line; simpl in H; try discriminate.
    destruct (first_reasonable (findall s0)) as [t|] eqn:Hf; [| auto].
    inversion H; subst t. destruct (first_reasonable_In _ _ Hf) as [Hin Hr].
    destruct (findall_sound (String.length s0) s0 s (le_n _) Hin)
      as [pre [q1 [q2 [post [_ [_ [_ [Hall _]]]]]]]].
    auto.
Qed.

(** Whatever the line matches are, a name [_extract_event_name] returns is
    the default [<broker>_event], or a string of characters of
    [a-zA-Z0-9._-] longer than two characters that starts with no
    underscore. *)
Theorem extracted_name_shape (line_matches : value) (broker_type s : string) :
  _extract_event_name line_matches broker_type = Ok s ->
  s = (broker_type ++ "_event")%string
  \/ (all_name s = true /\ 2 < String.length s /\ startswith "_" s = false).
Proof.
  unfold _extract_event_name. intros H.
  destruct (iter line_matches) as [lms|]; cbn [bind] in H; [| discriminate].
  destruct (extract_loop_shape _ _ _ H) as [-> | [Hall Hr]]; [auto |].
  right. unfold reasonable in Hr. apply andb_true_iff in Hr. destruct Hr as [Hlen Hu].
  apply Nat.ltb_lt in Hlen. apply negb_true_iff in Hu. auto.
Qed.

Lemma extracted_name_shape_witness :
  "user.created" = ("generic" ++ "_event")%string
  \/ (all_name "user.created" = true /\ 2 < String.length "user.created"
      /\ startswith "_" "user.created" = false).
Proof.
  apply (extracted_name_shape (VList sample_line_matches) "generic" "user.created").
  reflexivity.
Defined.

Lemma mapM_Forall2 {A B} (f : A -> result B) l l' :
  mapM f l = Ok l' -> Forall2 (fun x y => f x = Ok y) l l'.
Proof.
  revert l'. induction l as [| x l IH]; simpl; intros l' H.
  - inversion H. constructor.
  - destruct (f x) as [y|] eqn:Hy; cbn [bind] in H; [| discriminate].
    destruct (mapM f l) as [ys|]; cbn [bind] in H; [| discriminate].
    inversion H; subst. constructor; auto.
Qed.

Lemma truthy_iter_nonempty v l : truthy v = true -> iter v = Ok l -> l <> [].
Proof.
  destruct v; simpl; try discriminate.
  - destruct s; simpl; [discriminate |]. intros _ H; inversion H. discriminate.
  - destruct l0; [discriminate |]. intros _ H; inversion H. discriminate.
  - destruct d; [discriminate |]. intros _ H; inversion H. discriminate.
Qed.

(** A record [_parse_event] returns has the six fields in their order, the
    broker tag it was parsed under, the name extracted from its line
    matches, and one line number and one line text per line match, in the
    order of the line matches, of which there is at least one. *)
Theorem parse_event_record_shape (m : value) (broker_type : string) (e : value) :
  _parse_event m broker_type = Some e ->
  exists name file repository line_matches lms lines source_code,
    e = obj [ ("name", VStr name);
              ("broker", VStr broker_type);
              ("file", file);
              ("repository", repository);
              ("lines", VList lines);
              ("source_code", VList source_code) ]
    /\ get m "lineMatches" (VList []) = Ok line_matches
    /\ iter line_matches = Ok lms
    /\ lms <> []
    /\ _extract_event_name line_matches broker_type = Ok name
    /\ Forall2 number_of lms lines
    /\ Forall2 text_of lms source_code.
Proof.
  unfold _parse_event.
  destruct (parse_event_body m broker_type) as [r|] eqn:Hb; [| discriminate].
  intros ->. unfold parse_event_body in Hb.
  destruct (get m "file" (VDict [])) as [f|]; cbn [bind] in Hb; [| discriminate].
  destruct (get f "path" (VStr EmptyString)) as [file|]; cbn [bind] in Hb;
    [| discriminate].
  destruct (get m "repository" (VDict [])) as [r|]; cbn [bind] in Hb; [| discriminate].
  destruct (get r "name" (VStr EmptyString)) as [repository|]; cbn [bind] in Hb;
    [| discriminate].
  destruct (get m "lineMatches" (VList [])) as [lmv|]; cbn [bind] in Hb;
    [| discriminate].
  destruct (truthy lmv) eqn:Ht; simpl in Hb; [| discriminate].
  destruct (_extract_event_name lmv broker_type) as [name|] eqn:Hn; cbn [bind] in Hb;
    [| discriminate].
  destruct (iter lmv) as [lms|] eqn:Hi; cbn [bind] in Hb; [| discriminate].
  destruct (mapM (fun lm => get lm "lineNumber" (VInt 0)) lms) as [lines|] eqn:Hl;
    cbn [bind] in Hb; [| discriminate].
  destruct (mapM (fun lm => get lm "line" (VStr EmptyString)) lms) as [src|] eqn:Hs;
    cbn [bind] in Hb; [| discriminate].
  inversion Hb; subst e.
  exists name, file, repository, lmv, lms, lines, src.
  repeat split; auto.
  - eapply truthy_iter_nonempty; eassumption.
  - apply (mapM_Forall2 _ _ _ Hl).
  - apply (mapM_Forall2 _ _ _ Hs).
Qed.

Lemma parse_event_record_shape_witness :
  exists name file repository line_matches lms lines source_code,
    record "user.created" "generic" "a.py" 3
    = obj [ ("name", VStr name);
            ("broker", VStr "generic");
            ("file", file);
            ("repository", repository);
            ("lines", VList lines);
            ("source_code", VList source_code) ]
    /\ get (obj [ ("file", obj [ ("path", VStr "a.py") ]);
                  ("repository", obj [ ("name", VStr "example/orders") ]);
                  ("lineMatches", VList [line_match 3 "emit('user.created')"]) ])
           "lineMatches" (VList []) = Ok line_matches
    /\ iter line_matches = Ok lms
    /\ lms <> []
    /\ _extract_event_name line_matches "generic" = Ok name
    /\ Forall2 number_of lms lines
    /\ Forall2 text_of lms source_code.
Proof.
  apply (parse_event_record_shape
           (obj [ ("file", obj [ ("path", VStr "a.py") ]);
                  ("repository", obj [ ("name", VStr "example/orders") ]);
                  ("lineMatches", VList [line_match 3 "emit('user.created')"]) ])
           "generic").
  reflexivity.
Defined.

(** ** What detection returns *)

Lemma parse_results_In results broker_type e :
  In e (parse_results results broker_type) ->
  exists m, In m results /\ _parse_event m broker_type = Some e.
Proof.
  induction results as [| r rest IH]; simpl; [tauto |].
  destruct (_parse_event r broker_type) as [e'|] eqn:He.
  - intros [<- | Hin].
    + exists r. auto.
    + destruct (IH Hin) as [m [Hm Hp]]. exists m. auto.
  - intros Hin. destruct (IH Hin) as [m [Hm Hp]]. exists m. auto.
Qed.

Lemma collect_events_In repo search_code e :
  In e (collect_events repo search_code) ->
  exists broker_type pats pattern m,
    In (broker_type, pats) patterns /\ In pattern pats
    /\ In m (search_code pattern repo)
    /\ _parse_event m broker_type = Some e.
Proof.
  unfold collect_events. intros H. apply in_flat_map in H.
  destruct H as [[b pats] [Hb H]]. apply in_flat_map in H.
  destruct H as [p [Hp H]]. simpl in H.
  destruct (parse_results_In _ _ _ H) as [m [Hm He]].
  exists b, pats, p, m. auto.
Qed.

Lemma in_queries b p :
  In (b, p) queries <-> exists pats, In (b, pats) patterns /\ In p pats.
Proof.
  unfold queries. rewrite in_flat_map. split.
  - intros [[b' pats] [Hb Hp]]. cbn [fst snd] in Hp. apply in_map_iff in Hp.
    destruct Hp as [p' [Heq Hp]]. inversion Heq; subst. exists pats. auto.
  - intros [pats [Hb Hp]]. exists (b, pats). split; [exact Hb |].
    cbn [fst snd]. apply in_map_iff. exists p. auto.
Qed.

(** The searches are all answered, or there is a first that is not. *)
Lemma first_unanswered search_code repo qs :
  Forall (fun bq : string * string => answered search_code repo (snd bq)) qs
  \/ exists pre b p post e,
       qs = (pre ++ (b, p) :: post)%list
       /\ Forall (fun bq : string * string => answered search_code repo (snd bq)) pre
       /\ answer search_code repo p = Raise e.
Proof.
  induction qs as [| [b p] qs IH]; [left; constructor |].
  destruct (answer search_code repo p) as [ms | e] eqn:E.
  - destruct IH as [H | [pre [b' [p' [post [e [Hq [Hpre Hp]]]]]]]].
    + left. constructor; [exists ms; exact E | exact H].
    + right. exists ((b, p) :: pre), b', p', post, e.
      split; [rewrite Hq; reflexivity |].
      split; [constructor; [exists ms; exact E | exact Hpre] | exact Hp].
  - right. exists [], b, p, qs, e. repeat split; [constructor | exact E].
Qed.

(** Detection on any client.  When every search returns something that
    can be iterated, detection returns records with pairwise distinct keys,
    each parsed from a match that the client returned for a pattern of the
    record's broker type; so the broker of a detected record is one of the
    six types of the pattern table, of which [aws] is one and [aws-sns] or
    [aws-sqs] is not.  When a search raises, or returns what cannot be
    iterated, detection raises its exception, whatever the searches before
    it gave: it returns exactly when every search is answered. *)
Theorem detect_events_provenance
  (repo : string) (search_code : string -> string -> result value) :
  (Forall (fun bq => answered search_code repo (snd bq)) queries ->
   exists events,
     AnyClient.detect_events repo search_code = Ok events
     /\ NoDup (map event_key events)
     /\ (forall e, In e events ->
           exists broker_type pats pattern matches m name,
             In (broker_type, pats) patterns /\ In pattern pats
             /\ answer search_code repo pattern = Ok matches
             /\ In m matches
             /\ _parse_event m broker_type = Some e
             /\ event_key e = Some (name, broker_type)
             /\ In broker_type ["kafka"; "rabbitmq"; "aws"; "pubsub"; "azure"; "generic"]))
  /\ (forall pre broker_type pattern post e,
         queries = (pre ++ (broker_type, pattern) :: post)%list ->
         Forall (fun bq => answered search_code repo (snd bq)) pre ->
         answer search_code repo pattern = Raise e ->
         AnyClient.detect_events repo search_code = Raise e)
  /\ ((exists events, AnyClient.detect_events repo search_code = Ok events)
      <-> Forall (fun bq => answered search_code repo (snd bq)) queries).
Proof.
  assert (Forall (fun bq => answered search_code repo (snd bq)) queries ->
          exists events,
            AnyClient.detect_events repo search_code = Ok events
            /\ NoDup (map event_key events)
            /\ (forall e, In e events ->
                  exists broker_type pats pattern matches m name,
                    In (broker_type, pats) patterns /\ In pattern pats
                    /\ answer search_code repo pattern = Ok matches
                    /\ In m matches
                    /\ _parse_event m broker_type = Some e
                    /\ event_key e = Some (name, broker_type)
                    /\ In broker_type
                         ["kafka"; "rabbitmq"; "aws"; "pubsub"; "azure"; "generic"]))
    as Hok.
  { intros Hall. rewrite (detect_events_answered repo search_code Hall).
    set (client := fun (query : string) (_ : string) => matches_of search_code repo query).
    exists (keep_first [] (collect_events repo client)).
    split; [apply detect_events_total |]. split.
    - rewrite (keep_first_keys _ (collect_events_records repo client) []).
      apply NoDup_filter, first_seen_NoDup.
    - intros e He. apply keep_first_incl in He.
      destruct (collect_events_In _ _ _ He) as [b [pats [p [m [Hb [Hp [Hm Hpe]]]]]]].
      destruct (parse_event_key _ _ _ Hpe) as [n Hn].
      assert (In (b, p) queries) as Hq by (apply in_queries; exists pats; auto).
      destruct (proj1 (Forall_forall _ _) Hall _ Hq) as [ms Hms]. cbn [snd] in Hms.
      exists b, pats, p, ms, m, n. repeat split; auto.
      + unfold client, matches_of in Hm. rewrite Hms in Hm. exact Hm.
      + apply (in_map fst) in Hb. exact Hb. }
  split; [exact Hok |]. split.
  - intros pre b p post e. apply detect_events_raise.
  - split.
    + intros [events Hev].
      destruct (first_unanswered search_code repo queries)
        as [H | [pre [b [p [post [e [Hq [Hpre Hp]]]]]]]]; [exact H |].
      rewrite (detect_events_raise repo search_code pre b p post e Hq Hpre Hp) in Hev.
      discriminate.
    + intros Hall. destruct (Hok Hall) as [events [Hev _]]. exists events. exact Hev.
Qed.

(** Each search of a detection has a query of its own. *)
Example queries_distinct : NoDup (map snd queries) /\ length queries = 23.
Proof.
  split; [| reflexivity].
  repeat (constructor; [simpl; intuition discriminate |]). constructor.
Qed.

(** ** Deduplication of lists that hold more than records *)

Lemma dedup_loop_raises pre :
  Forall is_event_record pre ->
  forall e post x seen acc,
    (getitem e "name" = Raise x
     \/ exists n, getitem e "name" = Ok n /\ getitem e "broker" = Raise x) ->
    dedup_loop (pre ++ e :: post) (map vkey seen) acc = Raise x.
Proof.
  induction 1 as [| a r Ha Hr IH]; intros e post x seen acc He; simpl.
  - destruct He as [Hn | [n [Hn Hb]]].
    + rewrite Hn. reflexivity.
    + rewrite Hn. cbn [bind]. rewrite Hb. reflexivity.
  - unfold is_event_record in Ha.
    destruct (event_key a) as [[n b]|] eqn:Hk; [| congruence].
    destruct (event_key_getitem _ _ _ Hk) as [Hn Hb].
    rewrite Hn, Hb. simpl.
    change (VStr n, VStr b) with (vkey (n, b)).
    rewrite seen_mem_vkey.
    destruct (existsb (pair_eqb (n, b)) seen).
    + apply IH, He.
    + change (vkey (n, b) :: map vkey seen) with (map vkey ((n, b) :: seen)).
      apply IH, He.
Qed.

(** [_deduplicate_events] has no guard of its own: behind any number of
    event records, the first element that is no dictionary makes it raise a
    TypeError, and the first dictionary without [name], or with a name but
    without [broker], a KeyError; nothing is returned for the records in
    front of it. *)
Theorem dedup_raises_on_first_offender
  (pre : list value) (e : value) (post : list value) :
  Forall is_event_record pre ->
  ((forall d, e <> VDict d) -> _deduplicate_events (pre ++ e :: post) = Raise TypeError)
  /\ (forall d, e = VDict d -> lookup (VStr "name") d = None ->
        _deduplicate_events (pre ++ e :: post) = Raise KeyError)
  /\ (forall d n, e = VDict d -> lookup (VStr "name") d = Some n ->
        lookup (VStr "broker") d = None ->
        _deduplicate_events (pre ++ e :: post) = Raise KeyError).
Proof.
  intros Hpre. unfold _deduplicate_events. split; [| split].
  - intros Hnd. apply (dedup_loop_raises pre Hpre e post TypeError [] []).
    left. destruct e; try reflexivity. exfalso. apply (Hnd d). reflexivity.
  - intros d -> Hn. apply (dedup_loop_raises pre Hpre _ post KeyError [] []).
    left. simpl. rewrite Hn. reflexivity.
  - intros d n -> Hn Hb. apply (dedup_loop_raises pre Hpre _ post KeyError [] []).
    right. exists n. simpl. rewrite Hn, Hb. auto.
Qed.

Lemma dedup_raises_on_first_offender_witness :
  ((forall d, obj [ ("broker", VStr "kafka") ] <> VDict d) ->
   _deduplicate_events
     (sample_events ++ obj [ ("broker", VStr "kafka") ] :: sample_events)
   = Raise TypeError)
  /\ (forall d, obj [ ("broker", VStr "kafka") ] = VDict d ->
        lookup (VStr "name") d = None ->
        _deduplicate_events
          (sample_events ++ obj [ ("broker", VStr "kafka") ] :: sample_events)
        = Raise KeyError)
  /\ (forall d n, obj [ ("broker", VStr "kafka") ] = VDict d ->
        lookup (VStr "name") d = Some n ->
        lookup (VStr "broker") d = None ->
        _deduplicate_events
          (sample_events ++ obj [ ("broker", VStr "kafka") ] :: sample_events)
        = Raise KeyError).
Proof.
  apply (dedup_raises_on_first_offender sample_events
           (obj [ ("broker", VStr "kafka") ]) sample_events).
  repeat constructor; discriminate.
Defined.

(** ** The 3.0 generator on events without a channel name *)

Lemma lookup_none_no_key k d :
  lookup k d = None -> forall kv, In kv d -> py_eqb (fst kv) k = false.
Proof.
  induction d as [| [k' v] r IH]; simpl; [intros _ ? [] |].
  destruct (py_eqb k' k) eqn:E; [discriminate |].
  intros H kv [<- | Hin]; [exact E | apply IH; assumption].
Qed.

Lemma lookup_some_key k d v :
  lookup k d = Some v -> exists kv, In kv d /\ py_eqb (fst kv) k = true.
Proof.
  induction d as [| [k' v'] r IH]; simpl; [discriminate |].
  destruct (py_eqb k' k) eqn:E.
  - intros _. exists (k', v'). auto.
  - intros H. destruct (IH H) as [kv [Hin Hk]]. exists kv. auto.
Qed.

(** A dictionary that has the key is never equal to one that has not. *)
Lemma py_eqb_key_mismatch a dy d v :
  lookup (VStr a) dy = Some v -> lookup (VStr a) d = None ->
  py_eqb (VDict dy) (VDict d) = false.
Proof.
  intros Hy Hd. simpl. apply andb_false_iff. right.
  destruct (lookup_some_key _ _ _ Hy) as [[k w] [Hin Hk]]. simpl in Hk.
  apply py_eqb_str_r in Hk. subst k.
  destruct (forallb _ dy) eqn:F; [| reflexivity].
  rewrite forallb_forall in F. specialize (F _ Hin). simpl in F.
  apply existsb_exists in F. destruct F as [kv' [Hin' F]].
  apply andb_true_iff in F. destruct F as [F _].
  apply py_eqb_str_l in F.
  pose proof (lookup_none_no_key _ _ Hd kv' Hin') as Hno.
  rewrite F in Hno. simpl in Hno. rewrite String.eqb_refl in Hno. discriminate.
Qed.

Lemma same_channel_members events c g :
  AsynapiGenerator.same_channel events c = Ok g ->
  forall y, In y g ->
    exists c', get y "channel_name" VNone = Ok c' /\ py_eqb c' c = true.
Proof.
  revert g. induction events as [| e rest IH]; simpl; intros g H.
  - inversion H. intros y [].
  - destruct (get e "channel_name" VNone) as [c0|] eqn:Hc; cbn [bind] in H;
      [| discriminate].
    destruct (AsynapiGenerator.same_channel rest c) as [r|]; cbn [bind] in H;
      [| discriminate].
    inversion H; subst g. destruct (py_eqb c0 c) eqn:E.
    + intros y [<- | Hin]; [exists c0; auto | apply (IH r eq_refl y Hin)].
    + apply (IH r eq_refl).
Qed.

Lemma index_absent x g :
  (forall y, In y g -> py_eqb y x = false) -> index x g = Raise ValueError.
Proof.
  induction g as [| y g IH]; simpl; intros H; [reflexivity |].
  rewrite (H y) by auto. rewrite IH; [reflexivity |]. intros z Hz. apply H. auto.
Qed.

Lemma components_loop_needs_channel_name events e :
  lacks_channel_name e ->
  forall todo, In e todo ->
    forall messages schemas,
      exists x, AsynapiGenerator.components_loop events todo messages schemas = Raise x.
Proof.
  intros [d [-> Hd]]. induction todo as [| e0 rest IH]; intros Hin messages schemas;
    [contradiction |].
  destruct Hin as [-> | Hin].
  - simpl. rewrite Hd. cbn [bind]. simpl.
    destruct (AsynapiGenerator.same_channel events (VStr "unknown")) as [g|] eqn:Hg;
      cbn [bind]; [| eexists; reflexivity].
    rewrite index_absent; [eexists; reflexivity |].
    intros y Hy. destruct (same_channel_members _ _ _ Hg y Hy) as [c' [Hc' Heq]].
    apply py_eqb_str_r in Heq. subst c'.
    destruct y; simpl in Hc'; try discriminate.
    destruct (lookup (VStr "channel_name") d0) as [v|] eqn:Hl; [| discriminate].
    inversion Hc'; subst v.
    apply (py_eqb_key_mismatch _ _ _ _ Hl Hd).
  - simpl.
    destruct (get e0 "channel_name" (VStr "unknown")); cbn [bind];
      [| eexists; reflexivity].
    destruct (AsynapiGenerator._sanitize_channel_id a); cbn [bind];
      [| eexists; reflexivity].
    destruct (get e0 "message_type" (VStr "Unknown")); cbn [bind];
      [| eexists; reflexivity].
    destruct (AsynapiGenerator.same_channel events a); cbn [bind];
      [| eexists; reflexivity].
    destruct (index e0 a2); cbn [bind]; [| eexists; reflexivity].
    destruct (get e0 "repository" (VStr EmptyString)); cbn [bind];
      [| eexists; reflexivity].
    destruct (get e0 "file_path" (VStr EmptyString)); cbn [bind];
      [| eexists; reflexivity].
    destruct (get e0 "line_number" (VInt 0)); cbn [bind]; [| eexists; reflexivity].
    destruct (AsynapiGenerator._create_schema e0); cbn [bind];
      [| eexists; reflexivity].
    apply IH, Hin.
Qed.

Lemma generate_spec_fails_without_channel_name
  (rt : runtime) (service_name : string) (events : list value) (version_ : string)
  (e : value) :
  In e events -> lacks_channel_name e ->
  exists x, AsynapiGenerator.generate_spec rt service_name events version_ = Raise x.
Proof.
  intros Hin He. unfold AsynapiGenerator.generate_spec.
  destruct (AsynapiGenerator._generate_info rt service_name events version_);
    cbn [bind]; [| eexists; reflexivity].
  destruct (AsynapiGenerator._generate_servers events); cbn [bind];
    [| eexists; reflexivity].
  destruct (AsynapiGenerator._generate_channels events); cbn [bind];
    [| eexists; reflexivity].
  destruct (AsynapiGenerator._generate_operations events); cbn [bind];
    [| eexists; reflexivity].
  unfold AsynapiGenerator._generate_components.
  destruct (components_loop_needs_channel_name events e He events Hin [] []) as [x Hx].
  rewrite Hx. eexists; reflexivity.
Qed.

(** [generate_spec] returns no document for a list that holds an event
    without [channel_name]: the channel and operation sections default the
    name to [unknown], but the lookup of the event among the events of its
    channel does not, so the event is not found and a ValueError, or an
    earlier exception, ends the generation. *)
Theorem generate_spec_needs_channel_name
  (rt : runtime) (service_name : string) (events : list value) (version_ : string)
  (e : value) :
  In e events -> lacks_channel_name e ->
  exists x, AsynapiGenerator.generate_spec rt service_name events version_ = Raise x.
Proof. apply generate_spec_fails_without_channel_name. Qed.

Lemma generate_spec_needs_channel_name_witness :
  exists x,
    AsynapiGenerator.generate_spec (run_forward "2024-05-01T10:00:00") "shop"
      [ order_placed_event; obj [ ("broker", VStr "kafka") ] ] "1.0.0"
    = Raise x.
Proof.
  apply (generate_spec_needs_channel_name (run_forward "2024-05-01T10:00:00") "shop"
           [ order_placed_event; obj [ ("broker", VStr "kafka") ] ] "1.0.0"
           (obj [ ("broker", VStr "kafka") ])).
  - right. left. reflexivity.
  - exists [ (VStr "broker", VStr "kafka") ]. split; reflexivity.
Defined.

(** ** The catalog manager on detector records *)

Lemma parse_event_fields m broker_type e :
  _parse_event m broker_type = Some e ->
  exists name file repository lines source_code,
    e = obj [ ("name", VStr name);
              ("broker", VStr broker_type);
              ("file", file);
              ("repository", repository);
              ("lines", VList lines);
              ("source_code", VList source_code) ].
Proof.
  unfold _parse_event.
  destruct (parse_event_body m broker_type) as [r|] eqn:Hb; [| discriminate].
  intros ->. unfold parse_event_body in Hb.
  repeat case_bind Hb;
    match type of Hb with
    | context [if ?c then _ else _] => destruct c
    end;
    try discriminate; inversion Hb; subst; repeat eexists.
Qed.

Lemma parsed_detector_record m broker_type e :
  _parse_event m broker_type = Some e -> detector_record e /\ lacks_channel_name e /\ named e.
Proof.
  intros H. destruct (parse_event_fields _ _ _ H) as [n [f [r [l [s ->]]]]].
  split; [| split].
  - exists n, broker_type, f. repeat split; reflexivity.
  - eexists. split; reflexivity.
  - exists (VStr n). split; reflexivity.
Qed.

Lemma detection_yields_records repo search_code :
  Forall (fun e => detector_record e /\ lacks_channel_name e /\ named e)
         (keep_first [] (collect_events repo search_code)).
Proof.
  apply Forall_forall. intros e He. apply keep_first_incl in He.
  destruct (collect_events_In _ _ _ He) as [b [pats [p [m [_ [_ [_ Hpe]]]]]]].
  apply (parsed_detector_record _ _ _ Hpe).
Qed.

Lemma group_loop_total fieldname default events :
  Forall (fun e => exists k, get e fieldname default = Ok k /\ hashable k = true) events ->
  forall g0, exists g, group_loop fieldname default events g0 = Ok g.
Proof.
  induction 1 as [| e rest [k [Hk Hh]] Hrest IH]; intros g0; simpl.
  - exists g0. reflexivity.
  - rewrite Hk. cbn [bind]. rewrite Hh. apply IH.
Qed.

Lemma catalog_servers_loop_keys brokers :
  (forall k, In k (map fst brokers) -> exists b, k = VStr b) ->
  forall sv0,
    exists sv,
      CatalogManager.servers_loop brokers sv0 = Ok sv
      /\ (forall k, In k (keys sv)
                    <-> In k (keys sv0)
                        \/ exists b, In (VStr b) (map fst brokers)
                                     /\ k = VStr (b ++ "_server")).
Proof.
  induction brokers as [| [broker evs] rest IH]; intros Hstr sv0; simpl.
  - exists sv0. split; [reflexivity |]. intros k. split; [auto |].
    intros [H | [b [[] _]]]. exact H.
  - destruct (Hstr broker) as [b ->]; [simpl; auto |].
    destruct (IH (fun k Hk => Hstr k (or_intror Hk))
                 (dict_set (VStr (str (VStr b) ++ "_server"))
                           (obj [ ("url", VStr (b ++ "://localhost"));
                                  ("protocol", VStr b);
                                  ("description", VStr (upper b ++ " broker")) ])
                           sv0)) as [sv [Hsv Hkeys]].
    exists sv. split; [exact Hsv |].
    intros k. rewrite Hkeys, keys_dict_set_str. simpl. split.
    + intros [[H | ->] | [b' [Hin ->]]]; auto.
      * right. exists b. auto.
      * right. exists b'. auto.
    + intros [H | [b' [[Heq | Hin] ->]]]; auto.
      * inversion Heq; subst. auto.
      * right. exists b'. auto.
Qed.

Lemma catalog_events_loop_keys events :
  Forall detector_record events ->
  forall channels messages schemas,
    exists channels' messages' schemas',
      CatalogManager.events_loop events channels messages schemas
      = Ok (channels', messages', schemas')
      /\ (forall k, In k (keys channels')
                    <-> In k (keys channels)
                        \/ exists e, In e events /\ getitem e "name" = Ok k).
Proof.
  induction 1 as [| e rest [n [b [f [Hn [Hb Hf]]]]] Hrest IH];
    intros channels messages schemas; simpl.
  - exists channels, messages, schemas. split; [reflexivity |].
    intros k. split; [auto | intros [H | [e [[] _]]]; exact H].
  - rewrite Hn. cbn [bind]. simpl. rewrite Hf. cbn [bind].
    match goal with
    | |- context [CatalogManager.events_loop rest ?c ?m ?s] =>
        destruct (IH c m s) as [c' [m' [s' [Hloop Hkeys]]]]
    end.
    exists c', m', s'. split; [exact Hloop |].
    intros k. rewrite Hkeys, keys_dict_set_str. split.
    + intros [[H | ->] | [e' [Hin He']]]; auto.
      * right. exists e. auto.
      * right. exists e'. auto.
    + intros [H | [e' [[<- | Hin] He']]]; auto.
      * rewrite Hn in He'. inversion He'. auto.
      * right. exists e'. auto.
Qed.

Lemma create_specification_total repo events :
  Forall detector_record events ->
  exists doc,
    CatalogManager._create_specification repo events = Ok doc
    /\ (forall k, In k (keys (section "channels" doc))
                  <-> exists e, In e events /\ getitem e "name" = Ok k)
    /\ (forall k, In k (keys (section "servers" doc))
                  <-> exists e b, In e events
                                  /\ get e "broker" (VStr "generic") = Ok (VStr b)
                                  /\ k = VStr (b ++ "_server")).
Proof.
  intros Hrec. unfold CatalogManager._create_specification,
    CatalogManager._group_events_by_broker.
  assert (Forall (fun e => exists k, get e "broker" (VStr "generic") = Ok k
                                     /\ hashable k = true) events) as Hb.
  { eapply Forall_impl; [| exact Hrec]. intros e [n [b [f [_ [Hb _]]]]].
    exists (VStr b). auto. }
  destruct (group_loop_total _ _ _ Hb []) as [g Hg]. rewrite Hg. cbn [bind].
  destruct (group_loop_keys _ _ _ _ _ Hg) as [_ [Hfrom Hall]].
  assert (forall k, In k (map fst g) -> exists b, k = VStr b) as Hstr.
  { intros k Hk. destruct (Hfrom k Hk) as [[] | [e [He Hget]]].
    rewrite Forall_forall in Hrec. destruct (Hrec e He) as [n [b [f [_ [Hb' _]]]]].
    rewrite Hb' in Hget. inversion Hget. eexists; reflexivity. }
  destruct (catalog_servers_loop_keys g Hstr []) as [sv [Hsv Hskeys]].
  rewrite Hsv. cbn [bind].
  destruct (catalog_events_loop_keys events Hrec [] [] []) as [c [ms [ss [Hloop Hckeys]]]].
  rewrite Hloop. cbn [bind]. eexists. split; [reflexivity |]. split.
  - intros k. change (In k (keys c) <-> exists e, In e events /\ getitem e "name" = Ok k).
    rewrite Hckeys. split; [intros [[] | H]; exact H | auto].
  - intros k.
    change (In k (keys sv)
            <-> exists e b, In e events
                            /\ get e "broker" (VStr "generic") = Ok (VStr b)
                            /\ k = VStr (b ++ "_server")).
    rewrite Hskeys. split.
    + intros [[] | [b [Hin ->]]]. destruct (Hfrom _ Hin) as [[] | [e [He Hget]]].
      exists e, b. auto.
    + intros [e [b [He [Hget ->]]]]. right. exists b. split; [| reflexivity].
      destruct (Hall e He) as [k0 [k' [Hget' [Hin' Heq]]]].
      rewrite Hget in Hget'. inversion Hget'; subst k0.
      apply py_eqb_str_r in Heq. subst. exact Hin'.
Qed.

(** On records that have a string name, a string broker and a file, as the
    parser builds them, [_create_specification] returns a document; its
    channels are keyed by the names of the records and its servers by
    [<broker>_server] for the brokers of the records, nothing more and
    nothing less. *)
Theorem create_specification_on_detector_records (repo : string) (events : list value) :
  Forall detector_record events ->
  exists doc,
    CatalogManager._create_specification repo events = Ok doc
    /\ (forall k, In k (keys (section "channels" doc))
                  <-> exists e, In e events /\ getitem e "name" = Ok k)
    /\ (forall k, In k (keys (section "servers" doc))
                  <-> exists e b, In e events
                                  /\ get e "broker" (VStr "generic") = Ok (VStr b)
                                  /\ k = VStr (b ++ "_server")).
Proof. apply create_specification_total. Qed.

Lemma create_specification_on_detector_records_witness :
  exists doc,
    CatalogManager._create_specification "example/orders" sample_events = Ok doc
    /\ (forall k, In k (keys (section "channels" doc))
                  <-> exists e, In e sample_events /\ getitem e "name" = Ok k)
    /\ (forall k, In k (keys (section "servers" doc))
                  <-> exists e b, In e sample_events
                                  /\ get e "broker" (VStr "generic") = Ok (VStr b)
                                  /\ k = VStr (b ++ "_server")).
Proof.
  apply (create_specification_on_detector_records "example/orders" sample_events).
  repeat constructor; do 3 eexists; repeat split; reflexivity.
Defined.

(** The pipeline of [main.py]: whatever the client answers, detection
    returns and the catalog manager builds a document from what it returns;
    the simple generator accepts the detected records too, while the 3.0
    generator raises on every non-empty detection result, the records
    having no [channel_name]. *)
Theorem detected_events_and_the_generators
  (repo : string) (search_code : string -> string -> list value) :
  exists events doc doc',
    detect_events repo search_code = Ok events
    /\ CatalogManager._create_specification repo events = Ok doc
    /\ Generator.generate (obj [ ("events", VList events) ]) = Ok doc'
    /\ (events <> [] ->
        forall rt service_name version_,
          exists x, AsynapiGenerator.generate_spec rt service_name events version_
                    = Raise x).
Proof.
  pose proof (detection_yields_records repo search_code) as Hrec.
  set (events := keep_first [] (collect_events repo search_code)) in *.
  assert (Forall detector_record events) as Hd
    by (eapply Forall_impl; [| exact Hrec]; intros e [H _]; exact H).
  assert (Forall named events) as Hn
    by (eapply Forall_impl; [| exact Hrec]; intros e [_ [_ H]]; exact H).
  destruct (create_specification_total repo events Hd) as [doc [Hdoc _]].
  destruct (generator_channels_loop_total events Hn []) as [ch [Hch _]].
  exists events, doc,
    (VDict (dict_set (VStr "channels") (VDict ch) Generator._create_base_spec)).
  split; [apply detect_events_total |]. split; [exact Hdoc |]. split.
  - unfold Generator.generate. simpl. rewrite Hch. reflexivity.
  - intros Hne rt service_name version_.
    destruct events as [| e rest]; [congruence |].
    apply (generate_spec_fails_without_channel_name rt service_name (e :: rest)
             version_ e); [left; reflexivity |].
    inversion Hrec as [| ? ? [_ [Hl _]] _]; subst. exact Hl.
Qed.

(** ** The local scanner *)

Lemma prefix_split a s : String.prefix a s = true -> exists post, s = (a ++ post)%string.
Proof.
  revert s. induction a as [| c a IH]; intros s H.
  - exists s. reflexivity.
  - destruct s as [| d s]; simpl in H; [discriminate |].
    destruct (ascii_dec c d) as [-> |]; [| discriminate].
    destruct (IH s H) as [post ->]. exists post. reflexivity.
Qed.

Lemma prefix_app a post : String.prefix a (a ++ post) = true.
Proof.
  induction a as [| c a IH]; simpl.
  - destruct post; reflexivity.
  - destruct (ascii_dec c c); [exact IH | congruence].
Qed.

(** [is_substring] is the substring test. *)
Lemma is_substring_split sub s :
  Scanner.is_substring sub s = true
  <-> exists pre post, s = (pre ++ sub ++ post)%string.
Proof.
  split.
  - induction s as [| c s IH]; cbn [Scanner.is_substring]; intros H.
    + rewrite orb_false_r in H. destruct (prefix_split _ _ H) as [post Hp].
      exists EmptyString, post. exact Hp.
    + apply orb_true_iff in H. destruct H as [H | H].
      * destruct (prefix_split _ _ H) as [post Hp]. exists EmptyString, post. exact Hp.
      * destruct (IH H) as [pre [post ->]]. exists (String c pre), post. reflexivity.
  - intros [pre [post ->]]. induction pre as [| c pre IH].
    + change (EmptyString ++ sub ++ post)%string with (sub ++ post)%string.
      destruct (sub ++ post)%string eqn:E; cbn [Scanner.is_substring];
        rewrite <- E, prefix_app; reflexivity.
    + change (String c pre ++ sub ++ post)%string
        with (String c (pre ++ sub ++ post)).
      cbn [Scanner.is_substring]. rewrite IH. apply orb_true_r.
Qed.

Lemma count_char_app a s t :
  count_char a (s ++ t) = count_char a s + count_char a t.
Proof. induction s as [| c s IH]; simpl; [reflexivity | rewrite IH; lia]. Qed.

Lemma count_char_absent a s : contains_char a s = false -> count_char a s = 0.
Proof.
  induction s as [| c s IH]; simpl; [reflexivity |].
  intros H. apply orb_false_iff in H. destruct H as [Hc Hs].
  rewrite Hc, (IH Hs). reflexivity.
Qed.

Lemma skip_patterns_directories pat :
  In pat Scanner.skip_patterns
  <-> exists dir, In dir skipped_directories /\ pat = ("/" ++ dir ++ "/")%string.
Proof.
  split.
  - intros H. simpl in H.
    destruct H as [<- | [<- | [<- | [<- | [<- | [<- | [<- | [<- | []]]]]]]]];
      [ exists "test" | exists "tests" | exists "__pycache__" | exists "node_modules"
      | exists "venv" | exists ".git" | exists "dist" | exists "build" ];
      (split; [simpl; tauto | reflexivity]).
  - intros [dir [H ->]]. simpl in H.
    destruct H as [<- | [<- | [<- | [<- | [<- | [<- | [<- | [<- | []]]]]]]]];
      simpl; tauto.
Qed.

(** [_should_skip] is a test on the text of the path: a path is skipped
    exactly when one of the patterns, a directory name between two slashes,
    occurs in it.  So a file under a directory named [tests] is skipped
    when something, were it the root slash, stands in front of the
    directory, and is not skipped when the path starts with the directory,
    as the paths of a scan of the current directory do. *)
Theorem should_skip_is_textual (path_str : string) :
  (Scanner._should_skip path_str = true
   <-> exists dir pre post,
         In dir skipped_directories
         /\ path_str = (pre ++ ("/" ++ dir ++ "/") ++ post)%string)
  /\ (forall dir file_name,
         In dir skipped_directories ->
         contains_char "/" file_name = false ->
         Scanner._should_skip (dir ++ "/" ++ file_name) = false
         /\ Scanner._should_skip (path_str ++ "/" ++ dir ++ "/" ++ file_name) = true).
Proof.
  assert (forall p, Scanner._should_skip p = true
                    <-> exists dir pre post,
                          In dir skipped_directories
                          /\ p = (pre ++ ("/" ++ dir ++ "/") ++ post)%string) as Hiff.
  { intros p. unfold Scanner._should_skip. rewrite existsb_exists. split.
    - intros [pat [Hin Hsub]]. apply is_substring_split in Hsub.
      destruct Hsub as [pre [post ->]].
      apply skip_patterns_directories in Hin. destruct Hin as [dir [Hdir ->]].
      exists dir, pre, post. auto.
    - intros [dir [pre [post [Hin ->]]]].
      exists ("/" ++ dir ++ "/")%string. split.
      + apply skip_patterns_directories. exists dir. auto.
      + apply is_substring_split. exists pre, post. reflexivity. }
  split; [apply Hiff |].
  intros dir file_name Hdir Hname. split.
  - destruct (Scanner._should_skip (dir ++ "/" ++ file_name)) eqn:E; [| reflexivity].
    apply Hiff in E. destruct E as [dir' [pre [post [Hin' Heq]]]].
    apply (f_equal (count_char "/")) in Heq.
    repeat (rewrite ?count_char_app in Heq; simpl in Heq).
    rewrite (count_char_absent _ _ Hname) in Heq.
    assert (count_char "/" dir = 0) as Hd.
    { simpl in Hdir.
      destruct Hdir as [<- | [<- | [<- | [<- | [<- | [<- | [<- | [<- | []]]]]]]]];
        reflexivity. }
    rewrite Hd in Heq. lia.
  - apply Hiff. exists dir, path_str, file_name. split; [exact Hdir |].
    rewrite !append_assoc. reflexivity.
Qed.

Lemma text_span_spec s t rest :
  Scanner.text_span s = (t, rest) ->
  s = (t ++ rest)%string /\ no_quote t = true.
Proof.
  revert t rest. induction s as [| c s IH]; simpl; intros t rest H.
  - inversion H; subst. auto.
  - destruct (is_quote c) eqn:E.
    + inversion H; subst. auto.
    + destruct (Scanner.text_span s) as [t' rest'] eqn:Hs. inversion H; subst.
      destruct (IH _ _ eq_refl) as [Heq Hnq]. simpl. rewrite E, Hnq, <- Heq. auto.
Qed.

(** A captured group is not empty and holds no quote. *)
Lemma match_call_name word s name after :
  Scanner.match_call word s = Some (name, after) ->
  name <> EmptyString /\ no_quote name = true.
Proof.
  unfold Scanner.match_call.
  destruct (Scanner.strip_prefix word s) as [r1|]; [| discriminate].
  destruct (Scanner.skip_spaces r1) as [| p r2]; [discriminate |].
  destruct (Ascii.eqb p "("); [| discriminate].
  destruct (Scanner.skip_spaces r2) as [| q r3]; [discriminate |].
  destruct (is_quote q); [| discriminate].
  destruct (Scanner.text_span r3) as [t rest] eqn:Ht.
  destruct t as [| c t]; [discriminate |].
  destruct rest as [| q' after']; [discriminate |].
  intros H; inversion H; subst.
  destruct (text_span_spec _ _ _ Ht) as [_ Hnq]. split; [discriminate | exact Hnq].
Qed.

Lemma finditer_from_names word fuel :
  forall s name,
    In name (Scanner.finditer_from fuel word s) ->
    name <> EmptyString /\ no_quote name = true.
Proof.
  induction fuel as [| fuel IH]; intros s name; simpl; [tauto |].
  destruct s as [| c r]; [intros [] |].
  destruct (Scanner.match_call word (String c r)) as [[n after]|] eqn:Hm.
  - intros [<- | Hin]; [apply (match_call_name _ _ _ _ Hm) | apply (IH _ _ Hin)].
  - apply IH.
Qed.

Lemma scan_file_events file_path content e :
  In e (Scanner._scan_file file_path content) ->
  exists event_name,
    e = scanned_event file_path event_name
    /\ event_name <> EmptyString /\ no_quote event_name = true.
Proof.
  destruct content as [text|]; [| intros []].
  unfold Scanner._scan_file.
  intros H. apply in_flat_map in H. destruct H as [word [_ H]].
  apply in_map_iff in H. destruct H as [n [<- Hn]].
  exists n. split; [reflexivity |].
  apply (finditer_from_names _ _ _ _ Hn).
Qed.

(** What the inner loop adds to the state. *)
Lemma scan_files_spec found :
  forall p,
    let p' := Scanner.scan_files found p in
    Scanner.total_files_scanned p' = Scanner.total_files_scanned p
    /\ Scanner.producers_found p' + length (Scanner.events p)
       = Scanner.producers_found p + length (Scanner.events p')
    /\ length (Scanner.files p') <= length (Scanner.files p) + length found
    /\ length (Scanner.files p') + length (Scanner.events p)
       <= length (Scanner.files p) + length (Scanner.events p')
    /\ (forall e, In e (Scanner.events p') ->
          In e (Scanner.events p)
          \/ exists f c, In (f, c) found /\ Scanner._should_skip f = false
                         /\ In e (Scanner._scan_file f c))
    /\ (forall f, In f (Scanner.files p') ->
          In f (Scanner.files p)
          \/ (Scanner._should_skip f = false
              /\ exists c, In (f, c) found /\ Scanner._scan_file f c <> [])).
Proof.
  induction found as [| [f c] rest IH]; intros p; simpl.
  - repeat split; auto; lia.
  - destruct (Scanner._should_skip f) eqn:Hskip.
    + destruct (IH p) as [H1 [H2 [H3 [H4 [H5 H6]]]]]. repeat split; auto; try lia.
      * intros e He. destruct (H5 e He) as [H | [f' [c' [Hin H]]]]; auto.
        right. exists f', c'. auto.
      * intros f' Hf. destruct (H6 f' Hf) as [H | [Hs [c' [Hin H]]]]; auto.
        right. split; [exact Hs |]. exists c'. auto.
    + destruct (Scanner._scan_file f c) as [| e0 evs] eqn:Hev.
      * destruct (IH p) as [H1 [H2 [H3 [H4 [H5 H6]]]]]. repeat split; auto; try lia.
        -- intros e He. destruct (H5 e He) as [H | [f' [c' [Hin H]]]]; auto.
           right. exists f', c'. auto.
        -- intros f' Hf. destruct (H6 f' Hf) as [H | [Hs [c' [Hin H]]]]; auto.
           right. split; [exact Hs |]. exists c'. auto.
      * match goal with
        | |- context [Scanner.scan_files rest ?q] =>
            destruct (IH q) as [H1 [H2 [H3 [H4 [H5 H6]]]]]
        end.
        cbn [Scanner.events Scanner.files Scanner.total_files_scanned
             Scanner.producers_found] in H1, H2, H3, H4, H5, H6.
        rewrite length_app in H2, H4. rewrite length_app in H3, H4.
        assert (length (e0 :: evs) = S (length evs)) as Hl by reflexivity.
        assert (length [f] = 1) as Hl1 by reflexivity.
        repeat split; auto; try lia.
        -- intros e He. destruct (H5 e He) as [H | [f' [c' [Hin H]]]].
           ++ apply in_app_or in H. destruct H as [H | H]; auto.
              right. exists f, c. rewrite Hev. auto.
           ++ right. exists f', c'. auto.
        -- intros f' Hf. destruct (H6 f' Hf) as [H | [Hs [c' [Hin H]]]].
           ++ apply in_app_or in H. destruct H as [H | [<- | []]]; auto.
              right. split; [exact Hskip |]. exists c. rewrite Hev.
              split; [auto | discriminate].
           ++ right. split; [exact Hs |]. exists c'. auto.
Qed.

Lemma scan_extensions_spec rglob exts :
  forall p,
    let p' := Scanner.scan_extensions rglob exts p in
    Scanner.total_files_scanned p'
    = Scanner.total_files_scanned p + list_sum (map (fun ext => length (rglob ext)) exts)
    /\ Scanner.producers_found p' + length (Scanner.events p)
       = Scanner.producers_found p + length (Scanner.events p')
    /\ length (Scanner.files p')
       <= length (Scanner.files p) + list_sum (map (fun ext => length (rglob ext)) exts)
    /\ length (Scanner.files p') + length (Scanner.events p)
       <= length (Scanner.files p) + length (Scanner.events p')
    /\ (forall e, In e (Scanner.events p') ->
          In e (Scanner.events p)
          \/ exists ext f c, In ext exts /\ In (f, c) (rglob ext)
                             /\ Scanner._should_skip f = false
                             /\ In e (Scanner._scan_file f c))
    /\ (forall f, In f (Scanner.files p') ->
          In f (Scanner.files p)
          \/ (Scanner._should_skip f = false
              /\ exists ext c, In ext exts /\ In (f, c) (rglob ext)
                               /\ Scanner._scan_file f c <> [])).
Proof.
  induction exts as [| ext rest IH]; intros p; simpl.
  - repeat split; auto; lia.
  - match goal with
    | |- context [Scanner.scan_files (rglob ext) ?q] =>
        pose proof (scan_files_spec (rglob ext) q) as Hf;
        destruct (IH (Scanner.scan_files (rglob ext) q)) as [H1 [H2 [H3 [H4 [H5 H6]]]]]
    end.
    simpl in Hf. destruct Hf as [F1 [F2 [F3 [F4 [F5 F6]]]]].
    repeat split; try lia.
    + intros e He. destruct (H5 e He) as [H | [ext' [f [c [Hext H]]]]].
      * destruct (F5 e H) as [H' | [f [c [Hin H']]]]; auto.
        right. exists ext, f, c. tauto.
      * right. exists ext', f, c. tauto.
    + intros f Hfin. destruct (H6 f Hfin) as [H | [Hs [ext' [c [Hext H]]]]].
      * destruct (F6 f H) as [H' | [Hs [c [Hin H']]]]; auto.
        right. split; [exact Hs |]. exists ext, c. tauto.
      * right. split; [exact Hs |]. exists ext', c. tauto.
Qed.

Lemma scan_counts_and_events_aux rglob :
  Scanner.scan rglob
  = obj [ ("events", VList (Scanner.events (Scanner.scan_state rglob)));
          ("files", VList (map VStr (Scanner.files (Scanner.scan_state rglob))));
          ("statistics",
           obj [ ("total_files_scanned",
                  VInt (Z.of_nat (Scanner.total_files_scanned (Scanner.scan_state rglob))));
                 ("producers_found",
                  VInt (Z.of_nat (Scanner.producers_found (Scanner.scan_state rglob)))) ]) ]
  /\ (forall e, In e (Scanner.events (Scanner.scan_state rglob)) ->
         exists f event_name, e = scanned_event f event_name).
Proof.
  split; [reflexivity |].
  pose proof (scan_extensions_spec rglob Scanner.supported_extensions
                {| Scanner.events := []; Scanner.files := [];
                   Scanner.total_files_scanned := 0; Scanner.producers_found := 0 |})
    as H.
  cbv zeta in H. fold (Scanner.scan_state rglob) in H.
  destruct H as [_ [_ [_ [_ [H5 _]]]]].
  intros e He. destruct (H5 e He) as [[] | [ext [f [c [_ [_ [_ Hev]]]]]]].
  destruct (scan_file_events _ _ _ Hev) as [n [-> _]]. exists f, n. reflexivity.
Qed.

(** The dictionary [scan] returns: [producers_found] is the number of
    events; [total_files_scanned] is the number of files of the five
    extensions found, the skipped and the unreadable ones included; a file
    is listed only if it is not skipped and contributed an event, so there
    are no more files than events or than files found; and every event
    comes from a file that is not skipped, with a name that is not empty
    and holds no quote. *)
Theorem scan_counts_and_events (rglob : string -> list (string * option string)) :
  exists evs fs,
    Scanner.scan rglob
    = obj [ ("events", VList evs);
            ("files", VList (map VStr fs));
            ("statistics",
             obj [ ("total_files_scanned",
                    VInt (Z.of_nat (list_sum (map (fun ext => length (rglob ext))
                                                  Scanner.supported_extensions))));
                   ("producers_found", VInt (Z.of_nat (length evs))) ]) ]
    /\ length fs <= length evs
    /\ length fs <= list_sum (map (fun ext => length (rglob ext))
                                  Scanner.supported_extensions)
    /\ (forall f, In f fs ->
          Scanner._should_skip f = false
          /\ exists ext c, In ext Scanner.supported_extensions /\ In (f, c) (rglob ext)
                           /\ Scanner._scan_file f c <> [])
    /\ (forall e, In e evs ->
          exists ext f c event_name,
            In ext Scanner.supported_extensions /\ In (f, c) (rglob ext)
            /\ Scanner._should_skip f = false
            /\ e = scanned_event f event_name
            /\ event_name <> EmptyString /\ no_quote event_name = true).
Proof.
  pose proof (scan_extensions_spec rglob Scanner.supported_extensions
                {| Scanner.events := []; Scanner.files := [];
                   Scanner.total_files_scanned := 0; Scanner.producers_found := 0 |})
    as H.
  cbv zeta in H. fold (Scanner.scan_state rglob) in H.
  cbn [Scanner.events Scanner.files Scanner.total_files_scanned
       Scanner.producers_found length Nat.add] in H.
  destruct H as [H1 [H2 [H3 [H4 [H5 H6]]]]].
  exists (Scanner.events (Scanner.scan_state rglob)),
         (Scanner.files (Scanner.scan_state rglob)).
  split.
  { unfold Scanner.scan. rewrite H1.
    replace (Scanner.producers_found (Scanner.scan_state rglob))
      with (length (Scanner.events (Scanner.scan_state rglob))) by lia.
    reflexivity. }
  split; [lia |]. split; [exact H3 |]. split.
  - intros f Hf. destruct (H6 f Hf) as [[] | H]. exact H.
  - intros e He. destruct (H5 e He) as [[] | [ext [f [c [Hext [Hin [Hs Hev]]]]]]].
    destruct (scan_file_events _ _ _ Hev) as [n [-> [Hne Hnq]]].
    exists ext, f, c, n. repeat split; auto.
Qed.

(** ** The simple generator *)

Lemma lookup_dict_set_new k v d :
  py_eqb k k = true -> lookup k d = None -> lookup k (dict_set k v d) = Some v.
Proof.
  intros Hk. induction d as [| [k' v'] r IH]; simpl.
  - rewrite Hk. reflexivity.
  - destruct (py_eqb k' k) eqn:E; [discriminate |]. simpl. rewrite E. exact IH.
Qed.

Lemma lookup_dict_set_other a k v d :
  py_eqb (VStr a) k = false -> lookup k (dict_set (VStr a) v d) = lookup k d.
Proof.
  intros Hk. induction d as [| [k' v'] r IH]; cbn [dict_set lookup].
  - rewrite Hk. reflexivity.
  - destruct (py_eqb k' (VStr a)) eqn:E; cbn [lookup].
    + apply py_eqb_str_r in E. subst k'. rewrite Hk. reflexivity.
    + destruct (py_eqb k' k); [reflexivity | exact IH].
Qed.

Lemma lookup_none_not_key a d : lookup (VStr a) d = None -> ~ In (VStr a) (keys d).
Proof.
  intros H Hin. unfold keys in Hin. apply in_map_iff in Hin.
  destruct Hin as [kv [Hk Hin]].
  pose proof (lookup_none_no_key _ _ H kv Hin) as Hno.
  rewrite Hk in Hno. simpl in Hno. rewrite String.eqb_refl in Hno. discriminate.
Qed.

Lemma keys_dict_set_new a v d :
  lookup (VStr a) d = None -> keys (dict_set (VStr a) v d) = (keys d ++ [VStr a])%list.
Proof.
  induction d as [| [k' v'] r IH]; simpl; [reflexivity |].
  destruct (py_eqb k' (VStr a)); [discriminate |].
  intros H. simpl. rewrite (IH H). reflexivity.
Qed.

Lemma generator_channels_loop_spec events :
  Forall str_named events ->
  forall ch0,
    NoDup (keys ch0) ->
    exists ch,
      Generator.channels_loop events ch0 = Ok ch
      /\ NoDup (keys ch)
      /\ (forall k, In k (keys ch)
                    <-> In k (keys ch0)
                        \/ exists e, In e events /\ get e "name" (VStr "unknown") = Ok k)
      /\ (forall k c, lookup k ch0 = Some c -> lookup k ch = Some c)
      /\ (forall pre e post s,
             events = (pre ++ e :: post)%list ->
             get e "name" (VStr "unknown") = Ok (VStr s) ->
             (forall e', In e' pre -> get e' "name" (VStr "unknown") <> Ok (VStr s)) ->
             lookup (VStr s) ch0 = None ->
             exists c, Generator._create_channel e = Ok c /\ lookup (VStr s) ch = Some c).
Proof.
  induction 1 as [| e rest [s Hs] Hrest IH]; intros ch0 Hnd; simpl.
  - exists ch0. split; [reflexivity |]. split; [exact Hnd |]. split; [| split].
    + intros k. split; [auto | intros [H | [e [[] _]]]; exact H].
    + auto.
    + intros pre e post s Heq. destruct pre; discriminate.
  - rewrite Hs. cbn [bind]. simpl.
    destruct (lookup (VStr s) ch0) as [c0|] eqn:Hl.
    + destruct (IH ch0 Hnd) as [ch [Hch [Hnd' [Hkeys [Hkeep Hfirst]]]]].
      exists ch. split; [exact Hch |]. split; [exact Hnd' |]. split; [| split].
      * intros k. rewrite Hkeys. split.
        -- intros [H | [e' [Hin He']]]; auto. right. exists e'. auto.
        -- intros [H | [e' [[<- | Hin] He']]]; auto.
           ++ rewrite Hs in He'. inversion He'; subst k. left.
              destruct (lookup_some_key _ _ _ Hl) as [kv [Hin Hk]].
              apply py_eqb_str_r in Hk. rewrite <- Hk. apply in_map, Hin.
           ++ right. exists e'. auto.
      * exact Hkeep.
      * intros pre e' post s' Heq He' Hpre Hnone.
        destruct pre as [| p pre]; simpl in Heq; inversion Heq; subst.
        -- rewrite Hs in He'. inversion He'; subst. congruence.
        -- apply (Hfirst pre e' post s' eq_refl He'); auto.
           intros e'' Hin. apply Hpre. right. exact Hin.
    + destruct (generator_create_channel_total e (VStr s) Hs) as [c Hc].
      rewrite Hc. cbn [bind].
      assert (NoDup (keys (dict_set (VStr s) c ch0))) as Hnd1.
      { rewrite (keys_dict_set_new _ _ _ Hl). apply NoDup_app; [exact Hnd | |].
        - repeat constructor. intros [].
        - intros k Hk [<- | []]. apply (lookup_none_not_key _ _ Hl Hk). }
      destruct (IH _ Hnd1) as [ch [Hch [Hnd' [Hkeys [Hkeep Hfirst]]]]].
      exists ch. split; [exact Hch |]. split; [exact Hnd' |]. split; [| split].
      * intros k. rewrite Hkeys, keys_dict_set_str. split.
        -- intros [[H | ->] | [e' [Hin He']]]; auto.
           ++ right. exists e. auto.
           ++ right. exists e'. auto.
        -- intros [H | [e' [[<- | Hin] He']]]; auto.
           ++ rewrite Hs in He'. inversion He'. auto.
           ++ right. exists e'. auto.
      * intros k c' Hk. apply Hkeep.
        rewrite lookup_dict_set_other; [exact Hk |].
        destruct (py_eqb (VStr s) k) eqn:E; [| reflexivity].
        apply py_eqb_str_l in E. subst k. congruence.
      * intros pre e' post s' Heq He' Hpre Hnone.
        destruct pre as [| p pre]; simpl in Heq; inversion Heq; subst.
        -- rewrite Hs in He'. inversion He'; subst s'.
           exists c. split; [exact Hc |]. apply Hkeep.
           apply lookup_dict_set_new; [apply String.eqb_refl | exact Hl].
        -- apply (Hfirst pre e' post s' eq_refl He').
           ++ intros e'' Hin. apply Hpre. right. exact Hin.
           ++ rewrite lookup_dict_set_other; [exact Hnone |].
              destruct (py_eqb (VStr s) (VStr s')) eqn:E; [| reflexivity].
              apply py_eqb_str_l in E. inversion E; subst s'.
              exfalso. apply (Hpre p); [left; reflexivity | exact Hs].
Qed.

Lemma generate_channels_of events :
  Forall str_named events ->
  exists doc,
    Generator.generate (obj [ ("events", VList events) ]) = Ok doc
    /\ NoDup (keys (section "channels" doc))
    /\ (forall k, In k (keys (section "channels" doc))
                  <-> exists e, In e events /\ get e "name" (VStr "unknown") = Ok k)
    /\ (forall pre e post s,
           events = (pre ++ e :: post)%list ->
           get e "name" (VStr "unknown") = Ok (VStr s) ->
           (forall e', In e' pre -> get e' "name" (VStr "unknown") <> Ok (VStr s)) ->
           exists c, Generator._create_channel e = Ok c
                     /\ lookup (VStr s) (section "channels" doc) = Some c).
Proof.
  intros H.
  destruct (generator_channels_loop_spec events H [] (NoDup_nil _))
    as [ch [Hch [Hnd [Hkeys [_ Hfirst]]]]].
  exists (VDict (dict_set (VStr "channels") (VDict ch) Generator._create_base_spec)).
  split; [unfold Generator.generate; simpl; rewrite Hch; reflexivity |].
  change (section "channels"
            (VDict (dict_set (VStr "channels") (VDict ch) Generator._create_base_spec)))
    with ch.
  split; [exact Hnd |]. split.
  - intros k. rewrite Hkeys. split; [intros [[] | Hx]; exact Hx | auto].
  - intros pre e post s Heq He Hpre. apply (Hfirst pre e post s Heq He Hpre). reflexivity.
Qed.

(** On events whose names are strings, a record without [name] counting as
    [unknown], the simple generator returns a document with one channel per
    distinct name, no key twice and none without an event; the channel
    of a name is the one made from the first event that carries the name,
    later events with the name changing nothing. *)
Theorem generate_one_channel_per_name (events : list value) :
  Forall str_named events ->
  exists doc,
    Generator.generate (obj [ ("events", VList events) ]) = Ok doc
    /\ NoDup (keys (section "channels" doc))
    /\ (forall k, In k (keys (section "channels" doc))
                  <-> exists e, In e events /\ get e "name" (VStr "unknown") = Ok k)
    /\ (forall pre e post s,
           events = (pre ++ e :: post)%list ->
           get e "name" (VStr "unknown") = Ok (VStr s) ->
           (forall e', In e' pre -> get e' "name" (VStr "unknown") <> Ok (VStr s)) ->
           exists c, Generator._create_channel e = Ok c
                     /\ lookup (VStr s) (section "channels" doc) = Some c).
Proof. apply generate_channels_of. Qed.

Lemma generate_one_channel_per_name_witness :
  exists doc,
    Generator.generate (obj [ ("events", VList sample_producers) ]) = Ok doc
    /\ NoDup (keys (section "channels" doc))
    /\ (forall k, In k (keys (section "channels" doc))
                  <-> exists e, In e sample_producers
                                /\ get e "name" (VStr "unknown") = Ok k)
    /\ (forall pre e post s,
           sample_producers = (pre ++ e :: post)%list ->
           get e "name" (VStr "unknown") = Ok (VStr s) ->
           (forall e', In e' pre -> get e' "name" (VStr "unknown") <> Ok (VStr s)) ->
           exists c, Generator._create_channel e = Ok c
                     /\ lookup (VStr s) (section "channels" doc) = Some c).
Proof.
  apply (generate_one_channel_per_name sample_producers).
  repeat constructor; eexists; reflexivity.
Defined.

(** The run of [discovery.py]: whatever files the repository holds, the
    generation that follows the scan does not raise, and the channels of
    the document are the names of the scanned events, each once. *)
Theorem discovery_run_channels (rglob : string -> list (string * option string)) :
  exists doc evs,
    Discovery.run rglob = Ok doc
    /\ field "events" (Discovery.discover rglob) = VList evs
    /\ NoDup (keys (section "channels" doc))
    /\ (forall k, In k (keys (section "channels" doc))
                  <-> exists f event_name,
                        In (scanned_event f event_name) evs /\ k = VStr event_name).
Proof.
  destruct (scan_counts_and_events_aux rglob) as [Hscan Hev].
  set (evs := Scanner.events (Scanner.scan_state rglob)) in *.
  assert (Forall str_named evs) as Hn.
  { apply Forall_forall. intros e He. destruct (Hev e He) as [f [n ->]].
    exists n. reflexivity. }
  destruct (generate_channels_of evs Hn) as [doc [Hdoc [Hnd [Hkeys _]]]].
  exists doc, evs. split; [| split; [| split]].
  - unfold Discovery.run, Discovery.generate_spec, Discovery.discover.
    rewrite <- Hdoc. unfold Generator.generate, Scanner.scan. reflexivity.
  - reflexivity.
  - exact Hnd.
  - intros k. rewrite Hkeys. split.
    + intros [e [He Hk]]. destruct (Hev e He) as [f [n ->]].
      exists f, n. split; [exact He |]. simpl in Hk. inversion Hk. reflexivity.
    + intros [f [n [He ->]]]. exists (scanned_event f n). split; [exact He | reflexivity].
Qed.

(** ** The catalog of a run *)

Lemma contains_char_app a s t :
  contains_char a (s ++ t) = contains_char a s || contains_char a t.
Proof.
  induction s as [| c s IH]; simpl; [reflexivity |].
  rewrite IH, orb_assoc. reflexivity.
Qed.

Lemma replace_changes a b s : a <> b -> contains_char a s = true -> replace a b s <> s.
Proof.
  intros Hab Hin Heq. rewrite <- Heq in Hin.
  rewrite (replace_removes a b s Hab) in Hin. discriminate.
Qed.

(** The file name of a repository holds no slash and no backslash; and it
    does not tell a slash from an underscore: a repository with a slash in
    its name and the repository named with underscores instead, a different
    one, are written to the same file. *)
Theorem spec_filename_flat (repo : string) :
  contains_char "/" (Catalog.spec_filename repo) = false
  /\ contains_char "\" (Catalog.spec_filename repo) = false
  /\ Catalog.spec_filename (replace "/" "_" repo) = Catalog.spec_filename repo
  /\ (contains_char "/" repo = true -> replace "/" "_" repo <> repo).
Proof.
  unfold Catalog.spec_filename. rewrite !contains_char_app.
  assert (contains_char "/" (replace "\" "_" (replace "/" "_" repo)) = false) as H1.
  { apply replace_keeps_absent; [discriminate |]. apply replace_removes. discriminate. }
  assert (contains_char "\" (replace "\" "_" (replace "/" "_" repo)) = false) as H2.
  { apply replace_removes. discriminate. }
  rewrite H1, H2. repeat split.
  - rewrite (replace_absent "/" "_" (replace "/" "_" repo)); [reflexivity |].
    apply replace_removes. discriminate.
  - apply replace_changes. discriminate.
Qed.

Lemma create_specification_form repo events doc :
  CatalogManager._create_specification repo events = Ok doc ->
  exists sv ch ms ss,
    doc = obj [ ("asyncapi", VStr "2.6.0");
                ("info",
                 obj [ ("title", VStr (CatalogManager.repo_name_of repo ++ " Event API"));
                       ("version", VStr "1.0.0");
                       ("description",
                        VStr ("AsyncAPI specification for event producers in " ++ repo));
                       ("contact",
                        obj [ ("name", VStr "AsyncAPI Discovery Tool");
                              ("url",
                               VStr "https://github.com/ai-digital-architect/asyncapi_discovery") ]) ]);
                ("servers", VDict sv);
                ("channels", VDict ch);
                ("components", obj [ ("messages", VDict ms); ("schemas", VDict ss) ]) ].
Proof.
  unfold CatalogManager._create_specification. intros H.
  destruct (CatalogManager._group_events_by_broker events) as [g|]; cbn [bind] in H;
    [| discriminate].
  destruct (CatalogManager.servers_loop g []) as [sv|]; cbn [bind] in H; [| discriminate].
  destruct (CatalogManager.events_loop events [] [] []) as [[[ch ms] ss]|];
    cbn [bind] in H; [| discriminate].
  inversion H. exists sv, ch, ms, ss. reflexivity.
Qed.

Lemma index_entry_catalog repo events spec :
  CatalogManager._create_specification repo events = Ok spec ->
  Catalog.index_entry repo spec = Ok (index_entry_of repo spec).
Proof.
  intros H. destruct (create_specification_form _ _ _ H) as [sv [ch [ms [ss ->]]]].
  reflexivity.
Qed.

Lemma spec_set_In repo spec specs r s :
  In (r, s) (Catalog.spec_set repo spec specs) ->
  (r = repo /\ s = spec) \/ In (r, s) specs.
Proof.
  induction specs as [| [r0 s0] rest IH]; simpl.
  - intros [H | []]. inversion H. auto.
  - destruct (String.eqb r0 repo) eqn:E.
    + apply String.eqb_eq in E. subst r0. intros [H | H]; [inversion H; auto | auto].
    + intros [H | H]; [auto |]. destruct (IH H); auto.
Qed.

Lemma spec_set_keys repo spec specs r :
  In r (map fst (Catalog.spec_set repo spec specs)) <-> In r (map fst specs) \/ r = repo.
Proof.
  induction specs as [| [r0 s0] rest IH]; simpl.
  - split; intros [H | H]; auto; contradiction.
  - destruct (String.eqb r0 repo) eqn:E; simpl.
    + apply String.eqb_eq in E. subst r0. split.
      * intros [H | H]; auto.
      * intros [[H | H] | H]; auto.
    + rewrite IH. tauto.
Qed.

Lemma spec_set_NoDup repo spec specs :
  NoDup (map fst specs) -> NoDup (map fst (Catalog.spec_set repo spec specs)).
Proof.
  induction specs as [| [r0 s0] rest IH]; simpl; intros H.
  - repeat constructor. intros [].
  - inversion H as [| ? ? Hnotin Hnd]; subst.
    destruct (String.eqb r0 repo) eqn:E; simpl.
    + constructor; assumption.
    + constructor; [| apply IH, Hnd].
      rewrite spec_set_keys. intros [Hin | ->]; [contradiction |].
      rewrite String.eqb_refl in E. discriminate.
Qed.

Lemma main_loop_spec search_code repositories :
  forall specs0,
    NoDup (map fst specs0) ->
    exists specs,
      Catalog.main_loop repositories search_code specs0 = Ok specs
      /\ NoDup (map fst specs)
      /\ (forall r, In r (map fst specs)
                    <-> In r (map fst specs0)
                        \/ (In r repositories /\ detect_events r search_code <> Ok []))
      /\ (forall r s, In (r, s) specs ->
            In (r, s) specs0
            \/ exists events,
                 events <> [] /\ detect_events r search_code = Ok events
                 /\ CatalogManager._create_specification r events = Ok s).
Proof.
  induction repositories as [| repo rest IH]; intros specs0 Hnd; simpl.
  - exists specs0. split; [reflexivity |]. split; [exact Hnd |]. split.
    + intros r. split; [auto | intros [H | [[] _]]; exact H].
    + auto.
  - rewrite detect_events_total. cbn [bind].
    pose proof (detection_yields_records repo search_code) as Hrec.
    pose proof (detect_events_total repo search_code) as Hdet.
    destruct (keep_first [] (collect_events repo search_code)) as [| e evs] eqn:Hev.
    + destruct (IH specs0 Hnd) as [specs [Hloop [Hnd' [Hkeys Hfrom]]]].
      exists specs. split; [exact Hloop |]. split; [exact Hnd' |]. split.
      * intros r. rewrite Hkeys. split.
        -- intros [H | [Hin Hne]]; auto.
        -- intros [H | [[<- | Hin] Hne]]; auto. congruence.
      * exact Hfrom.
    + assert (Forall detector_record (e :: evs)) as Hd
        by (eapply Forall_impl; [| exact Hrec]; intros x [H _]; exact H).
      destruct (create_specification_total repo (e :: evs) Hd) as [spec [Hspec _]].
      unfold Catalog.add_specification. rewrite Hspec. cbn [bind].
      destruct (IH _ (spec_set_NoDup repo spec specs0 Hnd))
        as [specs [Hloop [Hnd' [Hkeys Hfrom]]]].
      exists specs. split; [exact Hloop |]. split; [exact Hnd' |]. split.
      * intros r. rewrite Hkeys, spec_set_keys. split.
        -- intros [[H | ->] | [Hin Hne]]; auto.
           right. split; [left; reflexivity |]. rewrite Hdet. discriminate.
        -- intros [H | [[<- | Hin] Hne]]; auto.
      * intros r s Hin. destruct (Hfrom r s Hin) as [H | H]; [| auto].
        destruct (spec_set_In _ _ _ _ _ H) as [[-> ->] | H']; [| auto].
        right. exists (e :: evs). split; [discriminate |]. auto.
Qed.

Lemma catalog_index_entries now specs :
  (forall r s, In (r, s) specs ->
     exists events, CatalogManager._create_specification r events = Ok s) ->
  Catalog._save_catalog_index now specs
  = Ok (obj [ ("generated_at", VStr (now ++ "Z"));
              ("total_specifications", VInt (Z.of_nat (length specs)));
              ("specifications",
               VList (map (fun rs => index_entry_of (fst rs) (snd rs)) specs)) ]).
Proof.
  intros H. unfold Catalog._save_catalog_index.
  assert (mapM (fun rs => Catalog.index_entry (fst rs) (snd rs)) specs
          = Ok (map (fun rs => index_entry_of (fst rs) (snd rs)) specs)) as ->;
    [| reflexivity].
  induction specs as [| [r s] rest IH]; [reflexivity |].
  cbn [mapM map fst snd].
  destruct (H r s (or_introl eq_refl)) as [events Hev].
  rewrite (index_entry_catalog _ _ _ Hev). cbn [bind].
  rewrite IH; [reflexivity |]. intros r' s' Hin. apply (H r' s'). right. exact Hin.
Qed.

(** The loop of [main.py] and the index it saves: whatever the client
    answers, the loop does not raise; the catalog holds one specification
    per repository in which detection found an event, each built from what
    detection returned for the repository, and none for the others; and the
    index lists the specifications in their order, with the number of
    channels of each and the name of its file. *)
Theorem main_loop_catalog
  (repositories : list string) (search_code : string -> string -> list value)
  (now : string) :
  exists specs,
    Catalog.main_loop repositories search_code [] = Ok specs
    /\ NoDup (map fst specs)
    /\ (forall r, In r (map fst specs)
                  <-> In r repositories /\ detect_events r search_code <> Ok [])
    /\ (forall r s, In (r, s) specs ->
          exists events,
            events <> [] /\ detect_events r search_code = Ok events
            /\ CatalogManager._create_specification r events = Ok s)
    /\ Catalog._save_catalog_index now specs
       = Ok (obj [ ("generated_at", VStr (now ++ "Z"));
                   ("total_specifications", VInt (Z.of_nat (length specs)));
                   ("specifications",
                    VList (map (fun rs => index_entry_of (fst rs) (snd rs)) specs)) ]).
Proof.
  destruct (main_loop_spec search_code repositories [] (NoDup_nil _))
    as [specs [Hloop [Hnd [Hkeys Hfrom]]]].
  exists specs. split; [exact Hloop |]. split; [exact Hnd |].
  assert (forall r s, In (r, s) specs ->
            exists events,
              events <> [] /\ detect_events r search_code = Ok events
              /\ CatalogManager._create_specification r events = Ok s) as Hspecs.
  { intros r s Hin. destruct (Hfrom r s Hin) as [[] | H]. exact H. }
  split; [| split; [exact Hspecs |]].
  - intros r. rewrite Hkeys. split; [intros [[] | H]; exact H | auto].
  - apply catalog_index_entries. intros r s Hin.
    destruct (Hspecs r s Hin) as [events [_ [_ H]]]. exists events. exact H.
Qed.

(** ** Equality of values *)

Lemma in_list_sum {A} (f : A -> nat) x l : In x l -> f x <= list_sum (map f l).
Proof.
  induction l as [| y l IH]; simpl; [tauto |].
  intros [<- | H]; [lia |]. specialize (IH H). lia.
Qed.

Lemma py_eqb_refl_sized n : forall v, vsize v <= n -> py_eqb v v = true.
Proof.
  induction n as [| n IH]; intros v Hn.
  - destruct v; simpl in Hn; lia.
  - destruct v; simpl.
    + reflexivity.
    + apply Bool.eqb_reflx.
    + apply Z.eqb_refl.
    + apply String.eqb_refl.
    + simpl in Hn.
      assert (forall x, In x l -> py_eqb x x = true) as Hl.
      { intros x Hx. apply IH. pose proof (in_list_sum vsize x l Hx). lia. }
      clear Hn. induction l as [| x l IHl]; [reflexivity |].
      rewrite (Hl x (or_introl eq_refl)). simpl. apply IHl.
      intros y Hy. apply Hl. right. exact Hy.
    + simpl in Hn. rewrite Nat.eqb_refl. simpl.
      apply forallb_forall. intros kv Hkv. apply existsb_exists. exists kv.
      split; [exact Hkv |].
      pose proof (in_list_sum (fun kv => vsize (fst kv) + vsize (snd kv)) kv d Hkv) as Hs.
      simpl in Hs. rewrite !IH by lia. reflexivity.
Qed.

(** A value is equal to itself. *)
Lemma py_eqb_refl v : py_eqb v v = true.
Proof. apply (py_eqb_refl_sized (vsize v)). apply le_n. Qed.

Lemma index_found x g : In x g -> exists i, index x g = Ok i.
Proof.
  induction g as [| y g IH]; simpl; [tauto |].
  intros Hin. destruct (py_eqb y x) eqn:E; [eexists; reflexivity |].
  destruct Hin as [-> | Hin]; [rewrite py_eqb_refl in E; discriminate |].
  destruct (IH Hin) as [i Hi]. rewrite Hi. eexists; reflexivity.
Qed.

(** ** The message references of a channel *)

Lemma str_of_nat_inj i j : str_of_nat i = str_of_nat j -> i = j.
Proof.
  unfold str_of_nat. intros H.
  assert (forall n, Nat.to_uint n <> Decimal.Nil) as Hnn.
  { intros n Hn. assert (n = 0) as -> by (rewrite <- (DecimalNat.Unsigned.of_to n), Hn; reflexivity).
    discriminate Hn. }
  apply (f_equal NilZero.uint_of_string) in H.
  rewrite !NilZero.usu in H by apply Hnn.
  inversion H as [H']. apply DecimalNat.Unsigned.to_uint_inj, H'.
Qed.

Lemma append_inj_l (a x y : string) : (a ++ x)%string = (a ++ y)%string -> x = y.
Proof. induction a as [| c a IH]; simpl; intros H; [exact H | inversion H; auto]. Qed.

Lemma message_id_inj channel_id i j : message_id channel_id i = message_id channel_id j -> i = j.
Proof.
  unfold message_id. intros H. inversion H as [H'].
  apply append_inj_l in H'. apply (append_inj_l "_message_") in H'.
  apply str_of_nat_inj, H'.
Qed.

Lemma lookup_not_key a d : ~ In (VStr a) (keys d) -> lookup (VStr a) d = None.
Proof.
  intros H. destruct (lookup (VStr a) d) eqn:E; [| reflexivity].
  destruct (lookup_some_key _ _ _ E) as [kv [Hin Hk]].
  apply py_eqb_str_r in Hk. exfalso. apply H. rewrite <- Hk. apply in_map, Hin.
Qed.

Lemma channel_messages_keys channel_id evs :
  forall idx messages,
    keys messages = map (message_id channel_id) (seq 0 idx) ->
    keys (AsynapiGenerator.channel_messages channel_id idx evs messages)
    = map (message_id channel_id) (seq 0 (idx + length evs)).
Proof.
  induction evs as [| e evs IH]; intros idx messages Hk; simpl.
  - rewrite Nat.add_0_r. exact Hk.
  - replace (idx + S (length evs)) with (S idx + length evs) by lia.
    apply IH. fold (message_id channel_id idx).
    change (VStr (channel_id ++ "_message_" ++ str_of_nat idx))
      with (message_id channel_id idx).
    unfold message_id at 1. rewrite keys_dict_set_new.
    + rewrite Hk, seq_S, map_app. reflexivity.
    + apply lookup_not_key. rewrite Hk. intros Hin. apply in_map_iff in Hin.
      destruct Hin as [j [Hj Hin]]. apply message_id_inj in Hj. subst j.
      apply in_seq in Hin. lia.
Qed.

(** [_create_channel] on the events of a channel: when it returns, the
    channel lists one message reference per event, keyed
    [<channel-id>_message_<position>] for the positions from 0 on, no two
    under the same key. *)
Theorem create_channel_message_per_event
  (channel_name : string) (evs : list value) (channel : value) :
  AsynapiGenerator._create_channel channel_name evs = Ok channel ->
  keys (section "messages" channel)
  = map (message_id (AsynapiGenerator.sanitize channel_name)) (seq 0 (length evs))
  /\ NoDup (keys (section "messages" channel))
  /\ length (section "messages" channel) = length evs
  /\ field "address" channel = VStr channel_name.
Proof.
  intros H.
  assert (keys (section "messages" channel)
          = map (message_id (AsynapiGenerator.sanitize channel_name))
                (seq 0 (length evs))
          /\ field "address" channel = VStr channel_name) as [Hk Ha].
  { unfold AsynapiGenerator._create_channel in H.
    destruct evs as [| first rest]; [discriminate |].
    destruct (get first "broker" (VStr "unknown")) as [broker|]; cbn [bind] in H;
      [| discriminate].
    destruct (get first "channel_type" (VStr "topic")) as [ct|]; cbn [bind] in H;
      [| discriminate].
    pose proof (channel_messages_keys (AsynapiGenerator.sanitize channel_name)
                  (first :: rest) 0 [] eq_refl) as Hm.
    destruct (py_eqb broker (VStr "kafka"));
      [| destruct (py_eqb broker (VStr "rabbitmq"))];
      inversion H; subst channel; split; try reflexivity; exact Hm. }
  split; [exact Hk |]. split; [| split].
  - rewrite Hk. generalize (seq_NoDup (length evs) 0).
    generalize (seq 0 (length evs)) as l.
    induction l as [| i l IH]; intros Hnd; simpl; [constructor |].
    inversion Hnd as [| ? ? Hni Hnd']; subst. constructor; [| apply IH, Hnd'].
    intros Hin. apply in_map_iff in Hin. destruct Hin as [j [Hj Hin]].
    apply message_id_inj in Hj. subst j. exact (Hni Hin).
  - rewrite <- (length_map fst). fold (keys (section "messages" channel)).
    rewrite Hk, length_map, length_seq. reflexivity.
  - exact Ha.
Qed.

Lemma create_channel_message_per_event_witness :
  keys (section "messages"
          (obj [ ("address", VStr "orders");
                 ("description", VStr "Channel: orders");
                 ("messages",
                  VDict (AsynapiGenerator.channel_messages "orders" 0
                           [order_placed_event; order_shipped_event] [])) ]))
  = map (message_id (AsynapiGenerator.sanitize "orders"))
        (seq 0 (length [order_placed_event; order_shipped_event]))
  /\ NoDup (keys (section "messages"
          (obj [ ("address", VStr "orders");
                 ("description", VStr "Channel: orders");
                 ("messages",
                  VDict (AsynapiGenerator.channel_messages "orders" 0
                           [order_placed_event; order_shipped_event] [])) ])))
  /\ length (section "messages"
          (obj [ ("address", VStr "orders");
                 ("description", VStr "Channel: orders");
                 ("messages",
                  VDict (AsynapiGenerator.channel_messages "orders" 0
                           [order_placed_event; order_shipped_event] [])) ]))
     = length [order_placed_event; order_shipped_event]
  /\ field "address"
          (obj [ ("address", VStr "orders");
                 ("description", VStr "Channel: orders");
                 ("messages",
                  VDict (AsynapiGenerator.channel_messages "orders" 0
                           [order_placed_event; order_shipped_event] [])) ])
     = VStr "orders".
Proof.
  apply (create_channel_message_per_event "orders"
           [order_placed_event; order_shipped_event]).
  reflexivity.
Defined.

(** ** The 3.0 generator on well-formed events *)

Lemma get_total e :
  (exists d, e = VDict d) -> forall k dflt, exists v, get e k dflt = Ok v.
Proof. intros [d ->] k dflt. eexists. reflexivity. Qed.

Lemma get_present e k s dflt :
  get e k VNone = Ok (VStr s) -> get e k dflt = Ok (VStr s).
Proof.
  destruct e as [| | | | | d]; try discriminate. unfold get.
  destruct (lookup (VStr k) d); [auto | discriminate].
Qed.

Lemma well_formed_dict e : well_formed_event e -> exists d, e = VDict d.
Proof.
  intros [[s Hs] _]. destruct e as [| | | | | d]; try discriminate.
  eexists; reflexivity.
Qed.

Lemma group_add_members (P : value -> Prop) k e g :
  P e ->
  Forall (fun kg => snd kg <> [] /\ Forall P (snd kg)) g ->
  Forall (fun kg => snd kg <> [] /\ Forall P (snd kg)) (group_add k e g).
Proof.
  intros He. induction 1 as [| [k' es] g [Hne HP] Hg IH]; simpl.
  - constructor; [| constructor]. simpl. split; [discriminate | auto].
  - destruct (py_eqb k' k).
    + constructor; [| exact Hg]. simpl in *. split.
      * intros H. apply app_eq_nil in H. destruct H as [_ H]. discriminate H.
      * apply Forall_app. split; auto.
    + constructor; [split; assumption | exact IH].
Qed.

(** Every group of the grouping loop holds an event, and events of the list. *)
Lemma group_loop_members (P : value -> Prop) fieldname default events :
  Forall P events ->
  forall g0 g,
    Forall (fun kg => snd kg <> [] /\ Forall P (snd kg)) g0 ->
    group_loop fieldname default events g0 = Ok g ->
    Forall (fun kg => snd kg <> [] /\ Forall P (snd kg)) g.
Proof.
  induction 1 as [| e events He _ IH]; intros g0 g Hg0 H; simpl in H.
  - inversion H; subst; exact Hg0.
  - destruct (get e fieldname default) as [k | x]; cbn [bind] in H; [| discriminate].
    destruct (hashable k); [| discriminate].
    eapply IH; [| exact H]. apply group_add_members; assumption.
Qed.

Lemma get_server_config_total b es :
  exists c, AsynapiGenerator._get_server_config (VStr b) es = Ok c.
Proof.
  unfold AsynapiGenerator._get_server_config.
  destruct (String.eqb b "kafka"); [eexists; reflexivity |].
  destruct (String.eqb b "rabbitmq"); [eexists; reflexivity |].
  destruct (startswith "aws-" b); eexists; reflexivity.
Qed.

Lemma servers_loop_total brokers :
  (forall k, In k (map fst brokers) -> exists b, k = VStr b) ->
  forall sv0, exists sv, AsynapiGenerator.servers_loop brokers sv0 = Ok sv.
Proof.
  induction brokers as [| [k es] brokers IH]; intros Hk sv0.
  - eexists; reflexivity.
  - destruct (Hk k (or_introl eq_refl)) as [b ->].
    cbn [AsynapiGenerator.servers_loop].
    destruct (get_server_config_total b es) as [c ->]. cbn [bind].
    apply IH. intros k' Hin. apply Hk. right. exact Hin.
Qed.

Lemma create_channel_total s first rest :
  (exists d, first = VDict d) ->
  exists c, AsynapiGenerator._create_channel s (first :: rest) = Ok c.
Proof.
  intros Hd. unfold AsynapiGenerator._create_channel.
  destruct (get_total first Hd "broker" (VStr "unknown")) as [b ->].
  destruct (get_total first Hd "channel_type" (VStr "topic")) as [ct ->].
  cbn [bind].
  destruct (py_eqb b (VStr "kafka")); [eexists; reflexivity |].
  destruct (py_eqb b (VStr "rabbitmq")); eexists; reflexivity.
Qed.

Lemma channels_loop_total groups :
  (forall k, In k (map fst groups) -> exists s, k = VStr s) ->
  Forall (fun kg => snd kg <> [] /\ Forall (fun e => exists d, e = VDict d) (snd kg))
         groups ->
  forall ch0, exists ch, AsynapiGenerator.channels_loop groups ch0 = Ok ch.
Proof.
  induction groups as [| [k es] groups IH]; intros Hk Hg ch0.
  - eexists; reflexivity.
  - destruct (Hk k (or_introl eq_refl)) as [s ->].
    inversion Hg as [| ? ? [Hne Hes] Hg']; subst. simpl in Hne, Hes.
    destruct es as [| first rest]; [congruence |].
    cbn [AsynapiGenerator.channels_loop AsynapiGenerator._sanitize_channel_id bind str].
    destruct (create_channel_total s first rest) as [c ->];
      [inversion Hes; assumption |].
    cbn [bind]. apply IH; [| exact Hg'].
    intros k' Hin. apply Hk. right. exact Hin.
Qed.

Lemma op_add_operation id name operation e ops :
  (exists o, operation = VStr o) ->
  Forall (fun p => exists o, AsynapiGenerator.op_operation (snd p) = VStr o) ops ->
  Forall (fun p => exists o, AsynapiGenerator.op_operation (snd p) = VStr o)
         (AsynapiGenerator.op_add id name operation e ops).
Proof.
  intros Ho. induction 1 as [| [id' d] ops Hd Hops IH]; simpl.
  - constructor; [exact Ho | constructor].
  - destruct (String.eqb id' id); constructor; auto.
Qed.

Lemma operations_group_total events :
  Forall well_formed_event events ->
  forall ops,
    Forall (fun p => exists o, AsynapiGenerator.op_operation (snd p) = VStr o) ops ->
    exists ops',
      AsynapiGenerator.operations_group events ops = Ok ops'
      /\ Forall (fun p => exists o, AsynapiGenerator.op_operation (snd p) = VStr o) ops'.
Proof.
  induction 1 as [| e events He _ IH]; intros ops Hops.
  - exists ops. split; [reflexivity | exact Hops].
  - destruct He as [[s Hs] [_ [[o Ho] _]]].
    cbn [AsynapiGenerator.operations_group].
    rewrite (get_present _ _ _ (VStr "unknown") Hs).
    cbn [bind AsynapiGenerator._sanitize_channel_id]. rewrite Ho. cbn [bind].
    apply IH. apply op_add_operation; [exists o; reflexivity | exact Hops].
Qed.

Lemma operations_loop_total ops :
  Forall (fun p => exists o, AsynapiGenerator.op_operation (snd p) = VStr o) ops ->
  forall o0, exists o, AsynapiGenerator.operations_loop ops o0 = Ok o.
Proof.
  induction 1 as [| [id d] ops [o Ho] _ IH]; intros o0.
  - eexists; reflexivity.
  - cbn [AsynapiGenerator.operations_loop]. simpl in Ho. rewrite Ho. apply IH.
Qed.

Lemma repositories_total events :
  Forall well_formed_event events ->
  exists rs,
    mapM (fun e => r <- get e "repository" (VStr EmptyString) ;;
                   if hashable r then Ok r else Raise TypeError) events
    = Ok rs.
Proof.
  induction 1 as [| e events He _ [rs IH]].
  - eexists; reflexivity.
  - destruct He as [_ [_ [_ [r [Hr Hh]]]]].
    cbn [mapM]. rewrite Hr. cbn [bind]. rewrite Hh, IH. cbn [bind].
    eexists; reflexivity.
Qed.

(** The events of a channel, as [_generate_components] selects them, hold
    every well-formed event of the channel. *)
Lemma same_channel_total events c :
  Forall well_formed_event events ->
  exists g,
    AsynapiGenerator.same_channel events c = Ok g
    /\ forall e, In e events -> get e "channel_name" VNone = Ok c -> In e g.
Proof.
  induction 1 as [| e events He _ [g [IH Hg]]].
  - exists []. split; [reflexivity | intros e []].
  - destruct (get_total e (well_formed_dict e He) "channel_name" VNone) as [c' Hc'].
    cbn [AsynapiGenerator.same_channel]. rewrite Hc', IH. cbn [bind].
    eexists. split; [reflexivity |].
    intros e' [<- | Hin] He'.
    + rewrite Hc' in He'. inversion He'; subst c'.
      rewrite py_eqb_refl. left. reflexivity.
    + specialize (Hg e' Hin He'). destruct (py_eqb c' c); [right |]; exact Hg.
Qed.

Lemma components_loop_total events todo :
  Forall well_formed_event events ->
  (forall e, In e todo -> In e events) ->
  forall messages schemas,
    exists r, AsynapiGenerator.components_loop events todo messages schemas = Ok r.
Proof.
  intros Hwf. induction todo as [| e todo IH]; intros Hin messages schemas.
  - eexists; reflexivity.
  - assert (well_formed_event e) as He.
    { apply (proj1 (Forall_forall _ _) Hwf). apply Hin. left. reflexivity. }
    pose proof (well_formed_dict e He) as Hd.
    destruct He as [[s Hs] _].
    cbn [AsynapiGenerator.components_loop].
    rewrite (get_present _ _ _ (VStr "unknown") Hs).
    cbn [bind AsynapiGenerator._sanitize_channel_id].
    destruct (get_total e Hd "message_type" (VStr "Unknown")) as [mt Hmt].
    rewrite Hmt. cbn [bind].
    destruct (same_channel_total events (VStr s) Hwf) as [g [Hg Hmem]].
    rewrite Hg. cbn [bind].
    destruct (index_found e g) as [i Hi].
    { apply Hmem; [apply Hin; left; reflexivity | exact Hs]. }
    rewrite Hi. cbn [bind].
    destruct (get_total e Hd "repository" (VStr EmptyString)) as [r ->].
    destruct (get_total e Hd "file_path" (VStr EmptyString)) as [fp ->].
    destruct (get_total e Hd "line_number" (VInt 0)) as [ln ->].
    cbn [bind]. unfold AsynapiGenerator._create_schema. rewrite Hmt. cbn [bind].
    apply IH. intros e' He'. apply Hin. right. exact He'.
Qed.

Lemma dict_set_length k v d : length (dict_set k v d) <= S (length d).
Proof.
  induction d as [| [k' v'] d IH]; simpl; [lia |].
  destruct (py_eqb k' k); simpl; lia.
Qed.

Lemma group_add_length k e g : length (group_add k e g) <= S (length g).
Proof.
  induction g as [| [k' es] g IH]; simpl; [lia |].
  destruct (py_eqb k' k); simpl; lia.
Qed.

Lemma group_loop_length fieldname default events :
  forall g0 g,
    group_loop fieldname default events g0 = Ok g ->
    length g <= length g0 + length events.
Proof.
  induction events as [| e events IH]; intros g0 g H; simpl in H.
  - inversion H; subst. lia.
  - destruct (get e fieldname default) as [k | x]; cbn [bind] in H; [| discriminate].
    destruct (hashable k); [| discriminate].
    apply IH in H. pose proof (group_add_length k e g0). simpl. lia.
Qed.

Lemma servers_loop_length brokers :
  forall sv0 sv,
    AsynapiGenerator.servers_loop brokers sv0 = Ok sv ->
    length sv <= length sv0 + length brokers.
Proof.
  induction brokers as [| [k es] brokers IH]; intros sv0 sv H;
    cbn [AsynapiGenerator.servers_loop] in H.
  - inversion H; subst. lia.
  - destruct (AsynapiGenerator._get_server_config k es) as [c | x]; cbn [bind] in H;
      [| discriminate].
    apply IH in H. pose proof (dict_set_length k c sv0). simpl. lia.
Qed.

Lemma channels_loop_length groups :
  forall ch0 ch,
    AsynapiGenerator.channels_loop groups ch0 = Ok ch ->
    length ch <= length ch0 + length groups.
Proof.
  induction groups as [| [k es] groups IH]; intros ch0 ch H;
    cbn [AsynapiGenerator.channels_loop] in H.
  - inversion H; subst. lia.
  - destruct (AsynapiGenerator._sanitize_channel_id k) as [id | x]; cbn [bind] in H;
      [| discriminate].
    destruct (AsynapiGenerator._create_channel (str k) es) as [c | x]; cbn [bind] in H;
      [| discriminate].
    apply IH in H. pose proof (dict_set_length (VStr id) c ch0). simpl. lia.
Qed.

(** On events that are dictionaries with a string [channel_name], a string
    or no [broker], a string or no [operation] and a [repository] with a
    hash or none, [generate_spec] returns a document: of version 3.0.0,
    counting the events, with no more servers and no more channels than
    events. *)
Theorem generate_spec_on_well_formed_events
  (rt : runtime) (service_name : string) (events : list value) (version_ : string) :
  Forall well_formed_event events ->
  exists spec,
    AsynapiGenerator.generate_spec rt service_name events version_ = Ok spec
    /\ field "asyncapi" spec = VStr "3.0.0"
    /\ field "eventCount" (field "x-generated" (field "info" spec))
       = VInt (Z.of_nat (length events))
    /\ length (section "servers" spec) <= length events
    /\ length (section "channels" spec) <= length events.
Proof.
  intros Hwf.
  assert (Forall (fun e => exists d, e = VDict d) events) as Hdict.
  { eapply Forall_impl; [| exact Hwf]. apply well_formed_dict. }
  destruct (repositories_total events Hwf) as [rs Hrs].
  (* servers *)
  destruct (group_loop_total "broker" (VStr "unknown") events) with (g0 := @nil (value * list value))
    as [brokers Hb].
  { eapply Forall_impl; [| exact Hwf]. intros e [_ [[b Hb] _]].
    exists (VStr b). split; [exact Hb | reflexivity]. }
  destruct (servers_loop_total brokers) with (sv0 := @nil (value * value)) as [servers Hsv].
  { intros k Hk.
    destruct (proj1 (proj2 (group_loop_keys _ _ _ _ _ Hb)) k Hk) as [[] | [e [Hin He]]].
    destruct (proj1 (Forall_forall _ _) Hwf e Hin) as [_ [[b Hb'] _]].
    exists b. congruence. }
  (* channels *)
  destruct (group_loop_total "channel_name" (VStr "unknown") events)
    with (g0 := @nil (value * list value)) as [groups Hg].
  { eapply Forall_impl; [| exact Hwf]. intros e [[s Hs] _].
    exists (VStr s). split; [apply get_present, Hs | reflexivity]. }
  destruct (channels_loop_total groups) with (ch0 := @nil (value * value)) as [channels Hch].
  { intros k Hk.
    destruct (proj1 (proj2 (group_loop_keys _ _ _ _ _ Hg)) k Hk) as [[] | [e [Hin He]]].
    destruct (proj1 (Forall_forall _ _) Hwf e Hin) as [[s Hs] _].
    exists s. rewrite (get_present _ _ _ (VStr "unknown") Hs) in He. congruence. }
  { apply (group_loop_members _ _ _ _ Hdict [] groups (Forall_nil _) Hg). }
  (* operations *)
  destruct (operations_group_total events Hwf [] (Forall_nil _)) as [ops [Hops Hinv]].
  destruct (operations_loop_total ops Hinv []) as [operations Hop].
  (* components *)
  destruct (components_loop_total events events Hwf (fun e H => H) [] []) as [ms Hms].
  eexists. split.
  - unfold AsynapiGenerator.generate_spec, AsynapiGenerator._generate_info,
      AsynapiGenerator._generate_servers, AsynapiGenerator._generate_channels,
      AsynapiGenerator._generate_operations, AsynapiGenerator._generate_components.
    rewrite Hrs, Hb, Hg, Hops, Hms. cbn [bind]. rewrite Hsv, Hch, Hop. cbn [bind].
    reflexivity.
  - split; [reflexivity |]. split; [reflexivity |].
    change (length servers <= length events /\ length channels <= length events).
    apply group_loop_length in Hb, Hg.
    apply servers_loop_length in Hsv. apply channels_loop_length in Hch.
    simpl in *. lia.
Qed.

Lemma generate_spec_on_well_formed_events_witness :
  Forall well_formed_event sample_channel_events
  /\ exists spec,
      AsynapiGenerator.generate_spec (run_backward "2024-01-01T00:00:00") "shop"
        sample_channel_events "1.0.0" = Ok spec
      /\ field "asyncapi" spec = VStr "3.0.0"
      /\ field "eventCount" (field "x-generated" (field "info" spec))
         = VInt (Z.of_nat (length sample_channel_events))
      /\ length (section "servers" spec) <= length sample_channel_events
      /\ length (section "channels" spec) <= length sample_channel_events.
Proof.
  assert (Forall well_formed_event sample_channel_events) as H.
  { repeat constructor; try (eexists; reflexivity);
      eexists; split; reflexivity. }
  split; [exact H |].
  apply (generate_spec_on_well_formed_events (run_backward "2024-01-01T00:00:00") "shop"
           sample_channel_events "1.0.0" H).
Defined.

(** ** The file names of the catalog of 3.0 specifications *)

Lemma all_chars_app p s t : all_chars p (s ++ t) = all_chars p s && all_chars p t.
Proof.
  induction s as [| c s IH]; simpl; [reflexivity |].
  rewrite IH, andb_assoc. reflexivity.
Qed.

Lemma sanitize_filename_cons c r :
  DiscoveryCatalog._sanitize_filename (String c r)
  = (sanitized_char c ++ DiscoveryCatalog._sanitize_filename r)%string.
Proof.
  unfold sanitized_char, DiscoveryCatalog._sanitize_filename, DiscoveryCatalog.lower,
    replace, chr.
  cbn [map_string DiscoveryCatalog.filter_string].
  destruct (DiscoveryCatalog.safe_char _); reflexivity.
Qed.

Lemma sanitize_filename_app s t :
  DiscoveryCatalog._sanitize_filename (s ++ t)
  = (DiscoveryCatalog._sanitize_filename s ++ DiscoveryCatalog._sanitize_filename t)%string.
Proof.
  induction s as [| c s IH]; [reflexivity |].
  change (String c s ++ t)%string with (String c (s ++ t)).
  rewrite !sanitize_filename_cons, IH, append_assoc. reflexivity.
Qed.

Lemma sanitized_char_facts c :
  all_chars file_char (sanitized_char c) = true
  /\ String.length (sanitized_char c) <= 1
  /\ DiscoveryCatalog._sanitize_filename (sanitized_char c) = sanitized_char c
  /\ (file_char c = true -> sanitized_char c = chr c)
  /\ (file_char c = false -> sanitized_char c <> chr c).
Proof.
  destruct c as [[] [] [] [] [] [] [] []]; vm_compute;
    (split; [reflexivity |]); (split; [lia |]); (split; [reflexivity |]);
    split; intros H; try reflexivity; try discriminate H;
    intros H'; discriminate H'.
Qed.

Lemma sanitize_filename_facts name :
  all_chars file_char (DiscoveryCatalog._sanitize_filename name) = true
  /\ String.length (DiscoveryCatalog._sanitize_filename name) <= String.length name
  /\ DiscoveryCatalog._sanitize_filename (DiscoveryCatalog._sanitize_filename name)
     = DiscoveryCatalog._sanitize_filename name
  /\ (DiscoveryCatalog._sanitize_filename name = name
      <-> all_chars file_char name = true).
Proof.
  assert (all_chars file_char (DiscoveryCatalog._sanitize_filename name) = true) as Hall.
  { induction name as [| c r IH]; [reflexivity |].
    rewrite sanitize_filename_cons, all_chars_app, IH.
    rewrite (proj1 (sanitized_char_facts c)). reflexivity. }
  split; [exact Hall |]. split; [| split; [| split]].
  - clear Hall. induction name as [| c r IH]; [apply le_n |].
    rewrite sanitize_filename_cons, append_length.
    pose proof (proj1 (proj2 (sanitized_char_facts c))) as Hc.
    change (String.length (String c r)) with (S (String.length r)). lia.
  - clear Hall. induction name as [| c r IH]; [reflexivity |].
    rewrite sanitize_filename_cons, sanitize_filename_app, IH.
    rewrite (proj1 (proj2 (proj2 (sanitized_char_facts c)))). reflexivity.
  - intros H. rewrite <- H. exact Hall.
  - clear Hall. induction name as [| c r IH]; [reflexivity |].
    simpl. intros H. apply andb_true_iff in H. destruct H as [Hc Hr].
    rewrite sanitize_filename_cons, (IH Hr).
    rewrite (proj1 (proj2 (proj2 (proj2 (sanitized_char_facts c)))) Hc). reflexivity.
Qed.

(** [_sanitize_filename] on an ASCII name returns a name over [a-z0-9_-],
    no longer than the name; it is idempotent, and the names it leaves as
    they are are those over [a-z0-9_-]: every other name shares its file
    with the name it is sanitized to. *)
Theorem sanitize_filename_safe (name : string) :
  is_ascii name = true ->
  all_chars file_char (DiscoveryCatalog._sanitize_filename name) = true
  /\ String.length (DiscoveryCatalog._sanitize_filename name) <= String.length name
  /\ DiscoveryCatalog._sanitize_filename (DiscoveryCatalog._sanitize_filename name)
     = DiscoveryCatalog._sanitize_filename name
  /\ (DiscoveryCatalog._sanitize_filename name = name
      <-> all_chars file_char name = true).
Proof. intros _. apply sanitize_filename_facts. Qed.

Lemma sanitize_filename_safe_witness :
  is_ascii "Order Service/v2" = true
  /\ all_chars file_char (DiscoveryCatalog._sanitize_filename "Order Service/v2") = true
  /\ String.length (DiscoveryCatalog._sanitize_filename "Order Service/v2")
     <= String.length "Order Service/v2"
  /\ DiscoveryCatalog._sanitize_filename
       (DiscoveryCatalog._sanitize_filename "Order Service/v2")
     = DiscoveryCatalog._sanitize_filename "Order Service/v2"
  /\ (DiscoveryCatalog._sanitize_filename "Order Service/v2" = "Order Service/v2"
      <-> all_chars file_char "Order Service/v2" = true).
Proof.
  split; [reflexivity |].
  apply (sanitize_filename_safe "Order Service/v2"). reflexivity.
Defined.

(** ** The index of the catalog of 3.0 specifications *)

Lemma getitem_field v k x : getitem v k = Ok x -> field k v = x.
Proof.
  destruct v as [| | | | | d]; try discriminate. unfold getitem, field, get.
  destruct (lookup (VStr k) d); [| discriminate]. intros H. inversion H. reflexivity.
Qed.

Lemma generate_spec_form rt service_name events version_ spec :
  AsynapiGenerator.generate_spec rt service_name events version_ = Ok spec ->
  exists generated servers channels operations components,
    spec = obj [ ("asyncapi", VStr AsynapiGenerator.version);
                 ("info",
                  obj [ ("title", VStr (service_name ++ " Event API"));
                        ("version", VStr version_);
                        ("description",
                         VStr ("Asynchronous event API for " ++ service_name ++ ". "
                               ++ "This specification was auto-generated from code analysis."));
                        ("x-generated", generated) ]);
                 ("servers", VDict servers);
                 ("channels", VDict channels);
                 ("operations", VDict operations);
                 ("components", components) ]
    /\ length servers <= length events
    /\ length channels <= length events.
Proof.
  unfold AsynapiGenerator.generate_spec, AsynapiGenerator._generate_info,
    AsynapiGenerator._generate_servers, AsynapiGenerator._generate_channels,
    AsynapiGenerator._generate_operations.
  intros H.
  destruct (mapM _ events) as [rs |]; cbn [bind] in H; [| discriminate].
  destruct (group_loop "broker" _ events []) as [brokers |] eqn:Hb; cbn [bind] in H;
    [| discriminate].
  destruct (AsynapiGenerator.servers_loop brokers []) as [servers |] eqn:Hsv;
    cbn [bind] in H; [| discriminate].
  destruct (group_loop "channel_name" _ events []) as [groups |] eqn:Hg; cbn [bind] in H;
    [| discriminate].
  destruct (AsynapiGenerator.channels_loop groups []) as [channels |] eqn:Hch;
    cbn [bind] in H; [| discriminate].
  destruct (AsynapiGenerator.operations_group events []) as [ops |]; cbn [bind] in H;
    [| discriminate].
  destruct (AsynapiGenerator.operations_loop ops []) as [operations |]; cbn [bind] in H;
    [| discriminate].
  destruct (AsynapiGenerator._generate_components events) as [components |];
    cbn [bind] in H; [| discriminate].
  inversion H. do 5 eexists. split; [reflexivity |].
  apply group_loop_length in Hb, Hg.
  apply servers_loop_length in Hsv. apply channels_loop_length in Hch.
  simpl in *. lia.
Qed.

Lemma service_entry_generated spec_data :
  generated_spec_data spec_data ->
  DiscoveryCatalog.service_entry spec_data = Ok (service_entry_of spec_data).
Proof.
  intros [service [spec [rt [service_name [events [version_ [Hs [_ [Hp Hgen]]]]]]]]].
  unfold service_entry_of, DiscoveryCatalog.service_entry.
  rewrite (getitem_field _ _ _ Hs), (getitem_field _ _ _ Hp), Hs, Hp. cbn [bind].
  destruct (generate_spec_form _ _ _ _ _ Hgen)
    as [generated [servers [channels [operations [components [-> _]]]]]].
  reflexivity.
Qed.

(** [_save_catalog_index] on documents of the 3.0 generator under service
    names of ASCII does not raise: the index counts the elements and lists
    one entry per element, in order, the entry of a document giving its
    title and version, the numbers of its channels and operations, the keys
    of its servers and the two sanitized file names; there are no more
    brokers or channels in an entry than events behind the document. *)
Theorem catalog_index_of_generated_specs (now : string) (specs : list value) :
  Forall generated_spec_data specs ->
  DiscoveryCatalog._save_catalog_index now specs
  = Ok (obj [ ("generated", VStr (now ++ "Z"));
              ("totalServices", VInt (Z.of_nat (length specs)));
              ("services", VList (map service_entry_of specs)) ])
  /\ (forall spec_data rt service_name events version_,
        In spec_data specs ->
        AsynapiGenerator.generate_spec rt service_name events version_
        = Ok (field "spec" spec_data) ->
        field "title" (service_entry_of spec_data) = VStr (service_name ++ " Event API")
        /\ field "version" (service_entry_of spec_data) = VStr version_
        /\ length (keys (section "servers" (field "spec" spec_data))) <= length events
        /\ length (section "channels" (field "spec" spec_data)) <= length events).
Proof.
  intros H. split.
  - unfold DiscoveryCatalog._save_catalog_index.
    rewrite (mapM_map DiscoveryCatalog.service_entry service_entry_of); [reflexivity |].
    intros x Hx. apply service_entry_generated.
    apply (proj1 (Forall_forall _ _) H x Hx).
  - intros spec_data rt service_name events version_ Hin Hgen.
    destruct (generate_spec_form _ _ _ _ _ Hgen)
      as [generated [servers [channels [operations [components [Hspec [Hsv Hch]]]]]]].
    unfold service_entry_of. rewrite Hspec.
    split; [reflexivity |]. split; [reflexivity |].
    split; [unfold keys; rewrite length_map; exact Hsv | exact Hch].
Qed.

Lemma catalog_index_of_generated_specs_witness :
  Forall generated_spec_data (sample_spec_data (run_forward "2024-01-01T00:00:00"))
  /\ DiscoveryCatalog._save_catalog_index "2024-01-02T00:00:00"
       (sample_spec_data (run_forward "2024-01-01T00:00:00"))
     = Ok (obj [ ("generated", VStr ("2024-01-02T00:00:00" ++ "Z"));
                 ("totalServices",
                  VInt (Z.of_nat (length (sample_spec_data
                                            (run_forward "2024-01-01T00:00:00")))));
                 ("services",
                  VList (map service_entry_of
                             (sample_spec_data (run_forward "2024-01-01T00:00:00")))) ])
  /\ (forall spec_data rt service_name events version_,
        In spec_data (sample_spec_data (run_forward "2024-01-01T00:00:00")) ->
        AsynapiGenerator.generate_spec rt service_name events version_
        = Ok (field "spec" spec_data) ->
        field "title" (service_entry_of spec_data) = VStr (service_name ++ " Event API")
        /\ field "version" (service_entry_of spec_data) = VStr version_
        /\ length (keys (section "servers" (field "spec" spec_data))) <= length events
        /\ length (section "channels" (field "spec" spec_data)) <= length events).
Proof.
  assert (Forall generated_spec_data (sample_spec_data (run_forward "2024-01-01T00:00:00")))
    as H.
  { repeat constructor.
    - eexists "Order Service", _, (run_forward "2024-01-01T00:00:00"), "Order Service",
        sample_channel_events, "1.0.0".
      split; [reflexivity |]. split; [reflexivity |]. split; reflexivity.
    - eexists "order/service", _, (run_forward "2024-01-01T00:00:00"), "order/service",
        sample_channel_events, "1.0.0".
      split; [reflexivity |]. split; [reflexivity |]. split; reflexivity. }
  split; [exact H |].
  apply (catalog_index_of_generated_specs "2024-01-02T00:00:00"
           (sample_spec_data (run_forward "2024-01-01T00:00:00")) H).
Defined.

(** ** The order and name lemmas on the samples *)

Lemma channel_and_server_keys_order_insensitive_witness :
  Permutation sample_channel_events (rev sample_channel_events)
  /\ exists doc doc',
      AsynapiGenerator.generate_spec (run_forward "2024-01-01T00:00:00") "shop"
        sample_channel_events "1.0.0" = Ok doc
      /\ AsynapiGenerator.generate_spec (run_forward "2024-01-01T00:00:00") "shop"
           (rev sample_channel_events) "1.0.0" = Ok doc'
      /\ (forall k, In k (keys (section "channels" doc))
                    <-> In k (keys (section "channels" doc')))
      /\ (forall k, In k (keys (section "servers" doc))
                    <-> In k (keys (section "servers" doc'))).
Proof.
  split; [apply Permutation_rev |].
  eexists. eexists. split; [reflexivity |]. split; [reflexivity |].
  apply (channel_and_server_keys_order_insensitive
           (run_forward "2024-01-01T00:00:00") "shop"
           sample_channel_events (rev sample_channel_events) "1.0.0");
    [apply Permutation_rev | reflexivity | reflexivity].
Defined.

Lemma create_specification_needs_name_witness :
  (exists e, In e sample_producers /\ exists x, getitem e "name" = Raise x)
  /\ exists y, CatalogManager._create_specification "example/shop" sample_producers = Raise y.
Proof.
  assert (exists e, In e sample_producers /\ exists x, getitem e "name" = Raise x) as H.
  { exists (obj [ ("file", VStr "b.py") ]). split.
    - right. left. reflexivity.
    - exists KeyError. reflexivity. }
  split; [exact H |].
  apply (create_specification_needs_name "example/shop" sample_producers H).
Defined.

(** ** Runs on the samples *)

Example detect_sample_scan :
  detect_events "example/orders" sample_scan
  = Ok [ obj [ ("name", VStr "user.created"); ("broker", VStr "kafka");
               ("file", VStr "k.py"); ("repository", VStr "example/orders");
               ("lines", VList [VInt 1]);
               ("source_code", VList [VStr "KafkaProducer(topic='user.created')"]) ];
         obj [ ("name", VStr "user.created"); ("broker", VStr "generic");
               ("file", VStr "a.py"); ("repository", VStr "example/orders");
               ("lines", VList [VInt 3]);
               ("source_code", VList [VStr "bus.emit('user.created')"]) ] ].
Proof. vm_compute. reflexivity. Qed.

Example scan_sample_repository :
  Scanner.scan sample_repository
  = obj [ ("events",
           VList [ scanned_event "src/users.py" "user.created";
                   scanned_event "src/users.py" "mail.queued";
                   scanned_event "web/orders.js" "order.placed" ]);
          ("files", VList [VStr "src/users.py"; VStr "web/orders.js"]);
          ("statistics",
           obj [ ("total_files_scanned", VInt 5); ("producers_found", VInt 3) ]) ].
Proof. vm_compute. reflexivity. Qed.

(** ** The order of strings *)

Lemma compare_lt_trans a : forall b c,
  String.compare a b = Lt -> String.compare b c = Lt -> String.compare a c = Lt.
Proof.
  induction a as [| x a IH]; intros [| y b] [| z c]; simpl; try discriminate; auto.
  unfold Ascii.compare.
  destruct (N.compare_spec (N_of_ascii x) (N_of_ascii y)) as [Hxy | Hxy | Hxy];
    destruct (N.compare_spec (N_of_ascii y) (N_of_ascii z)) as [Hyz | Hyz | Hyz];
    destruct (N.compare_spec (N_of_ascii x) (N_of_ascii z)) as [Hxz | Hxz | Hxz];
    try discriminate; try reflexivity; try lia.
  apply IH.
Qed.

Lemma ltb_lt a b : String.ltb a b = true <-> String.compare a b = Lt.
Proof.
  unfold String.ltb. destruct (String.compare a b); split; congruence.
Qed.

Lemma ltb_asym a b : String.ltb a b = true -> String.ltb b a = false.
Proof.
  intros H. apply ltb_lt in H. unfold String.ltb.
  rewrite String.compare_antisym, H. reflexivity.
Qed.

Lemma ltb_total a b : String.ltb a b = false -> String.ltb b a = false -> a = b.
Proof.
  unfold String.ltb. rewrite (String.compare_antisym b a).
  destruct (String.compare a b) eqn:E; simpl; try discriminate.
  intros _ _. apply String.compare_eq_iff, E.
Qed.

Lemma ltb_trans a b c :
  String.ltb a b = true -> String.ltb b c = true -> String.ltb a c = true.
Proof.
  rewrite !ltb_lt. apply compare_lt_trans.
Qed.

Lemma ltb_le_trans a y b :
  String.ltb y a = false -> String.ltb y b = true -> String.ltb a b = true.
Proof.
  intros Hya Hyb. destruct (String.ltb a y) eqn:Hay.
  - eapply ltb_trans; eassumption.
  - rewrite (ltb_total a y Hay Hya). exact Hyb.
Qed.

Lemma ltb_irrefl a : String.ltb a a = false.
Proof.
  destruct (String.ltb a a) eqn:E; [| reflexivity].
  rewrite (ltb_asym a a E) in E. discriminate.
Qed.

(** ** The sort of strings *)

Lemma insert_string_perm x l : Permutation (insert_string x l) (x :: l).
Proof.
  induction l as [| y r IH]; cbn [insert_string]; [apply Permutation_refl |].
  destruct (String.ltb y x); [| apply Permutation_refl].
  eapply Permutation_trans; [apply perm_skip, IH | apply perm_swap].
Qed.

Lemma sort_strings_perm l : Permutation (sort_strings l) l.
Proof.
  induction l as [| x r IH]; simpl; [constructor |].
  eapply Permutation_trans; [apply insert_string_perm | apply perm_skip, IH].
Qed.

Lemma insert_string_comm a b l :
  insert_string a (insert_string b l) = insert_string b (insert_string a l).
Proof.
  induction l as [| y r IH]; cbn [insert_string].
  - destruct (String.ltb b a) eqn:Hba, (String.ltb a b) eqn:Hab; try reflexivity.
    + rewrite (ltb_asym b a Hba) in Hab. discriminate.
    + rewrite (ltb_total a b Hab Hba). reflexivity.
  - destruct (String.ltb y b) eqn:Hyb, (String.ltb y a) eqn:Hya; cbn [insert_string];
      rewrite ?Hyb, ?Hya.
    + rewrite IH. reflexivity.
    + rewrite (ltb_le_trans a y b Hya Hyb). cbn [insert_string]. rewrite ?Hyb.
      reflexivity.
    + rewrite (ltb_le_trans b y a Hyb Hya). cbn [insert_string]. rewrite ?Hya.
      reflexivity.
    + destruct (String.ltb b a) eqn:Hba, (String.ltb a b) eqn:Hab; cbn [insert_string];
        rewrite ?Hyb, ?Hya; try reflexivity.
      * rewrite (ltb_asym b a Hba) in Hab. discriminate.
      * rewrite (ltb_total a b Hab Hba). reflexivity.
Qed.

(** The sort does not depend on the order of its argument. *)
Lemma sort_strings_permutation l l' :
  Permutation l l' -> sort_strings l = sort_strings l'.
Proof.
  induction 1 as [| x l l' _ IH | x y l | l l' l'' _ IH1 _ IH2]; simpl.
  - reflexivity.
  - rewrite IH. reflexivity.
  - apply insert_string_comm.
  - rewrite IH1. exact IH2.
Qed.

Lemma insert_string_ascending x l :
  ascending l = true -> ~ In x l -> ascending (insert_string x l) = true.
Proof.
  induction l as [| y r IH]; intros Hl Hx; [reflexivity |].
  cbn [insert_string]. destruct (String.ltb y x) eqn:Hyx.
  - assert (ascending r = true) as Hr.
    { destruct r as [| z r]; [reflexivity |]. simpl in Hl.
      apply andb_true_iff in Hl. apply Hl. }
    assert (~ In x r) as Hxr by (intros H; apply Hx; right; exact H).
    specialize (IH Hr Hxr).
    destruct r as [| z r].
    + simpl. rewrite Hyx. reflexivity.
    + cbn [insert_string] in *. destruct (String.ltb z x).
      * simpl in Hl. apply andb_true_iff in Hl.
        change (String.ltb y z && ascending (z :: insert_string x r) = true).
        rewrite (proj1 Hl). exact IH.
      * change (String.ltb y x && ascending (x :: z :: r) = true).
        rewrite Hyx. exact IH.
  - change (String.ltb x y && ascending (y :: r) = true). rewrite Hl, andb_true_r.
    destruct (String.ltb x y) eqn:Hxy; [reflexivity |].
    exfalso. apply Hx. left. apply ltb_total; assumption.
Qed.

Lemma sort_strings_ascending l : NoDup l -> ascending (sort_strings l) = true.
Proof.
  induction 1 as [| x l Hx _ IH]; [reflexivity |].
  simpl. apply insert_string_ascending; [exact IH |].
  intros H. apply Hx. eapply Permutation_in; [apply sort_strings_perm | exact H].
Qed.

(** On strings, [sorted] is the sort of the strings. *)
Lemma insert_strings x l :
  DiscoveryCatalog.insert (VStr x) (map VStr l) = Ok (map VStr (insert_string x l)).
Proof.
  induction l as [| y r IH]; [reflexivity |].
  cbn [map DiscoveryCatalog.insert DiscoveryCatalog.lt bind insert_string].
  destruct (String.ltb y x); [rewrite IH |]; reflexivity.
Qed.

Lemma sorted_strings l :
  DiscoveryCatalog.sorted (map VStr l) = Ok (map VStr (sort_strings l)).
Proof.
  induction l as [| x r IH]; [reflexivity |].
  cbn [map DiscoveryCatalog.sorted sort_strings]. rewrite IH. cbn [bind].
  apply insert_strings.
Qed.

Lemma insert_length x l s : DiscoveryCatalog.insert x l = Ok s -> length s = S (length l).
Proof.
  revert s. induction l as [| y r IH]; intros s H; cbn [DiscoveryCatalog.insert] in H.
  - inversion H. reflexivity.
  - destruct (DiscoveryCatalog.lt y x) as [b | e]; cbn [bind] in H; [| discriminate].
    destruct b.
    + destruct (DiscoveryCatalog.insert x r) as [r' | e]; cbn [bind] in H; [| discriminate].
      inversion H. simpl. rewrite (IH r' eq_refl). reflexivity.
    + inversion H. reflexivity.
Qed.

Lemma sorted_length l s : DiscoveryCatalog.sorted l = Ok s -> length s = length l.
Proof.
  revert s. induction l as [| x r IH]; intros s H; cbn [DiscoveryCatalog.sorted] in H.
  - inversion H. reflexivity.
  - destruct (DiscoveryCatalog.sorted r) as [s' | e]; cbn [bind] in H; [| discriminate].
    apply insert_length in H. rewrite H, (IH s' eq_refl). reflexivity.
Qed.

(** ** The discovery report *)

Lemma lookup_some_in k d v : lookup k d = Some v -> exists k', In (k', v) d.
Proof.
  induction d as [| [k' v'] d IH]; cbn [lookup]; [discriminate |].
  destruct (py_eqb k' k).
  - intros H. inversion H; subst. exists k'. left. reflexivity.
  - intros H. destruct (IH H) as [k'' Hin]. exists k''. right. exact Hin.
Qed.

Lemma keys_dict_set_present k v d :
  lookup k d <> None -> keys (dict_set k v d) = keys d.
Proof.
  induction d as [| [k' v'] d IH]; cbn [lookup dict_set]; [congruence |].
  destruct (py_eqb k' k); [reflexivity |].
  intros H. cbn [keys map fst]. f_equal. apply IH, H.
Qed.

Lemma dict_set_counts k m d :
  int_counts d ->
  int_counts (dict_set k (VInt m) d)
  /\ total_count (dict_set k (VInt m) d)
     = (total_count d
        - match lookup k d with
          | Some v => DiscoveryCatalog.int_of v
          | None => 0
          end
        + m)%Z.
Proof.
  induction 1 as [| [k' v'] d [n Hn] Hd [IH1 IH2]]; cbn [dict_set lookup].
  - split; [constructor; [exists m; reflexivity | constructor] |].
    unfold total_count. simpl. lia.
  - destruct (py_eqb k' k).
    + split; [constructor; [exists m; reflexivity | exact Hd] |].
      unfold total_count. simpl. lia.
    + split; [constructor; [exists n; exact Hn | exact IH1] |].
      unfold total_count in *. simpl. rewrite IH2. lia.
Qed.

Lemma count_up_counts k counts counts' :
  int_counts counts ->
  DiscoveryCatalog.count_up k counts = Ok counts' ->
  int_counts counts' /\ total_count counts' = (total_count counts + 1)%Z.
Proof.
  intros Hc. unfold DiscoveryCatalog.count_up.
  destruct (hashable k); [| discriminate].
  destruct (lookup k counts) as [v |] eqn:E.
  - destruct (lookup_some_in _ _ _ E) as [k' Hin].
    destruct (proj1 (Forall_forall _ _) Hc _ Hin) as [n Hn]. simpl in Hn. subst v.
    intros H. injection H as <-.
    destruct (dict_set_counts k (n + 1) counts Hc) as [H1 H2].
    rewrite E in H2. simpl in H2. split; [exact H1 | lia].
  - intros H. injection H as <-.
    destruct (dict_set_counts k 1 counts Hc) as [H1 H2].
    rewrite E in H2. split; [exact H1 | lia].
Qed.

Lemma count_up_string s counts :
  int_counts counts -> string_keys counts ->
  exists counts',
    DiscoveryCatalog.count_up (VStr s) counts = Ok counts' /\ string_keys counts'.
Proof.
  intros Hc [ks Hks]. unfold DiscoveryCatalog.count_up. cbn [hashable].
  destruct (lookup (VStr s) counts) as [v |] eqn:E.
  - destruct (lookup_some_in _ _ _ E) as [k' Hin].
    destruct (proj1 (Forall_forall _ _) Hc _ Hin) as [n Hn]. simpl in Hn. subst v.
    eexists. split; [reflexivity |]. exists ks.
    rewrite keys_dict_set_present; [exact Hks | congruence].
  - eexists. split; [reflexivity |]. exists (ks ++ [s])%list.
    rewrite (keys_dict_set_new _ _ _ E), Hks, map_app. reflexivity.
Qed.

Lemma set_add_length x s : length (DiscoveryCatalog.set_add x s) <= S (length s).
Proof.
  unfold DiscoveryCatalog.set_add. destruct (existsb _ s); [lia |].
  rewrite length_app. simpl. lia.
Qed.

Lemma set_add_strings r rs :
  NoDup rs ->
  exists rs',
    DiscoveryCatalog.set_add (VStr r) (map VStr rs) = map VStr rs'
    /\ NoDup rs'
    /\ (forall x, In x rs' <-> In x rs \/ x = r).
Proof.
  intros Hnd. unfold DiscoveryCatalog.set_add.
  destruct (existsb (fun y => py_eqb y (VStr r)) (map VStr rs)) eqn:E.
  - exists rs. split; [reflexivity |]. split; [exact Hnd |].
    intros x. split; [auto |]. intros [H | ->]; [exact H |].
    apply existsb_exists in E. destruct E as [y [Hy Heq]].
    apply py_eqb_str_r in Heq. subst y.
    apply in_map_iff in Hy. destruct Hy as [z [Hz Hin]]. inversion Hz; subst. exact Hin.
  - exists (rs ++ [r])%list. split; [rewrite map_app; reflexivity |].
    assert (~ In r rs) as Hr.
    { intros Hin. assert (existsb (fun y => py_eqb y (VStr r)) (map VStr rs) = true) as Ht.
      { apply existsb_exists. exists (VStr r). split; [apply in_map, Hin |].
        simpl. apply String.eqb_refl. }
      rewrite Ht in E. discriminate. }
    split.
    + apply (Permutation_NoDup (l := r :: rs)); [apply Permutation_cons_append |].
      constructor; assumption.
    + intros x. rewrite in_app_iff. simpl. split.
      * intros [H | [H | []]]; auto.
      * intros [H | H]; auto.
Qed.

(** The accumulators of the report: each event adds one to a broker count
    and one to a framework count, and at most one repository. *)
Lemma tally_loop_counts events :
  forall t t',
    int_counts (DiscoveryCatalog.brokers t) ->
    int_counts (DiscoveryCatalog.frameworks t) ->
    DiscoveryCatalog.tally_loop events t = Ok t' ->
    total_count (DiscoveryCatalog.brokers t')
    = (total_count (DiscoveryCatalog.brokers t) + Z.of_nat (length events))%Z
    /\ total_count (DiscoveryCatalog.frameworks t')
       = (total_count (DiscoveryCatalog.frameworks t) + Z.of_nat (length events))%Z
    /\ length (DiscoveryCatalog.repositories t')
       <= length (DiscoveryCatalog.repositories t) + length events.
Proof.
  induction events as [| e events IH]; intros t t' Hb Hf H;
    cbn [DiscoveryCatalog.tally_loop] in H.
  - inversion H; subst. simpl. repeat split; lia.
  - destruct (get e "broker" (VStr "unknown")) as [b | x]; cbn [bind] in H;
      [| discriminate].
    destruct (get e "framework" (VStr "unknown")) as [f | x]; cbn [bind] in H;
      [| discriminate].
    destruct (get e "repository" (VStr EmptyString)) as [r | x]; cbn [bind] in H;
      [| discriminate].
    destruct (DiscoveryCatalog.count_up b (DiscoveryCatalog.brokers t)) as [bs | x] eqn:Eb;
      cbn [bind] in H; [| discriminate].
    destruct (DiscoveryCatalog.count_up f (DiscoveryCatalog.frameworks t)) as [fs | x] eqn:Ef;
      cbn [bind] in H; [| discriminate].
    destruct (count_up_counts _ _ _ Hb Eb) as [Hb' Hbt].
    destruct (count_up_counts _ _ _ Hf Ef) as [Hf' Hft].
    assert (exists rs,
              DiscoveryCatalog.tally_loop events
                {| DiscoveryCatalog.brokers := bs;
                   DiscoveryCatalog.frameworks := fs;
                   DiscoveryCatalog.repositories := rs |} = Ok t'
              /\ length rs <= S (length (DiscoveryCatalog.repositories t))) as [rs [H' Hrs]].
    { destruct (truthy r).
      - destruct (hashable r); cbn [bind] in H; [| discriminate].
        eexists. split; [exact H | apply set_add_length].
      - cbn [bind] in H. eexists. split; [exact H | lia]. }
    destruct (IH {| DiscoveryCatalog.brokers := bs;
                    DiscoveryCatalog.frameworks := fs;
                    DiscoveryCatalog.repositories := rs |} t' Hb' Hf' H')
      as [H1 [H2 H3]].
    cbn [DiscoveryCatalog.brokers DiscoveryCatalog.frameworks
         DiscoveryCatalog.repositories] in H1, H2, H3.
    assert (length (e :: events) = S (length events)) as -> by reflexivity.
    repeat split; lia.
Qed.

Lemma tally_loop_strings events :
  Forall report_event events ->
  forall t rs,
    int_counts (DiscoveryCatalog.brokers t) -> string_keys (DiscoveryCatalog.brokers t) ->
    int_counts (DiscoveryCatalog.frameworks t) ->
    string_keys (DiscoveryCatalog.frameworks t) ->
    DiscoveryCatalog.repositories t = map VStr rs -> NoDup rs ->
    exists t' rs',
      DiscoveryCatalog.tally_loop events t = Ok t'
      /\ string_keys (DiscoveryCatalog.brokers t')
      /\ string_keys (DiscoveryCatalog.frameworks t')
      /\ DiscoveryCatalog.repositories t' = map VStr rs'
      /\ NoDup rs'
      /\ (forall r, In r rs'
                    <-> In r rs \/ exists e, In e events /\ names_repository e r).
Proof.
  induction 1 as [| e events [b [f [r [Hgb [Hgf Hgr]]]]] _ IH];
    intros t rs Hb Hbk Hf Hfk Hr Hnd.
  - exists t, rs. split; [reflexivity |]. repeat (split; [assumption |]).
    intros r. split; [auto |]. intros [H | [e [[] _]]]. exact H.
  - cbn [DiscoveryCatalog.tally_loop]. rewrite Hgb, Hgf, Hgr. cbn [bind].
    destruct (count_up_string b _ Hb Hbk) as [bs [Eb Hbk']].
    destruct (count_up_string f _ Hf Hfk) as [fs [Ef Hfk']].
    rewrite Eb, Ef. cbn [bind].
    destruct (count_up_counts _ _ _ Hb Eb) as [Hb' _].
    destruct (count_up_counts _ _ _ Hf Ef) as [Hf' _].
    cbn [truthy hashable]. rewrite Hr.
    destruct (String.eqb r EmptyString) eqn:Er; cbn [negb bind].
    + apply String.eqb_eq in Er.
      destruct (IH {| DiscoveryCatalog.brokers := bs;
                      DiscoveryCatalog.frameworks := fs;
                      DiscoveryCatalog.repositories := map VStr rs |} rs
                  Hb' Hbk' Hf' Hfk' eq_refl Hnd)
        as [t' [rs' [Ht [H1 [H2 [H3 [H4 H5]]]]]]].
      exists t', rs'. split; [exact Ht |]. repeat (split; [assumption |]).
      intros x. rewrite H5. split.
      * intros [H | [e' [Hin Hn]]]; [left; exact H |].
        right. exists e'. split; [right; exact Hin | exact Hn].
      * intros [H | [e' [[<- | Hin] Hn]]]; [left; exact H | |].
        -- destruct Hn as [Hne Hx]. rewrite Hgr in Hx. inversion Hx. congruence.
        -- right. exists e'. split; assumption.
    + apply String.eqb_neq in Er.
      destruct (set_add_strings r rs Hnd) as [rs1 [Hadd [Hnd1 Hin1]]].
      rewrite Hadd.
      destruct (IH {| DiscoveryCatalog.brokers := bs;
                      DiscoveryCatalog.frameworks := fs;
                      DiscoveryCatalog.repositories := map VStr rs1 |} rs1
                  Hb' Hbk' Hf' Hfk' eq_refl Hnd1)
        as [t' [rs' [Ht [H1 [H2 [H3 [H4 H5]]]]]]].
      exists t', rs'. split; [exact Ht |]. repeat (split; [assumption |]).
      intros x. rewrite H5, Hin1. split.
      * intros [[H | ->] | [e' [Hin Hn]]].
        -- left. exact H.
        -- right. exists e. split; [left; reflexivity | split; assumption].
        -- right. exists e'. split; [right; exact Hin | exact Hn].
      * intros [H | [e' [[<- | Hin] Hn]]].
        -- left. left. exact H.
        -- destruct Hn as [Hne Hx]. rewrite Hgr in Hx. inversion Hx. left. right.
           reflexivity.
        -- right. exists e'. split; assumption.
Qed.

Lemma sorted_set_order rt rs :
  DiscoveryCatalog.sorted (set_order rt (map VStr rs)) = Ok (map VStr (sort_strings rs)).
Proof.
  destruct (Permutation_map_inv VStr rs (set_order_perm rt (map VStr rs)))
    as [rs' [Heq Hperm]].
  rewrite Heq, sorted_strings, (sort_strings_permutation _ _ Hperm). reflexivity.
Qed.

Lemma save_text_summary_strings brokers frameworks :
  string_keys brokers -> string_keys frameworks ->
  DiscoveryCatalog._save_text_summary brokers frameworks = Ok tt.
Proof.
  intros [bs Hb] [fs Hf]. unfold DiscoveryCatalog._save_text_summary.
  rewrite Hb, Hf, !sorted_strings. reflexivity.
Qed.

Lemma generate_report_strings output_directory events specs :
  Forall report_event events ->
  exists t rs,
    (forall rt,
        DiscoveryCatalog.generate_report rt output_directory events specs
        = Ok (obj [ ("timestamp", VStr (utcnow_isoformat rt ++ "Z"));
                    ("summary",
                     obj [ ("total_events", VInt (Z.of_nat (length events)));
                           ("total_services", VInt (Z.of_nat (length specs)));
                           ("total_repositories", VInt (Z.of_nat (length rs))) ]);
                    ("brokers", VDict (DiscoveryCatalog.brokers t));
                    ("frameworks", VDict (DiscoveryCatalog.frameworks t));
                    ("repositories", VList (map VStr (sort_strings rs)));
                    ("output_directory", VStr output_directory) ]))
    /\ NoDup rs
    /\ (forall r, In r rs <-> exists e, In e events /\ names_repository e r).
Proof.
  intros H.
  destruct (tally_loop_strings events H
              {| DiscoveryCatalog.brokers := [];
                 DiscoveryCatalog.frameworks := [];
                 DiscoveryCatalog.repositories := [] |} [])
    as [t [rs [Ht [Hbk [Hfk [Hr [Hnd Hin]]]]]]];
    try (constructor; fail); try (exists []; reflexivity); try reflexivity.
  exists t, rs. split; [| split; [exact Hnd |]].
  - intros rt. unfold DiscoveryCatalog.generate_report.
    rewrite Ht. cbn [bind]. rewrite Hr, sorted_set_order. cbn [bind].
    rewrite (save_text_summary_strings _ _ Hbk Hfk). cbn [bind].
    rewrite length_map. reflexivity.
  - intros r. rewrite Hin. split; [intros [[] | Hx]; exact Hx | auto].
Qed.

(** [generate_report] on events whose [broker], [framework] and
    [repository] are strings or missing returns a report, the same in every
    run with the same clock reading whatever the order of the set: its
    repositories are the names of the events that are not empty, each once,
    in ascending order. *)
Theorem report_repositories_sorted
  (rt : runtime) (output_directory : string) (events specs : list value) :
  Forall report_event events ->
  exists report rs,
    DiscoveryCatalog.generate_report rt output_directory events specs = Ok report
    /\ field "repositories" report = VList (map VStr rs)
    /\ ascending rs = true
    /\ (forall r, In r rs <-> exists e, In e events /\ names_repository e r)
    /\ (forall rt',
           utcnow_isoformat rt' = utcnow_isoformat rt ->
           DiscoveryCatalog.generate_report rt' output_directory events specs
           = Ok report).
Proof.
  intros H.
  destruct (generate_report_strings output_directory events specs H)
    as [t [rs [Hgen [Hnd Hin]]]].
  eexists. exists (sort_strings rs). split; [apply Hgen |].
  split; [reflexivity |]. split; [apply sort_strings_ascending, Hnd |]. split.
  - intros r. rewrite <- Hin. split; apply Permutation_in.
    + apply sort_strings_perm.
    + apply Permutation_sym, sort_strings_perm.
  - intros rt' Hclock. rewrite Hgen, Hclock. reflexivity.
Qed.

Lemma report_repositories_sorted_witness :
  Forall report_event sample_report_events
  /\ exists report rs,
      DiscoveryCatalog.generate_report (run_backward "2024-01-01T00:00:00")
        "/srv/catalog" sample_report_events [] = Ok report
      /\ field "repositories" report = VList (map VStr rs)
      /\ ascending rs = true
      /\ (forall r, In r rs
                    <-> exists e, In e sample_report_events /\ names_repository e r)
      /\ (forall rt',
             utcnow_isoformat rt' = utcnow_isoformat (run_backward "2024-01-01T00:00:00") ->
             DiscoveryCatalog.generate_report rt' "/srv/catalog" sample_report_events []
             = Ok report).
Proof.
  assert (Forall report_event sample_report_events) as H.
  { repeat (apply Forall_cons;
              [do 3 eexists; split; [reflexivity |]; split; reflexivity |]).
    apply Forall_nil. }
  split; [exact H |].
  apply (report_repositories_sorted (run_backward "2024-01-01T00:00:00") "/srv/catalog"
           sample_report_events [] H).
Defined.

(** When [generate_report] returns, the counts of the brokers add up to
    the number of events, and so do those of the frameworks; the report
    lists as many repositories as it counts, no more than there are
    events. *)
Theorem report_counts
  (rt : runtime) (output_directory : string) (events specs : list value)
  (report : value) :
  DiscoveryCatalog.generate_report rt output_directory events specs = Ok report ->
  total_count (section "brokers" report) = Z.of_nat (length events)
  /\ total_count (section "frameworks" report) = Z.of_nat (length events)
  /\ field "total_events" (field "summary" report) = VInt (Z.of_nat (length events))
  /\ exists repos,
      field "repositories" report = VList repos
      /\ field "total_repositories" (field "summary" report)
         = VInt (Z.of_nat (length repos))
      /\ length repos <= length events.
Proof.
  unfold DiscoveryCatalog.generate_report. intros H.
  destruct (DiscoveryCatalog.tally_loop events _) as [t | x] eqn:Ht; cbn [bind] in H;
    [| discriminate].
  destruct (DiscoveryCatalog.sorted (set_order rt (DiscoveryCatalog.repositories t)))
    as [repos | x] eqn:Hs; cbn [bind] in H; [| discriminate].
  destruct (DiscoveryCatalog._save_text_summary _ _) as [u | x]; cbn [bind] in H;
    [| discriminate].
  injection H as <-.
  destruct (tally_loop_counts events
              {| DiscoveryCatalog.brokers := [];
                 DiscoveryCatalog.frameworks := [];
                 DiscoveryCatalog.repositories := [] |} t
              (Forall_nil _) (Forall_nil _) Ht)
    as [Hb [Hf Hr]].
  cbn [DiscoveryCatalog.brokers DiscoveryCatalog.frameworks
       DiscoveryCatalog.repositories] in Hb, Hf, Hr.
  apply sorted_length in Hs.
  rewrite (Permutation_length (set_order_perm rt _)) in Hs.
  split; [exact Hb |]. split; [exact Hf |]. split; [reflexivity |].
  exists repos. split; [reflexivity |]. split.
  - rewrite Hs. reflexivity.
  - rewrite Hs. simpl in Hr. exact Hr.
Qed.

Lemma report_counts_witness :
  DiscoveryCatalog.generate_report (run_forward "2024-01-01T00:00:00") "/srv/catalog"
    sample_report_events []
  = Ok (returned (DiscoveryCatalog.generate_report (run_forward "2024-01-01T00:00:00")
                    "/srv/catalog" sample_report_events []))
  /\ total_count
       (section "brokers"
          (returned (DiscoveryCatalog.generate_report
                       (run_forward "2024-01-01T00:00:00") "/srv/catalog"
                       sample_report_events [])))
     = Z.of_nat (length sample_report_events)
  /\ total_count
       (section "frameworks"
          (returned (DiscoveryCatalog.generate_report
                       (run_forward "2024-01-01T00:00:00") "/srv/catalog"
                       sample_report_events [])))
     = Z.of_nat (length sample_report_events)
  /\ field "total_events"
       (field "summary"
          (returned (DiscoveryCatalog.generate_report
                       (run_forward "2024-01-01T00:00:00") "/srv/catalog"
                       sample_report_events [])))
     = VInt (Z.of_nat (length sample_report_events))
  /\ exists repos,
      field "repositories"
        (returned (DiscoveryCatalog.generate_report
                     (run_forward "2024-01-01T00:00:00") "/srv/catalog"
                     sample_report_events []))
      = VList repos
      /\ field "total_repositories"
           (field "summary"
              (returned (DiscoveryCatalog.generate_report
                           (run_forward "2024-01-01T00:00:00") "/srv/catalog"
                           sample_report_events [])))
         = VInt (Z.of_nat (length repos))
      /\ length repos <= length sample_report_events.
Proof.
  split; [reflexivity |].
  apply (report_counts (run_forward "2024-01-01T00:00:00") "/srv/catalog"
           sample_report_events []).
  reflexivity.
Defined.

(** Repositories of two kinds have no order: the report raises. *)
Example report_mixed_repositories :
  forall rt,
    DiscoveryCatalog.generate_report rt "/srv/catalog"
      [ obj [ ("repository", VStr "example/orders") ];
        obj [ ("repository", VInt 7) ] ] []
    = Raise TypeError.
Proof.
  intros rt. unfold DiscoveryCatalog.generate_report.
  remember (DiscoveryCatalog.tally_loop _ _) as tl eqn:Ht. vm_compute in Ht. subst tl.
  cbn [bind DiscoveryCatalog.repositories].
  match goal with
  | |- context [set_order rt ?l] =>
      destruct (Permutation_length_2_inv (Permutation_sym (set_order_perm rt l)))
        as [-> | ->]
  end; reflexivity.
Qed.
